(** * Drop-Impact: configuration, controller, diagnostics and footprint probe

    A shallow embedding of the C sources of the repository
    ([src-local/params.h], [src-local/geometry.h], [src-local/diagnostics.h],
    [simulationCases/dropImpact.c], [simulationCases/dropImpact_legacy.c],
    [postProcess/getFootPrint.c]) together with the properties their
    specification states about them and further properties of the code.

    Conventions of the embedding:
    - a C [double] is a binary64 [float] of the kernel ([PrimFloat]); the
      comparisons are the IEEE ones, so every comparison with a NaN is false;
    - a C [int] is a [Z]; where the program shifts an [int] or takes a
      remainder by a number that no check bounds, the behaviour of the
      32-bit type is written out ([CInt]);
    - a signal that kills the process is part of the state of the process
      ([Process.fate]), and an exit code or a signal is how [main] ends;
    - a C string is a [string] (a NUL character ends it, see [CStr.c_str]);
    - text printed with [fprintf] is a value of a message type carrying the
      arguments of the call, appended to the stream it is printed on;
    - what belongs to libc or to the numerical engine (Basilisk) and not to
      this repository ([atoi], [atof], [restore], [refine], [fraction],
      [facet_normal], ...) is a variable of the section that uses it; the
      loop of [run()], which is the engine's too, is modelled as a
      scheduler that calls the events of the case file pass after pass. *)

From Stdlib Require Import ZArith Bool List String Ascii Lia Permutation Btauto.
From Stdlib Require Import Floats.
Import ListNotations.

Set Warnings "-inexact-float".

(** ** C doubles *)

Module CDouble.

Definition double := float.

(** The relational operators of C on doubles. *)
Definition c_lt (a b : double) : bool := (a <? b)%float.
Definition c_le (a b : double) : bool := (a <=? b)%float.
Definition c_gt (a b : double) : bool := (b <? a)%float.
Definition c_ge (a b : double) : bool := (b <=? a)%float.
Definition c_eq (a b : double) : bool := (a =? b)%float.

(** [sq] of Basilisk: [#define sq(x) ((x)*(x))]. *)
Definition sq (x : double) : double := (x * x)%float.

(** A double that is a number: not a NaN. *)
Definition is_num (x : double) : bool := negb (is_nan x).

(** The order of [SFcompare] read through a rank in a lexicographic triple:
    the sign class first, then exponent and mantissa (both negated for the
    negative numbers). *)
Definition rank (x : spec_float) : Z * Z * Z :=
  match x with
  | S754_nan => (0, 0, 0)
  | S754_zero _ => (0, 0, 0)
  | S754_infinity true => (-2, 0, 0)
  | S754_infinity false => (2, 0, 0)
  | S754_finite true m e => (-1, - e, Zneg m)
  | S754_finite false m e => (1, e, Zpos m)
  end%Z.

Definition lex3 (a b : Z * Z * Z) : comparison :=
  let '(a1, a2, a3) := a in
  let '(b1, b2, b3) := b in
  match (a1 ?= b1)%Z with
  | Eq => match (a2 ?= b2)%Z with
          | Eq => (a3 ?= b3)%Z
          | c => c
          end
  | c => c
  end.

Definition sf_is_nan (x : spec_float) : bool :=
  match x with S754_nan => true | _ => false end.

Lemma SFcompare_rank (x y : spec_float) :
  sf_is_nan x = false -> sf_is_nan y = false ->
  SFcompare x y = Some (lex3 (rank x) (rank y)).
Proof.
  destruct x as [sx|sx| |sx mx ex], y as [sy|sy| |sy my ey];
    simpl; try discriminate; intros _ _;
    try (destruct sx; reflexivity);
    try (destruct sy; reflexivity);
    try (destruct sx, sy; reflexivity).
  destruct sx, sy; simpl; try reflexivity.
  rewrite Z.compare_opp, (Z.compare_antisym ex ey).
  destruct (ex ?= ey)%Z; reflexivity.
Qed.

Lemma lex3_refl a : lex3 a a = Eq.
Proof.
  destruct a as [[a1 a2] a3]; unfold lex3.
  now rewrite !Z.compare_refl.
Qed.

Lemma lex3_le_trans a b c :
  lex3 a b <> Gt -> lex3 b c <> Gt -> lex3 a c <> Gt.
Proof.
  destruct a as [[a1 a2] a3], b as [[b1 b2] b3], c as [[c1 c2] c3].
  unfold lex3.
  destruct (Z.compare_spec a1 b1), (Z.compare_spec b1 c1),
    (Z.compare_spec a1 c1); try lia; try congruence;
  destruct (Z.compare_spec a2 b2), (Z.compare_spec b2 c2),
    (Z.compare_spec a2 c2); try lia; try congruence;
  destruct (Z.compare_spec a3 b3), (Z.compare_spec b3 c3),
    (Z.compare_spec a3 c3); try lia; congruence.
Qed.

Lemma lex3_antisym a b : lex3 b a = CompOpp (lex3 a b).
Proof.
  destruct a as [[a1 a2] a3], b as [[b1 b2] b3]; unfold lex3.
  rewrite (Z.compare_antisym a1 b1), (Z.compare_antisym a2 b2),
    (Z.compare_antisym a3 b3).
  destruct (a1 ?= b1)%Z, (a2 ?= b2)%Z, (a3 ?= b3)%Z; reflexivity.
Qed.

Definition rk (x : double) : Z * Z * Z := rank (Prim2SF x).

Lemma is_nan_Prim2SF (x : double) : is_nan x = sf_is_nan (Prim2SF x).
Proof.
  unfold is_nan. rewrite eqb_spec. unfold SFeqb.
  destruct (sf_is_nan (Prim2SF x)) eqn:E.
  - destruct (Prim2SF x); try discriminate. reflexivity.
  - now rewrite (SFcompare_rank _ _ E E), lex3_refl.
Qed.

Lemma is_num_Prim2SF (x : double) :
  is_num x = true <-> sf_is_nan (Prim2SF x) = false.
Proof.
  unfold is_num. rewrite is_nan_Prim2SF.
  destruct (sf_is_nan (Prim2SF x)); simpl; intuition congruence.
Qed.

Lemma SFcompare_nan (x y : spec_float) :
  sf_is_nan x = true \/ sf_is_nan y = true -> SFcompare x y = None.
Proof.
  destruct x, y; simpl; intuition congruence.
Qed.

(** A comparison that holds has two numbers as operands, and is then the
    comparison of their ranks. *)
Lemma c_le_spec (x y : double) :
  c_le x y = true <->
  is_num x = true /\ is_num y = true /\ lex3 (rk x) (rk y) <> Gt.
Proof.
  unfold c_le, rk. rewrite leb_spec, !is_num_Prim2SF. unfold SFleb.
  destruct (sf_is_nan (Prim2SF x)) eqn:Ex.
  { rewrite SFcompare_nan by auto. intuition congruence. }
  destruct (sf_is_nan (Prim2SF y)) eqn:Ey.
  { rewrite SFcompare_nan by auto. intuition congruence. }
  rewrite (SFcompare_rank _ _ Ex Ey).
  destruct (lex3 _ _); intuition congruence.
Qed.

Lemma c_lt_spec (x y : double) :
  c_lt x y = true <->
  is_num x = true /\ is_num y = true /\ lex3 (rk x) (rk y) = Lt.
Proof.
  unfold c_lt, rk. rewrite ltb_spec, !is_num_Prim2SF. unfold SFltb.
  destruct (sf_is_nan (Prim2SF x)) eqn:Ex.
  { rewrite SFcompare_nan by auto. intuition congruence. }
  destruct (sf_is_nan (Prim2SF y)) eqn:Ey.
  { rewrite SFcompare_nan by auto. intuition congruence. }
  rewrite (SFcompare_rank _ _ Ex Ey).
  destruct (lex3 _ _); intuition congruence.
Qed.

Lemma c_le_refl (x : double) : is_num x = true -> c_le x x = true.
Proof.
  intros H. apply c_le_spec. repeat split; auto.
  rewrite lex3_refl. discriminate.
Qed.

Lemma c_le_trans (x y z : double) :
  c_le x y = true -> c_le y z = true -> c_le x z = true.
Proof.
  rewrite !c_le_spec. intros (Hx & Hy & Hxy) (_ & Hz & Hyz).
  repeat split; auto. eapply lex3_le_trans; eauto.
Qed.

Lemma c_lt_le (x y : double) : c_lt x y = true -> c_le x y = true.
Proof.
  rewrite c_lt_spec, c_le_spec. intros (Hx & Hy & Hxy).
  repeat split; auto. congruence.
Qed.

(** On numbers the order is total: what is not below is above or equal. *)
Lemma c_lt_false_le (x y : double) :
  is_num x = true -> is_num y = true ->
  c_lt y x = false -> c_le x y = true.
Proof.
  intros Hx Hy H. apply c_le_spec. repeat split; auto.
  intros Hgt.
  assert (c_lt y x = true); [|congruence].
  apply c_lt_spec. repeat split; auto.
  rewrite lex3_antisym, Hgt. reflexivity.
Qed.

Lemma c_le_false_lt (x y : double) :
  is_num x = true -> is_num y = true ->
  c_le x y = false -> c_lt y x = true.
Proof.
  intros Hx Hy H. apply c_lt_spec. repeat split; auto.
  rewrite lex3_antisym.
  destruct (lex3 (rk x) (rk y)) eqn:E; try reflexivity;
    (assert (c_le x y = true); [|congruence]);
    apply c_le_spec; repeat split; auto; congruence.
Qed.

Lemma c_lt_not_le (x y : double) : c_lt x y = true -> c_le y x = false.
Proof.
  rewrite c_lt_spec. intros (Hx & Hy & Hxy).
  destruct (c_le y x) eqn:E; [|reflexivity].
  apply c_le_spec in E. destruct E as (_ & _ & E).
  rewrite lex3_antisym, Hxy in E. now elim E.
Qed.

Lemma c_le_num_l (x y : double) : c_le x y = true -> is_num x = true.
Proof. rewrite c_le_spec. tauto. Qed.

Lemma c_le_num_r (x y : double) : c_le x y = true -> is_num y = true.
Proof. rewrite c_le_spec. tauto. Qed.

Lemma c_lt_num_l (x y : double) : c_lt x y = true -> is_num x = true.
Proof. rewrite c_lt_spec. tauto. Qed.

Lemma c_lt_num_r (x y : double) : c_lt x y = true -> is_num y = true.
Proof. rewrite c_lt_spec. tauto. Qed.

(** An order test against a NaN fails. *)
Lemma c_le_nan_l (x y : double) : is_num x = false -> c_le x y = false.
Proof.
  intros H. destruct (c_le x y) eqn:E; [|reflexivity].
  apply c_le_num_l in E. congruence.
Qed.

Lemma c_lt_nan_r (x y : double) : is_num y = false -> c_lt x y = false.
Proof.
  intros H. destruct (c_lt x y) eqn:E; [|reflexivity].
  apply c_lt_num_r in E. congruence.
Qed.

Lemma negb_c_le (x y : double) :
  is_num x = true -> is_num y = true -> negb (c_le x y) = c_gt x y.
Proof.
  intros Hx Hy. unfold c_gt. fold (c_lt y x).
  destruct (c_le x y) eqn:E; simpl.
  - destruct (c_lt y x) eqn:F; [|reflexivity].
    apply c_lt_not_le in F. congruence.
  - symmetry. now apply c_le_false_lt.
Qed.

Lemma negb_c_gt (x y : double) :
  is_num x = true -> is_num y = true -> negb (c_gt x y) = c_le x y.
Proof.
  intros Hx Hy. rewrite <- (negb_c_le x y Hx Hy). now rewrite negb_involutive.
Qed.

Lemma c_eq_spec (x y : double) :
  c_eq x y = true <->
  is_num x = true /\ is_num y = true /\ lex3 (rk x) (rk y) = Eq.
Proof.
  unfold c_eq, rk. rewrite eqb_spec, !is_num_Prim2SF. unfold SFeqb.
  destruct (sf_is_nan (Prim2SF x)) eqn:Ex.
  { rewrite SFcompare_nan by auto. intuition congruence. }
  destruct (sf_is_nan (Prim2SF y)) eqn:Ey.
  { rewrite SFcompare_nan by auto. intuition congruence. }
  rewrite (SFcompare_rank _ _ Ex Ey).
  destruct (lex3 _ _); intuition congruence.
Qed.

(** What is above a number is not equal to it. *)
Lemma c_lt_not_eq (x y : double) : c_lt x y = true -> c_eq y x = false.
Proof.
  rewrite c_lt_spec. intros (Hx & Hy & Hxy).
  destruct (c_eq y x) eqn:E; [|reflexivity].
  apply c_eq_spec in E. destruct E as (_ & _ & E).
  rewrite lex3_antisym, Hxy in E. discriminate E.
Qed.

(** A finite double: a zero, or a normal or subnormal number. *)
Definition sf_finite (x : spec_float) : bool :=
  match x with
  | S754_zero _ | S754_finite _ _ _ => true
  | S754_infinity _ | S754_nan => false
  end.

Definition is_finite (x : double) : bool := sf_finite (Prim2SF x).

Lemma c_eq_zero_Prim2SF (x : double) :
  c_eq x 0%float = true -> exists s, Prim2SF x = S754_zero s.
Proof.
  unfold c_eq. rewrite eqb_spec.
  change (Prim2SF 0%float) with (S754_zero false).
  destruct (Prim2SF x) as [s|s| |s m e]; unfold SFeqb; simpl.
  - intros _. now exists s.
  - destruct s; discriminate.
  - discriminate.
  - destruct s; discriminate.
Qed.

(** The product of a finite double and a zero is a zero. *)
Lemma mul_finite_zero (v x : double) :
  is_finite v = true -> c_eq x 0%float = true ->
  c_eq (v * x)%float 0%float = true.
Proof.
  intros Hv Hx. destruct (c_eq_zero_Prim2SF x Hx) as [s Hs].
  unfold c_eq. rewrite eqb_spec, mul_spec, Hs.
  change (Prim2SF 0%float) with (S754_zero false).
  unfold is_finite in Hv.
  destruct (Prim2SF v) as [sv|sv| |sv mv ev]; try discriminate; reflexivity.
Qed.

(** The product of an infinity and a zero is a NaN. *)
Lemma mul_infinity_zero (x : double) :
  c_eq x 0%float = true ->
  is_nan (infinity * x)%float = true
  /\ c_eq (infinity * x)%float 0%float = false.
Proof.
  intros Hx. destruct (c_eq_zero_Prim2SF x Hx) as [s Hs].
  assert (E : (infinity * x)%float = nan).
  { apply Prim2SF_inj. rewrite mul_spec, Hs. reflexivity. }
  rewrite E. split; reflexivity.
Qed.

Lemma is_num_zero : is_num 0%float = true.
Proof. reflexivity. Qed.

(** *** Strict steps in a chain of comparisons *)

Lemma lex3_lt_le_trans a b c :
  lex3 a b = Lt -> lex3 b c <> Gt -> lex3 a c = Lt.
Proof.
  destruct a as [[a1 a2] a3], b as [[b1 b2] b3], c as [[c1 c2] c3].
  unfold lex3.
  destruct (Z.compare_spec a1 b1), (Z.compare_spec b1 c1),
    (Z.compare_spec a1 c1); try lia; try congruence;
  destruct (Z.compare_spec a2 b2), (Z.compare_spec b2 c2),
    (Z.compare_spec a2 c2); try lia; try congruence;
  destruct (Z.compare_spec a3 b3), (Z.compare_spec b3 c3),
    (Z.compare_spec a3 c3); try lia; congruence.
Qed.

Lemma lex3_le_lt_trans a b c :
  lex3 a b <> Gt -> lex3 b c = Lt -> lex3 a c = Lt.
Proof.
  destruct a as [[a1 a2] a3], b as [[b1 b2] b3], c as [[c1 c2] c3].
  unfold lex3.
  destruct (Z.compare_spec a1 b1), (Z.compare_spec b1 c1),
    (Z.compare_spec a1 c1); try lia; try congruence;
  destruct (Z.compare_spec a2 b2), (Z.compare_spec b2 c2),
    (Z.compare_spec a2 c2); try lia; try congruence;
  destruct (Z.compare_spec a3 b3), (Z.compare_spec b3 c3),
    (Z.compare_spec a3 c3); try lia; congruence.
Qed.

Lemma c_lt_le_trans (x y z : double) :
  c_lt x y = true -> c_le y z = true -> c_lt x z = true.
Proof.
  rewrite !c_lt_spec, c_le_spec. intros (Hx & Hy & Hxy) (_ & Hz & Hyz).
  repeat split; auto. eapply lex3_lt_le_trans; eauto.
Qed.

Lemma c_le_lt_trans (x y z : double) :
  c_le x y = true -> c_lt y z = true -> c_lt x z = true.
Proof.
  rewrite !c_lt_spec, c_le_spec. intros (Hx & Hy & Hxy) (_ & Hz & Hyz).
  repeat split; auto. eapply lex3_le_lt_trans; eauto.
Qed.

Lemma c_lt_trans (x y z : double) :
  c_lt x y = true -> c_lt y z = true -> c_lt x z = true.
Proof.
  intros Hxy Hyz. apply c_lt_le_trans with y; [assumption|].
  now apply c_lt_le.
Qed.

(** *** Signs *)

(** A double that is not below zero: a NaN, a zero of either sign, or a
    positive number. These are the doubles [x] of which the test [x < 0] is
    false. *)
Definition sf_not_negative (x : spec_float) : bool :=
  match x with
  | S754_nan | S754_zero _ => true
  | S754_infinity s | S754_finite s _ _ => negb s
  end.

Definition not_negative (x : double) : bool := negb (c_lt x 0%float).

Lemma not_negative_Prim2SF (x : double) :
  not_negative x = sf_not_negative (Prim2SF x).
Proof.
  unfold not_negative, c_lt. rewrite ltb_spec.
  change (Prim2SF 0%float) with (S754_zero false).
  destruct (Prim2SF x) as [s|s| |s m e]; try reflexivity;
    destruct s; reflexivity.
Qed.

(** Rounding keeps the sign it is given. *)
Lemma binary_round_aux_not_negative (m e : Z) (l : location) :
  sf_not_negative (binary_round_aux prec emax false m e l) = true.
Proof.
  unfold binary_round_aux.
  destruct (shr_fexp prec emax m e l) as [mrs' e'].
  destruct (shr_fexp prec emax _ e' loc_Exact) as [mrs'' e''].
  destruct (shr_m mrs''); [reflexivity| |reflexivity].
  destruct (e'' <=? emax - prec)%Z; reflexivity.
Qed.

Lemma SFmul_not_negative (x y : spec_float) :
  sf_not_negative x = true -> sf_not_negative y = true ->
  sf_not_negative (SFmul prec emax x y) = true.
Proof.
  destruct x as [sx|sx| |sx mx ex], y as [sy|sy| |sy my ey];
    simpl; intros Hx Hy; try reflexivity;
    try (apply negb_true_iff in Hx; subst sx);
    try (apply negb_true_iff in Hy; subst sy);
    try reflexivity.
  apply binary_round_aux_not_negative.
Qed.

Lemma SFmul_self_not_negative (x : spec_float) :
  sf_not_negative (SFmul prec emax x x) = true.
Proof.
  destruct x as [s|s| |s m e]; simpl; try reflexivity.
  - now destruct s.
  - rewrite xorb_nilpotent. apply binary_round_aux_not_negative.
Qed.

Lemma SFadd_not_negative (x y : spec_float) :
  sf_not_negative x = true -> sf_not_negative y = true ->
  sf_not_negative (SFadd prec emax x y) = true.
Proof.
  destruct x as [sx|sx| |sx mx ex], y as [sy|sy| |sy my ey];
    simpl; intros Hx Hy; try reflexivity;
    try (apply negb_true_iff in Hx; subst sx);
    try (apply negb_true_iff in Hy; subst sy);
    try reflexivity;
    try (destruct sx; reflexivity); try (destruct sy; reflexivity);
    try (destruct sx, sy; reflexivity).
  unfold cond_Zopp, binary_normalize, binary_round.
  cbn [Z.add].
  destruct (shl_align _ _ _) as [mz ez].
  apply binary_round_aux_not_negative.
Qed.

Lemma mul_not_negative (x y : double) :
  not_negative x = true -> not_negative y = true ->
  not_negative (x * y)%float = true.
Proof.
  rewrite !not_negative_Prim2SF, mul_spec. apply SFmul_not_negative.
Qed.

Lemma add_not_negative (x y : double) :
  not_negative x = true -> not_negative y = true ->
  not_negative (x + y)%float = true.
Proof.
  rewrite !not_negative_Prim2SF, add_spec. apply SFadd_not_negative.
Qed.

Lemma sq_not_negative (x : double) : not_negative (sq x) = true.
Proof.
  unfold sq. rewrite not_negative_Prim2SF, mul_spec.
  apply SFmul_self_not_negative.
Qed.

(** *** Differences *)

(** A finite double minus itself is the positive zero. *)
Lemma sub_self_zero (x : double) :
  is_finite x = true -> (x - x)%float = 0%float.
Proof.
  intros H. apply Prim2SF_inj. rewrite sub_spec.
  change (Prim2SF 0%float) with (S754_zero false).
  unfold is_finite in H.
  destruct (Prim2SF x) as [s|s| |s m e]; try discriminate.
  - destruct s; reflexivity.
  - unfold SF64sub, SFsub. rewrite Z.sub_diag. reflexivity.
Qed.

(** Taking the positive zero away changes nothing. *)
Lemma sub_zero_r (x : double) : (x - 0)%float = x.
Proof.
  apply Prim2SF_inj. rewrite sub_spec.
  change (Prim2SF 0%float) with (S754_zero false).
  destruct (Prim2SF x) as [s|s| |s m e]; try reflexivity.
  destruct s; reflexivity.
Qed.

(** *** The sign of a difference *)

(** The number of binary digits of a mantissa. *)
Lemma digits2_pos_lower (p : positive) :
  (2 ^ (Zpos (digits2_pos p) - 1) <= Zpos p)%Z.
Proof.
  induction p as [p IH|p IH|]; cbn [digits2_pos]; [| |reflexivity];
    rewrite Pos2Z.inj_succ;
    replace (Z.succ (Zpos (digits2_pos p)) - 1)%Z
      with (Z.succ (Zpos (digits2_pos p) - 1))%Z by lia;
    rewrite Z.pow_succ_r by lia; lia.
Qed.

Lemma digits2_pos_upper (p : positive) :
  (Zpos p < 2 ^ Zpos (digits2_pos p))%Z.
Proof.
  induction p as [p IH|p IH|]; cbn [digits2_pos]; [| |reflexivity];
    rewrite Pos2Z.inj_succ, Z.pow_succ_r by lia; lia.
Qed.

(** Shifting a mantissa to the right. *)
Lemma shr_1_m (mrs : shr_record) :
  (0 <= shr_m mrs)%Z -> shr_m (shr_1 mrs) = (shr_m mrs / 2)%Z.
Proof.
  destruct mrs as [m r s]. cbn [shr_m]. intros H.
  destruct m as [|p|p]; [reflexivity| |lia].
  destruct p as [p|p|]; cbn [shr_1 shr_m].
  - apply Z.div_unique with 1%Z; lia.
  - apply Z.div_unique with 0%Z; lia.
  - reflexivity.
Qed.

Lemma iter_pos_shr_m (p : positive) :
  forall mrs, (0 <= shr_m mrs)%Z ->
    shr_m (iter_pos shr_1 p mrs) = (shr_m mrs / 2 ^ Zpos p)%Z.
Proof.
  induction p as [p IH|p IH|]; intros mrs H; cbn [iter_pos].
  - assert (H1 : (0 <= shr_m (shr_1 mrs))%Z)
      by (rewrite shr_1_m by assumption; apply Z.div_pos; lia).
    assert (H2 : (0 <= shr_m (iter_pos shr_1 p (shr_1 mrs)))%Z)
      by (rewrite IH by assumption; apply Z.div_pos; lia).
    rewrite IH, IH, shr_1_m by assumption.
    rewrite !Z.div_div by lia. f_equal.
    rewrite (Pos2Z.inj_xI p).
    replace (2 * Zpos p + 1)%Z with (1 + Zpos p + Zpos p)%Z by lia.
    rewrite !Z.pow_add_r by lia. change (2 ^ 1)%Z with 2%Z. ring.
  - assert (H2 : (0 <= shr_m (iter_pos shr_1 p mrs))%Z)
      by (rewrite IH by assumption; apply Z.div_pos; lia).
    rewrite IH, IH by assumption.
    rewrite Z.div_div by lia. f_equal.
    rewrite (Pos2Z.inj_xO p).
    replace (2 * Zpos p)%Z with (Zpos p + Zpos p)%Z by lia.
    rewrite Z.pow_add_r by lia. reflexivity.
  - rewrite shr_1_m by assumption. reflexivity.
Qed.

(** Rounding a positive mantissa whose exponent is not below the least one
    gives a positive mantissa: nothing underflows to zero. *)
Lemma shr_fexp_positive (m e : Z) (l : location) :
  (0 < m)%Z -> (emin <= e)%Z ->
  (0 < shr_m (fst (shr_fexp prec emax m e l)))%Z
  /\ (emin <= snd (shr_fexp prec emax m e l))%Z.
Proof.
  intros Hm He. unfold shr_fexp, shr.
  destruct m as [|p|p]; try lia. cbn [Zdigits2].
  assert (Hrec : shr_m (shr_record_of_loc (Zpos p) l) = Zpos p)
    by (destruct l as [|[]]; reflexivity).
  destruct (fexp prec emax (Zpos (digits2_pos p) + e) - e)%Z as [|q|q] eqn:En;
    cbn [fst snd]; rewrite ?Hrec; try (split; lia).
  rewrite iter_pos_shr_m by (rewrite Hrec; lia). rewrite Hrec.
  split; [|lia].
  apply Z.div_str_pos. split; [apply Z.pow_pos_nonneg; lia|].
  apply Z.le_trans with (2 ^ (Zpos (digits2_pos p) - 1))%Z;
    [|apply digits2_pos_lower].
  apply Z.pow_le_mono_r; [lia|].
  unfold fexp, SpecFloat.emin in *. change prec with 53%Z in *. lia.
Qed.

(** The doubles above zero. *)
Definition sf_positive (x : spec_float) : bool :=
  match x with
  | S754_infinity false | S754_finite false _ _ => true
  | _ => false
  end.

Lemma sf_positive_ltb (x : spec_float) :
  SFltb (S754_zero false) x = sf_positive x.
Proof. destruct x as [s|s| |s m e]; try reflexivity; destruct s; reflexivity. Qed.

Lemma binary_round_aux_positive (m e : Z) (l : location) :
  (0 < m)%Z -> (emin <= e)%Z ->
  sf_positive (binary_round_aux prec emax false m e l) = true.
Proof.
  intros Hm He. unfold binary_round_aux.
  destruct (shr_fexp_positive m e l Hm He) as [Hm1 He1].
  destruct (shr_fexp prec emax m e l) as [mrs' e']. cbn [fst snd] in *.
  set (m2 := round_nearest_even (shr_m mrs') (loc_of_shr_record mrs')).
  assert (Hm2 : (0 < m2)%Z).
  { subst m2. unfold round_nearest_even.
    destruct (loc_of_shr_record mrs') as [|[]];
      try destruct (Z.even (shr_m mrs')); lia. }
  destruct (shr_fexp_positive m2 e' loc_Exact Hm2 He1) as [Hm3 _].
  destruct (shr_fexp prec emax m2 e' loc_Exact) as [mrs'' e''].
  cbn [fst] in Hm3.
  destruct (shr_m mrs''); try lia.
  destruct (e'' <=? emax - prec)%Z; reflexivity.
Qed.

Lemma binary_round_aux_negative (m e : Z) (l : location) :
  sf_positive (binary_round_aux prec emax true m e l) = false.
Proof.
  unfold binary_round_aux.
  destruct (shr_fexp prec emax m e l) as [mrs' e'].
  destruct (shr_fexp prec emax _ e' loc_Exact) as [mrs'' e''].
  destruct (shr_m mrs''); [reflexivity| |reflexivity].
  destruct (e'' <=? emax - prec)%Z; reflexivity.
Qed.

(** The sign of a normalized integer is the sign of the integer. *)
Lemma binary_normalize_positive (d e : Z) :
  (emin <= e)%Z ->
  sf_positive (binary_normalize prec emax d e false) = (0 <? d)%Z.
Proof.
  intros He. destruct d as [|p|p]; cbn [binary_normalize]; [reflexivity| |].
  - unfold binary_round, shl_align.
    destruct (fexp prec emax (Zpos (digits2_pos p) + e) - e)%Z eqn:En;
      (rewrite binary_round_aux_positive; [reflexivity|lia|]);
      try assumption.
    unfold fexp. lia.
  - unfold binary_round.
    destruct (shl_align _ _ _) as [mz ez].
    now rewrite binary_round_aux_negative.
Qed.

(** What a valid finite double tells of its mantissa and exponent. *)
Lemma valid_finite (s : bool) (m : positive) (e : Z) :
  valid_binary (S754_finite s m e) = true ->
  (emin <= e)%Z /\ (Zpos m < 2 ^ prec)%Z /\
  ((emin < e)%Z -> (2 ^ (prec - 1) <= Zpos m)%Z).
Proof.
  cbn [valid_binary]. unfold bounded, canonical_mantissa. intros H.
  apply andb_true_iff in H. destruct H as [H _]. apply Z.eqb_eq in H.
  pose proof (digits2_pos_lower m) as Hlo.
  pose proof (digits2_pos_upper m) as Hup.
  unfold fexp in H. repeat split.
  - lia.
  - apply Z.lt_le_trans with (2 ^ Zpos (digits2_pos m))%Z; [assumption|].
    apply Z.pow_le_mono_r; lia.
  - intros He.
    replace (prec - 1)%Z with (Zpos (digits2_pos m) - 1)%Z by lia.
    assumption.
Qed.

(** The mantissa of a double, aligned on a lower exponent. *)
Lemma shl_align_fst (m : positive) (e e' : Z) :
  (e' <= e)%Z ->
  Zpos (fst (shl_align m e e')) = (Zpos m * 2 ^ (e - e'))%Z.
Proof.
  intros H. unfold shl_align.
  destruct (e' - e)%Z as [|d|d] eqn:E; cbn [fst]; try lia.
  - replace (e - e')%Z with 0%Z by lia. lia.
  - replace (e - e')%Z with (Zpos d) by lia.
    clear E H. revert m.
    induction d as [|d IH] using Pos.peano_ind; intros m.
    + cbn [Pos.iter]. change (2 ^ 1)%Z with 2%Z. lia.
    + rewrite Pos.iter_succ, Pos2Z.inj_succ, Z.pow_succ_r by lia.
      rewrite (Pos2Z.inj_xO (Pos.iter xO m d)), IH. ring.
Qed.

(** The difference of two finite doubles is above zero exactly when the
    first is above the second: a subtraction may round, but it does not
    lose the sign. *)
Lemma SFsub_finite_positive (sx sy : bool) (mx my : positive) (ex ey : Z) :
  valid_binary (S754_finite sx mx ex) = true ->
  valid_binary (S754_finite sy my ey) = true ->
  sf_positive (SFsub prec emax (S754_finite sx mx ex) (S754_finite sy my ey))
  = SFltb (S754_finite sy my ey) (S754_finite sx mx ex).
Proof.
  intros Hx Hy.
  destruct (valid_finite _ _ _ Hx) as (Hex & Hmx & Hnx).
  destruct (valid_finite _ _ _ Hy) as (Hey & Hmy & Hny).
  change (2 ^ prec)%Z with 9007199254740992%Z in *.
  change (2 ^ (prec - 1))%Z with 4503599627370496%Z in *.
  cbn [SFsub]. rewrite binary_normalize_positive by lia.
  rewrite !shl_align_fst by lia.
  assert (Hpow : forall d, (0 < d)%Z -> (2 <= 2 ^ d)%Z).
  { intros d Hd. change 2%Z with (2 ^ 1)%Z at 1.
    apply Z.pow_le_mono_r; lia. }
  unfold SFltb, SFcompare.
  change (Pos.compare_cont Eq my mx) with (Pos.compare my mx).
  destruct (Z.compare_spec ey ex) as [E|E|E].
  - subst ey. rewrite Z.min_id, Z.sub_diag.
    change (2 ^ 0)%Z with 1%Z.
    destruct (Pos.compare_spec my mx) as [F|F|F];
      destruct sx, sy; cbn [cond_Zopp CompOpp];
      match goal with
      | |- (0 <? ?d)%Z = _ =>
          destruct (Z.ltb_spec 0 d); try reflexivity; exfalso; lia
      end.
  - rewrite (Z.min_r ex ey) by lia. rewrite Z.sub_diag.
    change (2 ^ 0)%Z with 1%Z.
    pose proof (Hpow (ex - ey)%Z ltac:(lia)) as Hp.
    specialize (Hnx ltac:(lia)).
    destruct sx, sy; cbn [cond_Zopp];
      match goal with
      | |- (0 <? ?d)%Z = _ =>
          destruct (Z.ltb_spec 0 d); try reflexivity; exfalso; nia
      end.
  - rewrite (Z.min_l ex ey) by lia. rewrite Z.sub_diag.
    change (2 ^ 0)%Z with 1%Z.
    pose proof (Hpow (ey - ex)%Z ltac:(lia)) as Hp.
    specialize (Hny ltac:(lia)).
    destruct sx, sy; cbn [cond_Zopp];
      match goal with
      | |- (0 <? ?d)%Z = _ =>
          destruct (Z.ltb_spec 0 d); try reflexivity; exfalso; nia
      end.
Qed.

(** For all doubles, [a - b > 0] exactly when [a > b]. *)
Lemma sub_positive (a b : double) : c_lt 0%float (a - b)%float = c_lt b a.
Proof.
  unfold c_lt. rewrite !ltb_spec, sub_spec.
  change (Prim2SF 0%float) with (S754_zero false).
  rewrite sf_positive_ltb.
  pose proof (Prim2SF_valid a) as Ha. pose proof (Prim2SF_valid b) as Hb.
  destruct (Prim2SF a) as [sa|sa| |sa ma ea], (Prim2SF b) as [sb|sb| |sb mb eb];
    try (now apply SFsub_finite_positive);
    try reflexivity;
    try (destruct sa; reflexivity); try (destruct sb; reflexivity);
    destruct sa, sb; reflexivity.
Qed.

(** *** The error of an addition *)

(** The value of a finite double, counted in units of [2^emin], the least
    positive double: an integer. *)
Definition sf_units (x : spec_float) : Z :=
  match x with
  | S754_finite s m e => cond_Zopp s (Zpos m * 2 ^ (e - emin))
  | _ => 0
  end.

Definition units (x : double) : Z := sf_units (Prim2SF x).

Example units_of_some_doubles :
  units 0x1p-1074%float = 1%Z /\ units 1.0%float = (2 ^ 1074)%Z /\
  units 1.5%float = (3 * 2 ^ 1073)%Z /\ units (-2.0)%float = (- 2 ^ 1075)%Z /\
  units 0%float = 0%Z.
Proof. repeat split; vm_compute; reflexivity. Qed.

(** [iter_pos] repeats a step: an invariant indexed by the number of steps
    goes through. *)
Lemma iter_pos_invariant (A : Type) (f : A -> A) (I : Z -> A -> Prop) :
  (forall k x, (0 <= k)%Z -> I k x -> I (k + 1)%Z (f x)) ->
  forall p k x, (0 <= k)%Z -> I k x -> I (k + Zpos p)%Z (iter_pos f p x).
Proof.
  intros Hstep. induction p as [p IH|p IH|]; intros k x Hk H; cbn [iter_pos].
  - replace (k + Zpos p~1)%Z with (k + 1 + Zpos p + Zpos p)%Z by lia.
    apply IH; [lia|]. apply IH; [lia|]. now apply Hstep.
  - replace (k + Zpos p~0)%Z with (k + Zpos p + Zpos p)%Z by lia.
    apply IH; [lia|]. now apply IH.
  - now apply Hstep.
Qed.

(** What a shift record holds of the number [M] it comes from, after [k]
    shifts: the bits of [M] above the [k] lowest in [shr_m], the bit below
    them in [shr_r], and in [shr_s] whether any bit below that is set. *)
Definition shr_holds (M : Z) (k : Z) (mrs : shr_record) : Prop :=
  (0 <= shr_m mrs)%Z /\
  exists t : Z,
    (2 * M = (2 * shr_m mrs + Z.b2z (shr_r mrs)) * 2 ^ k + t)%Z /\
    (0 <= t < 2 ^ k)%Z /\
    shr_s mrs = negb (t =? 0)%Z.

Lemma shr_1_holds (M k : Z) (mrs : shr_record) :
  (0 <= k)%Z -> shr_holds M k mrs -> shr_holds M (k + 1) (shr_1 mrs).
Proof.
  intros Hk (Hm & t & HM & Ht & Hs). unfold shr_holds.
  destruct mrs as [m r s]. cbn [shr_m shr_r shr_s] in *.
  rewrite Z.pow_add_r by lia. change (2 ^ 1)%Z with 2%Z.
  assert (Hpow : (0 < 2 ^ k)%Z) by (apply Z.pow_pos_nonneg; lia).
  destruct m as [|p|p]; [| |lia].
  - cbn [shr_1 shr_m shr_r shr_s Z.b2z]. split; [lia|].
    exists (Z.b2z r * 2 ^ k + t)%Z. split; [lia|]. split.
    + destruct r; cbn [Z.b2z]; lia.
    + subst s. destruct r; cbn [Z.b2z orb].
      * symmetry. apply negb_true_iff. apply Z.eqb_neq. lia.
      * rewrite Z.mul_0_l, Z.add_0_l. reflexivity.
  - destruct p as [p|p|]; cbn [shr_1 shr_m shr_r shr_s Z.b2z];
      (split; [lia|]);
      exists (Z.b2z r * 2 ^ k + t)%Z;
      (split; [lia|]); (split; [destruct r; cbn [Z.b2z]; lia|]);
      subst s; destruct r; cbn [Z.b2z orb];
      try (symmetry; apply negb_true_iff; apply Z.eqb_neq; lia);
      rewrite Z.mul_0_l, Z.add_0_l; reflexivity.
Qed.

Lemma iter_shr_holds (M : Z) (p : positive) (mrs : shr_record) :
  shr_holds M 0 mrs -> shr_holds M (Zpos p) (iter_pos shr_1 p mrs).
Proof.
  intros H.
  apply (iter_pos_invariant shr_record shr_1 (shr_holds M)
           (fun k x Hk => shr_1_holds M k x Hk) p 0%Z mrs); [lia|exact H].
Qed.

(** Rounding to nearest what a record holds: the mantissa got, scaled
    back, is within half a unit of the last place of [M]. *)
Lemma round_nearest_even_error (M k : Z) (mrs : shr_record) :
  (0 <= k)%Z -> shr_holds M k mrs ->
  let m2 := round_nearest_even (shr_m mrs) (loc_of_shr_record mrs) in
  (shr_m mrs <= m2 <= shr_m mrs + 1)%Z /\
  (Z.abs (2 * (m2 * 2 ^ k) - 2 * M) <= 2 ^ k)%Z.
Proof.
  intros Hk (Hm & t & HM & Ht & Hs) m2. subst m2.
  destruct mrs as [m r s]. cbn [shr_m shr_r shr_s] in *.
  assert (Hpow : (0 < 2 ^ k)%Z) by (apply Z.pow_pos_nonneg; lia).
  assert (Hts : s = false -> t = 0%Z).
  { intros ->. symmetry in Hs. apply negb_false_iff in Hs.
    now apply Z.eqb_eq in Hs. }
  destruct r, s; cbn [loc_of_shr_record round_nearest_even Z.b2z] in *.
  - split; [lia|]. nia.
  - specialize (Hts eq_refl). subst t.
    destruct (Z.even m); split; try lia; nia.
  - split; [lia|]. nia.
  - specialize (Hts eq_refl). subst t. split; [lia|]. nia.
Qed.

Lemma shr_holds_start (M : Z) :
  (0 <= M)%Z -> shr_holds M 0 (Build_shr_record M false false).
Proof.
  intros H. split; [exact H|]. exists 0%Z. cbn. repeat split; lia.
Qed.

(** The bounds of a mantissa from the number of its digits. *)
Lemma digits2_pos_bounds (p : positive) :
  (2 ^ (Zpos (digits2_pos p) - 1) <= Zpos p < 2 ^ Zpos (digits2_pos p))%Z.
Proof. split; [apply digits2_pos_lower|apply digits2_pos_upper]. Qed.

Lemma pow2_lt_inv (a b : Z) : (0 <= b)%Z -> (2 ^ a < 2 ^ b)%Z -> (a < b)%Z.
Proof.
  intros Hb H. destruct (Z.lt_ge_cases a b) as [|Hge]; [assumption|].
  exfalso. apply (Z.pow_le_mono_r 2) in Hge; lia.
Qed.

(** Rounding a positive integer at an exponent to the format: what comes
    out, when it is finite, is within [2^-prec] of it, relatively. The
    values are counted in units of [2^emin]. *)
Lemma binary_round_aux_error (mz : positive) (ez : Z) :
  (emin <= ez)%Z ->
  match binary_round_aux prec emax false (Zpos mz) ez loc_Exact with
  | S754_finite s m' e' =>
      s = false /\ (emin <= e')%Z /\
      (Z.abs (Zpos m' * 2 ^ (e' - emin) - Zpos mz * 2 ^ (ez - emin)) * 2 ^ prec
       <= Zpos mz * 2 ^ (ez - emin))%Z
  | S754_infinity s => s = false
  | _ => False
  end.
Proof.
  intros He. unfold binary_round_aux, shr_fexp, shr. cbn [Zdigits2].
  pose proof (digits2_pos_bounds mz) as Hd.
  set (d := Zpos (digits2_pos mz)) in *.
  assert (HP : (0 < 2 ^ (ez - emin))%Z) by (apply Z.pow_pos_nonneg; lia).
  destruct (fexp prec emax (d + ez) - ez)%Z as [|q|q] eqn:En.
  - cbn [shr_record_of_loc loc_of_shr_record round_nearest_even shr_m
         Zdigits2].
    fold d. rewrite En. cbn [shr_m].
    destruct (ez <=? emax - prec)%Z; [|reflexivity].
    split; [reflexivity|]. split; [exact He|].
    rewrite Z.sub_diag. change (Z.abs 0) with 0%Z. rewrite Z.mul_0_l.
    apply Z.mul_nonneg_nonneg; lia.
  - cbn [shr_record_of_loc].
    pose proof (iter_shr_holds (Zpos mz) q _ (shr_holds_start (Zpos mz)
                  ltac:(lia))) as Hh.
    set (mrs' := iter_pos shr_1 q (Build_shr_record (Zpos mz) false false))
      in *.
    destruct (round_nearest_even_error (Zpos mz) (Zpos q) mrs' ltac:(lia) Hh)
      as [Hm2 Herr].
    set (m2 := round_nearest_even (shr_m mrs') (loc_of_shr_record mrs')) in *.
    destruct Hh as (Hm1 & t & HM & Ht & _).
    (* the shift is by the digits beyond the precision *)
    assert (Hq : (Zpos q = d - prec)%Z).
    { unfold fexp in En. lia. }
    set (Q := (2 ^ Zpos q)%Z) in *.
    assert (HQ : (0 < Q)%Z) by (apply Z.pow_pos_nonneg; lia).
    assert (HdQ : (2 ^ d = 2 ^ prec * Q)%Z).
    { unfold Q. rewrite <- Z.pow_add_r by (unfold prec; lia).
      f_equal. lia. }
    assert (HdQ1 : (2 ^ (d - 1) = 2 ^ (prec - 1) * Q)%Z).
    { unfold Q. rewrite <- Z.pow_add_r by (unfold prec; lia).
      f_equal. lia. }
    change (2 ^ prec)%Z with 9007199254740992%Z in *.
    change (2 ^ (prec - 1))%Z with 4503599627370496%Z in *.
    assert (Hr : (0 <= Z.b2z (shr_r mrs') <= 1)%Z)
      by (destruct (shr_r mrs'); cbn; lia).
    set (X := (2 * shr_m mrs' + Z.b2z (shr_r mrs'))%Z) in *.
    assert (HXlo : (2 * 4503599627370496 <= X)%Z).
    { destruct (Z.le_gt_cases (2 * 4503599627370496) X) as [|Hc];
        [assumption|].
      assert (X * Q <= (2 * 4503599627370496 - 1) * Q)%Z
        by (apply Z.mul_le_mono_nonneg_r; lia).
      lia. }
    assert (HXhi : (X < 2 * 9007199254740992)%Z).
    { destruct (Z.lt_ge_cases X (2 * 9007199254740992)) as [|Hc];
        [assumption|].
      assert ((2 * 9007199254740992) * Q <= X * Q)%Z
        by (apply Z.mul_le_mono_nonneg_r; lia).
      lia. }
    assert (Hlo : (4503599627370496 <= shr_m mrs')%Z) by (unfold X in *; lia).
    assert (Hhi : (shr_m mrs' < 9007199254740992)%Z) by (unfold X in *; lia).
    destruct m2 as [|p2|p2] eqn:Em2; [lia| |lia].
    cbn [Zdigits2].
    pose proof (digits2_pos_bounds p2) as Hd2.
    set (d2 := Zpos (digits2_pos p2)) in *.
    assert (Hd2lo : (prec <= d2)%Z).
    { assert (2 ^ (prec - 1) < 2 ^ d2)%Z
        by (change (2 ^ (prec - 1))%Z with 4503599627370496%Z; lia).
      apply pow2_lt_inv in H; [lia|unfold d2; lia]. }
    assert (Hd2hi : (d2 <= prec + 1)%Z).
    { assert (2 ^ (d2 - 1) < 2 ^ (prec + 1))%Z
        by (change (2 ^ (prec + 1))%Z with 18014398509481984%Z; lia).
      apply pow2_lt_inv in H; [lia|unfold prec; lia]. }
    assert (Hn2 : (fexp prec emax (d2 + (ez + Zpos q)) - (ez + Zpos q)
                   = d2 - prec)%Z).
    { unfold fexp. lia. }
    rewrite Hn2.
    (* the error, before the last normalization *)
    assert (Hround : (Z.abs (Zpos p2 * Q - Zpos mz) * 9007199254740992
                      <= Zpos mz)%Z).
    { assert (Z.abs (Zpos p2 * Q - Zpos mz) * 2 <= Q)%Z.
      { replace (2 * (Zpos p2 * Q) - 2 * Zpos mz)%Z
          with (2 * (Zpos p2 * Q - Zpos mz))%Z in Herr by ring.
        rewrite Z.abs_mul in Herr. cbn [Z.abs] in Herr. lia. }
      lia. }
    assert (Hscale : forall x : Z,
               (Z.abs (x * Q - Zpos mz) * 9007199254740992 <= Zpos mz)%Z ->
               (Z.abs (x * 2 ^ (ez + Zpos q - emin)
                       - Zpos mz * 2 ^ (ez - emin)) * 9007199254740992
                <= Zpos mz * 2 ^ (ez - emin))%Z).
    { intros x Hx.
      replace (ez + Zpos q - emin)%Z with (Zpos q + (ez - emin))%Z by lia.
      rewrite Z.pow_add_r by lia. fold Q.
      replace (x * (Q * 2 ^ (ez - emin)) - Zpos mz * 2 ^ (ez - emin))%Z
        with ((x * Q - Zpos mz) * 2 ^ (ez - emin))%Z by ring.
      rewrite Z.abs_mul, (Z.abs_eq (2 ^ (ez - emin))) by lia.
      replace (Z.abs (x * Q - Zpos mz) * 2 ^ (ez - emin) * 9007199254740992)%Z
        with (Z.abs (x * Q - Zpos mz) * 9007199254740992
              * 2 ^ (ez - emin))%Z by ring.
      apply Z.mul_le_mono_nonneg_r; lia. }
    destruct (Z.eq_dec d2 prec) as [E2|E2].
    + replace (d2 - prec)%Z with 0%Z by lia. cbn [shr_m].
      destruct (ez + Zpos q <=? emax - prec)%Z; [|reflexivity].
      split; [reflexivity|]. split; [lia|].
      now apply Hscale.
    + replace (d2 - prec)%Z with 1%Z by lia. cbn [iter_pos].
      assert (Ep2 : Zpos p2 = 9007199254740992%Z).
      { assert (2 ^ (d2 - 1) = 9007199254740992)%Z
          by (replace (d2 - 1)%Z with prec by lia; reflexivity).
        lia. }
      injection Ep2 as ->. cbn [shr_record_of_loc shr_1 shr_m].
      destruct (ez + Zpos q + 1 <=? emax - prec)%Z; [|reflexivity].
      split; [reflexivity|]. split; [lia|].
      replace (ez + Zpos q + 1 - emin)%Z with (1 + (ez + Zpos q - emin))%Z
        by lia.
      rewrite Z.pow_add_r by lia. change (2 ^ 1)%Z with 2%Z.
      rewrite Z.mul_assoc.
      change (4503599627370496 * 2)%Z with 9007199254740992%Z.
      now apply Hscale.
  - cbn [shr_record_of_loc loc_of_shr_record round_nearest_even shr_m
         Zdigits2].
    fold d. rewrite En. cbn [shr_m].
    destruct (ez <=? emax - prec)%Z; [|reflexivity].
    split; [reflexivity|]. split; [exact He|].
    rewrite Z.sub_diag. change (Z.abs 0) with 0%Z. rewrite Z.mul_0_l.
    apply Z.mul_nonneg_nonneg; lia.
Qed.

(** Aligning a mantissa on another exponent keeps the value. *)
Lemma shl_align_value (m : positive) (e e' : Z) :
  (emin <= e)%Z -> (emin <= e')%Z ->
  (emin <= snd (shl_align m e e'))%Z /\
  (Zpos (fst (shl_align m e e')) * 2 ^ (snd (shl_align m e e') - emin)
   = Zpos m * 2 ^ (e - emin))%Z.
Proof.
  intros He He'.
  destruct (Z.le_gt_cases e' e) as [Hle|Hgt].
  - rewrite shl_align_fst by exact Hle.
    assert (Hs : snd (shl_align m e e') = e').
    { unfold shl_align. destruct (e' - e)%Z eqn:E; cbn [snd]; lia. }
    rewrite Hs. split; [exact He'|].
    rewrite <- Z.mul_assoc, <- Z.pow_add_r by lia. do 2 f_equal. lia.
  - unfold shl_align. destruct (e' - e)%Z eqn:E; try lia.
    cbn [fst snd]. split; [exact He|reflexivity].
Qed.

Lemma binary_round_error (M : positive) (e : Z) :
  (emin <= e)%Z ->
  match binary_round prec emax false M e with
  | S754_finite s m' e' =>
      s = false /\
      (Z.abs (Zpos m' * 2 ^ (e' - emin) - Zpos M * 2 ^ (e - emin)) * 2 ^ prec
       <= Zpos M * 2 ^ (e - emin))%Z
  | S754_infinity s => s = false
  | _ => False
  end.
Proof.
  intros He. unfold binary_round.
  assert (Hf : (emin <= fexp prec emax (Zpos (digits2_pos M) + e))%Z)
    by (unfold fexp; lia).
  destruct (shl_align_value M e _ He Hf) as [Hez Hval].
  destruct (shl_align M e _) as [mz ez]. cbn [fst snd] in *.
  pose proof (binary_round_aux_error mz ez Hez) as H.
  destruct (binary_round_aux prec emax false (Zpos mz) ez loc_Exact)
    as [s|s| |s m' e']; try exact H.
  destruct H as (Hs & _ & H). split; [exact Hs|].
  now rewrite <- Hval.
Qed.

(** The sum of two doubles that are not negative, when it is finite, is
    within [2^-prec] of the sum of the two numbers, relatively. *)
Lemma SFadd_error (x y : spec_float) :
  valid_binary x = true -> valid_binary y = true ->
  sf_not_negative x = true -> sf_not_negative y = true ->
  sf_finite x = true -> sf_finite y = true ->
  sf_finite (SFadd prec emax x y) = true ->
  (Z.abs (sf_units (SFadd prec emax x y) - (sf_units x + sf_units y))
   * 2 ^ prec <= sf_units x + sf_units y)%Z.
Proof.
  intros Vx Vy Nx Ny Fx Fy Fz.
  destruct x as [sx|sx| |sx mx ex], y as [sy|sy| |sy my ey];
    try discriminate.
  - destruct sx, sy; cbn; lia.
  - cbn [sf_not_negative] in Ny. apply negb_true_iff in Ny. subst sy.
    cbn [SFadd sf_units cond_Zopp]. rewrite Z.add_0_l, Z.sub_diag.
    change (Z.abs 0) with 0%Z. rewrite Z.mul_0_l.
    apply Z.mul_nonneg_nonneg; [lia|]. apply Z.pow_nonneg. lia.
  - cbn [sf_not_negative] in Nx. apply negb_true_iff in Nx. subst sx.
    cbn [SFadd sf_units cond_Zopp]. rewrite Z.add_0_r, Z.sub_diag.
    change (Z.abs 0) with 0%Z. rewrite Z.mul_0_l.
    apply Z.mul_nonneg_nonneg; [lia|]. apply Z.pow_nonneg. lia.
  - cbn [sf_not_negative] in Nx, Ny.
    apply negb_true_iff in Nx, Ny. subst sx sy.
    destruct (valid_finite _ _ _ Vx) as (Hex & _).
    destruct (valid_finite _ _ _ Vy) as (Hey & _).
    cbn [SFadd cond_Zopp] in *.
    set (ez := Z.min ex ey) in *.
    assert (Hez : (emin <= ez)%Z) by (unfold ez; lia).
    pose proof (shl_align_fst mx ex ez ltac:(unfold ez; lia)) as Hx.
    pose proof (shl_align_fst my ey ez ltac:(unfold ez; lia)) as Hy.
    set (ax := fst (shl_align mx ex ez)) in *.
    set (ay := fst (shl_align my ey ez)) in *.
    change (Zpos ax + Zpos ay)%Z with (Zpos (ax + ay)) in *.
    cbn [binary_normalize] in *.
    pose proof (binary_round_error (ax + ay) ez Hez) as H.
    destruct (binary_round prec emax false (ax + ay) ez)
      as [s|s| |s m' e']; try discriminate; try contradiction.
    destruct H as (-> & H). cbn [sf_units cond_Zopp].
    assert (Hsum : (Zpos (ax + ay) * 2 ^ (ez - emin)
                    = Zpos mx * 2 ^ (ex - emin) + Zpos my * 2 ^ (ey - emin))%Z).
    { rewrite Pos2Z.inj_add, Hx, Hy, Z.mul_add_distr_r.
      rewrite <- !Z.mul_assoc, <- !Z.pow_add_r by (unfold ez; lia).
      f_equal; do 2 f_equal; lia. }
    now rewrite <- Hsum.
Qed.

Lemma not_negative_finite_cases (x : double) :
  not_negative x = true -> is_finite x = true ->
  sf_not_negative (Prim2SF x) = true /\ sf_finite (Prim2SF x) = true.
Proof.
  rewrite not_negative_Prim2SF. unfold is_finite. now split.
Qed.

Lemma add_units_error (x y : double) :
  not_negative x = true -> not_negative y = true ->
  is_finite x = true -> is_finite y = true ->
  is_finite (x + y)%float = true ->
  (Z.abs (units (x + y)%float - (units x + units y)) * 2 ^ prec
   <= units x + units y)%Z.
Proof.
  rewrite !not_negative_Prim2SF. unfold is_finite, units.
  rewrite add_spec. intros Nx Ny Fx Fy Fz.
  apply SFadd_error; try assumption; apply Prim2SF_valid.
Qed.

(** The value of a double that is not negative is not negative. *)
Lemma units_not_negative (x : double) :
  not_negative x = true -> (0 <= units x)%Z.
Proof.
  rewrite not_negative_Prim2SF. unfold units.
  destruct (Prim2SF x) as [s|s| |s m e];
    cbn [sf_units sf_not_negative]; try lia.
  intros H. apply negb_true_iff in H. subst s. cbn [cond_Zopp].
  apply Z.mul_nonneg_nonneg; [lia|]. apply Z.pow_nonneg. lia.
Qed.

(** A sum is finite only when both terms are. *)
Lemma add_finite_inv (x y : double) :
  is_finite (x + y)%float = true ->
  is_finite x = true /\ is_finite y = true.
Proof.
  unfold is_finite. rewrite add_spec.
  destruct (Prim2SF x) as [sx|sx| |sx mx ex], (Prim2SF y) as [sy|sy| |sy my ey];
    cbn; try (intros; split; congruence);
    destruct sx, sy; cbn; intros; split; congruence.
Qed.

(** *** A sum of doubles, term after term *)

(** One more term in a sum known up to [k] roundings: the bounds of the
    relative error go from the power [k] to the power [k + 1]. *)
Lemma rounding_step (b Ak Bk Ck E U U' t : Z) :
  (1 < b)%Z -> (0 < Ak <= Bk)%Z -> (Bk <= Ck)%Z ->
  (0 <= E)%Z -> (0 <= t)%Z ->
  (Ak * E <= Bk * U <= Ck * E)%Z ->
  (Z.abs (U' - (U + t)) * b <= U + t)%Z ->
  ((b - 1) * Ak * (E + t) <= b * Bk * U' <= (b + 1) * Ck * (E + t))%Z.
Proof.
  intros Hb HA HC HE Ht [Hlo Hhi] Herr.
  assert (HV : ((b - 1) * (U + t) <= b * U' <= (b + 1) * (U + t))%Z) by lia.
  assert (Hlo' : (Ak * (E + t) <= Bk * (U + t))%Z).
  { assert (Ak * t <= Bk * t)%Z by (apply Z.mul_le_mono_nonneg_r; lia).
    lia. }
  assert (Hhi' : (Bk * (U + t) <= Ck * (E + t))%Z).
  { assert (Bk * t <= Ck * t)%Z by (apply Z.mul_le_mono_nonneg_r; lia).
    lia. }
  split.
  - apply Z.le_trans with ((b - 1) * (Bk * (U + t)))%Z.
    + rewrite <- Z.mul_assoc. apply Z.mul_le_mono_nonneg_l; lia.
    + replace ((b - 1) * (Bk * (U + t)))%Z
        with (Bk * ((b - 1) * (U + t)))%Z by ring.
      replace (b * Bk * U')%Z with (Bk * (b * U'))%Z by ring.
      apply Z.mul_le_mono_nonneg_l; lia.
  - apply Z.le_trans with ((b + 1) * (Bk * (U + t)))%Z.
    + replace ((b + 1) * (Bk * (U + t)))%Z
        with (Bk * ((b + 1) * (U + t)))%Z by ring.
      replace (b * Bk * U')%Z with (Bk * (b * U'))%Z by ring.
      apply Z.mul_le_mono_nonneg_l; lia.
    + rewrite <- Z.mul_assoc. apply Z.mul_le_mono_nonneg_l; lia.
Qed.

Section Summation.

Variable A : Type.
Variable term : A -> double.

(** The loop [s += term] from [acc] on, and the sum of the same terms as
    numbers, in units of [2^emin]. *)
Definition sum_from (acc : double) (l : list A) : double :=
  fold_left (fun s x => (s + term x)%float) l acc.

Definition exact_sum (l : list A) : Z :=
  fold_right (fun x s => (units (term x) + s)%Z) 0%Z l.

Lemma exact_sum_permutation (l l' : list A) :
  Permutation l l' -> exact_sum l = exact_sum l'.
Proof.
  unfold exact_sum.
  induction 1 as [|x l l' _ IH|x y l|l l' l'' _ IH1 _ IH2];
    cbn [fold_right] in *; lia.
Qed.

Lemma exact_sum_not_negative (l : list A) :
  (forall x, In x l -> not_negative (term x) = true) ->
  (0 <= exact_sum l)%Z.
Proof.
  induction l as [|x l IH]; intros H; cbn [exact_sum fold_right]; [lia|].
  pose proof (units_not_negative (term x) (H x (or_introl eq_refl))).
  assert (0 <= exact_sum l)%Z by (apply IH; intros; apply H; now right).
  unfold exact_sum in *. lia.
Qed.

(** A finite result has seen finite terms only, from a finite start. *)
Lemma sum_from_finite_inv (l : list A) :
  forall acc, is_finite (sum_from acc l) = true ->
    is_finite acc = true /\ forall x, In x l -> is_finite (term x) = true.
Proof.
  induction l as [|x l IH]; intros acc H; cbn [sum_from fold_left] in *.
  - split; [exact H|]. intros x [].
  - destruct (IH _ H) as [Hacc Hl].
    destruct (add_finite_inv _ _ Hacc) as [Ha Hx].
    split; [exact Ha|]. intros x' [<-|Hin]; [exact Hx|now apply Hl].
Qed.

Lemma sum_from_not_negative (l : list A) :
  (forall x, In x l -> not_negative (term x) = true) ->
  forall acc, not_negative acc = true ->
    not_negative (sum_from acc l) = true.
Proof.
  induction l as [|x l IH]; intros H acc Hacc; cbn [sum_from fold_left];
    [exact Hacc|].
  apply IH; [intros; apply H; now right|].
  apply add_not_negative; [exact Hacc|]. apply H. now left.
Qed.

(** The sum of terms that are not negative, as the loop computes it: when
    it is finite, each addition has rounded by [2^-prec] at most,
    relatively, and after [n] additions the result is within the factors
    [(1 - 2^-prec)^n] and [(1 + 2^-prec)^n] of the sum of the numbers. *)
Lemma sum_from_bounds (l : list A) :
  (forall x, In x l -> not_negative (term x) = true) ->
  forall (acc : double) (k E : Z),
    not_negative acc = true ->
    is_finite (sum_from acc l) = true ->
    (0 <= k)%Z -> (0 <= E)%Z ->
    ((2 ^ prec - 1) ^ k * E <= (2 ^ prec) ^ k * units acc
     <= (2 ^ prec + 1) ^ k * E)%Z ->
    let n := (k + Z.of_nat (List.length l))%Z in
    ((2 ^ prec - 1) ^ n * (E + exact_sum l)
     <= (2 ^ prec) ^ n * units (sum_from acc l)
     <= (2 ^ prec + 1) ^ n * (E + exact_sum l))%Z.
Proof.
  change (2 ^ prec)%Z with 9007199254740992%Z.
  change (9007199254740992 - 1)%Z with 9007199254740991%Z.
  change (9007199254740992 + 1)%Z with 9007199254740993%Z.
  induction l as [|x l IH]; intros Hl acc k E Hacc Hfin Hk HE Hb n; subst n.
  - cbn [sum_from fold_left exact_sum fold_right List.length Z.of_nat].
    rewrite !Z.add_0_r. exact Hb.
  - cbn [sum_from fold_left] in *.
    fold (sum_from (acc + term x)%float l) in *.
    destruct (sum_from_finite_inv l _ Hfin) as [Hfa _].
    destruct (add_finite_inv _ _ Hfa) as [Ha Hx].
    assert (Hnx : not_negative (term x) = true) by (apply Hl; now left).
    pose proof (add_units_error acc (term x) Hacc Hnx Ha Hx Hfa) as Herr.
    change (2 ^ prec)%Z with 9007199254740992%Z in Herr.
    pose proof (units_not_negative _ Hnx) as Ht.
    assert (Hpow : (0 < 9007199254740991 ^ k <= 9007199254740992 ^ k)%Z).
    { split; [apply Z.pow_pos_nonneg; lia|].
      apply Z.pow_le_mono_l; lia. }
    assert (Hpow' : (9007199254740992 ^ k <= 9007199254740993 ^ k)%Z)
      by (apply Z.pow_le_mono_l; lia).
    pose proof (rounding_step 9007199254740992 _ _ _ E (units acc)
                  (units (acc + term x)%float) (units (term x))
                  ltac:(lia) Hpow Hpow' HE Ht Hb Herr) as Hstep.
    change (9007199254740992 - 1)%Z with 9007199254740991%Z in Hstep.
    change (9007199254740992 + 1)%Z with 9007199254740993%Z in Hstep.
    rewrite <- !Z.pow_succ_r in Hstep by exact Hk.
    specialize (IH (fun y Hy => Hl y (or_intror Hy)) (acc + term x)%float
                  (Z.succ k) (E + units (term x))%Z
                  (add_not_negative _ _ Hacc Hnx) Hfin ltac:(lia) ltac:(lia)
                  Hstep).
    cbn zeta in IH.
    replace (k + Z.of_nat (List.length (x :: l)))%Z
      with (Z.succ k + Z.of_nat (List.length l))%Z
      by (cbn [List.length]; lia).
    replace (E + exact_sum (x :: l))%Z
      with (E + units (term x) + exact_sum l)%Z
      by (cbn [exact_sum fold_right]; unfold exact_sum; lia).
    exact IH.
Qed.

(** Two orders of the same terms: the two results are within the factor
    [((1 + 2^-prec) / (1 - 2^-prec))^n] of one another. *)
Lemma sum_from_zero_permutation (l l' : list A) :
  Permutation l l' ->
  (forall x, In x l -> not_negative (term x) = true) ->
  is_finite (sum_from 0%float l) = true ->
  is_finite (sum_from 0%float l') = true ->
  let n := Z.of_nat (List.length l) in
  ((2 ^ prec - 1) ^ n * exact_sum l
   <= (2 ^ prec) ^ n * units (sum_from 0%float l)
   <= (2 ^ prec + 1) ^ n * exact_sum l)%Z /\
  ((2 ^ prec - 1) ^ n * units (sum_from 0%float l)
   <= (2 ^ prec + 1) ^ n * units (sum_from 0%float l'))%Z.
Proof.
  intros Hperm Hl Hf Hf' n.
  assert (Hl' : forall x, In x l' -> not_negative (term x) = true).
  { intros x Hx. apply Hl. apply Permutation_in with l'; [|exact Hx].
    now apply Permutation_sym. }
  assert (H0 : ((2 ^ prec - 1) ^ 0 * 0 <= (2 ^ prec) ^ 0 * units 0%float
                <= (2 ^ prec + 1) ^ 0 * 0)%Z) by (cbn; lia).
  pose proof (sum_from_bounds l Hl 0%float 0%Z 0%Z eq_refl Hf
                ltac:(lia) ltac:(lia) H0) as B.
  pose proof (sum_from_bounds l' Hl' 0%float 0%Z 0%Z eq_refl Hf'
                ltac:(lia) ltac:(lia) H0) as B'.
  cbn zeta in B, B'. rewrite !Z.add_0_l in B, B'.
  rewrite <- (Permutation_length Hperm), <- (exact_sum_permutation _ _ Hperm)
    in B'.
  fold n in B, B'. split; [exact B|].
  set (a := ((2 ^ prec - 1) ^ n)%Z) in *.
  set (b := ((2 ^ prec) ^ n)%Z) in *.
  set (c := ((2 ^ prec + 1) ^ n)%Z) in *.
  assert (Ha : (0 < a)%Z) by (apply Z.pow_pos_nonneg; [reflexivity|lia]).
  assert (Hb : (0 < b)%Z) by (apply Z.pow_pos_nonneg; [reflexivity|lia]).
  assert (Hc : (0 < c)%Z) by (apply Z.pow_pos_nonneg; [reflexivity|lia]).
  set (U := units (sum_from 0%float l)) in *.
  set (U' := units (sum_from 0%float l')) in *.
  set (E := exact_sum l) in *.
  apply Z.mul_le_mono_pos_l with b; [exact Hb|].
  apply Z.le_trans with (a * (c * E))%Z.
  - replace (b * (a * U))%Z with (a * (b * U))%Z by ring.
    apply Z.mul_le_mono_nonneg_l; lia.
  - replace (a * (c * E))%Z with (c * (a * E))%Z by ring.
    replace (b * (c * U'))%Z with (c * (b * U'))%Z by ring.
    apply Z.mul_le_mono_nonneg_l; lia.
Qed.

End Summation.

(** *** A running maximum *)

(** The loop [if (y > max) max = y;] over the elements that offer a value:
    [value] gives what an element offers, or nothing when the loop passes it
    by. *)
Section RunningMaximum.

Variable A : Type.
Variable value : A -> option double.

Definition take (acc : double) (x : A) : double :=
  match value x with
  | Some y => if c_gt y acc then y else acc
  | None => acc
  end.

Lemma take_num (acc : double) (x : A) :
  is_num acc = true -> is_num (take acc x) = true.
Proof.
  intros H. unfold take. destruct (value x) as [y|]; [|assumption].
  unfold c_gt. fold (c_lt acc y).
  destruct (c_lt acc y) eqn:E; [|assumption].
  now apply c_lt_num_r in E.
Qed.

Lemma take_ge (acc : double) (x : A) :
  is_num acc = true -> c_le acc (take acc x) = true.
Proof.
  intros H. unfold take. destruct (value x) as [y|]; [|now apply c_le_refl].
  unfold c_gt. fold (c_lt acc y).
  destruct (c_lt acc y) eqn:E; [now apply c_lt_le|now apply c_le_refl].
Qed.

Lemma take_offer (acc : double) (x : A) (y : double) :
  is_num acc = true -> value x = Some y -> is_num y = true ->
  c_le y (take acc x) = true.
Proof.
  intros Hacc Hv Hy. unfold take. rewrite Hv.
  unfold c_gt. fold (c_lt acc y).
  destruct (c_lt acc y) eqn:E; [now apply c_le_refl|].
  now apply c_lt_false_le.
Qed.

Lemma fold_take_num (l : list A) :
  forall acc, is_num acc = true -> is_num (fold_left take l acc) = true.
Proof.
  induction l as [|x r IH]; intros acc H; simpl; [assumption|].
  apply IH. now apply take_num.
Qed.

Lemma fold_take_ge (l : list A) :
  forall acc, is_num acc = true -> c_le acc (fold_left take l acc) = true.
Proof.
  induction l as [|x r IH]; intros acc H; simpl; [now apply c_le_refl|].
  apply c_le_trans with (take acc x); [now apply take_ge|].
  apply IH. now apply take_num.
Qed.

(** The result is at least what any element offers, when that is a number. *)
Lemma fold_take_upper (l : list A) (x : A) (y : double) :
  In x l -> value x = Some y -> is_num y = true ->
  forall acc, is_num acc = true -> c_le y (fold_left take l acc) = true.
Proof.
  intros Hin Hv Hy. induction l as [|x' r IH]; [contradiction|].
  intros acc Hacc. simpl. destruct Hin as [->|Hin].
  - apply c_le_trans with (take acc x); [now apply take_offer|].
    apply fold_take_ge. now apply take_num.
  - apply IH; [assumption|]. now apply take_num.
Qed.

(** The result is the value it starts from, or what some element offers. *)
Lemma fold_take_attained (l : list A) :
  forall acc,
    fold_left take l acc = acc
    \/ exists x, In x l /\ value x = Some (fold_left take l acc).
Proof.
  induction l as [|x r IH]; intros acc; simpl; [now left|].
  destruct (IH (take acc x)) as [E|(x' & Hin & Hv)].
  - rewrite E. unfold take. destruct (value x) as [y|] eqn:Hv; [|now left].
    destruct (c_gt y acc); [|now left].
    right. exists x. split; [now left|assumption].
  - right. exists x'. split; [now right|assumption].
Qed.

End RunningMaximum.

Arguments take {A}.

End CDouble.

(** ** C ints *)

Module CInt.

(** [INT_MIN] of an [int] of 32 bits. *)
Definition INT_MIN : Z := (- 2 ^ 31)%Z.

(** The [int] that holds the low 32 bits of a number, in two's
    complement. *)
Definition wrap (z : Z) : Z := ((z + 2 ^ 31) mod 2 ^ 32 - 2 ^ 31)%Z.

(** [a << n] on [int]. C defines it when [n] is from 0 to 31 and the result
    fits the type: for [1 << n], when [n] is from 0 to 30. The program as
    compiled shifts by the low five bits of [n] and keeps the low 32 bits
    of the result: [1 << 31] is [INT_MIN], [1 << 32] is 1. *)
Definition shl (a n : Z) : Z := wrap (Z.shiftl a (Z.land n 31)).

(** Where [a % b] on [int] traps: the division instruction raises SIGFPE
    for a zero divisor, and for [INT_MIN % -1]. Elsewhere [a % b] is
    [Z.rem a b]. *)
Definition rem_traps (a b : Z) : bool :=
  (b =? 0)%Z || ((a =? INT_MIN)%Z && (b =? -1)%Z).

Lemma shl_one (n : Z) : (0 <= n <= 30)%Z -> shl 1 n = (2 ^ n)%Z.
Proof.
  intros H. unfold shl, wrap.
  assert (E : Z.land n 31 = n).
  { change 31%Z with (Z.ones 5). rewrite Z.land_ones by lia.
    apply Z.mod_small. change (2 ^ 5)%Z with 32%Z. lia. }
  rewrite E, Z.shiftl_1_l.
  assert (0 < 2 ^ n <= 2 ^ 30)%Z.
  { split; [apply Z.pow_pos_nonneg; lia|].
    apply Z.pow_le_mono_r; lia. }
  rewrite Z.mod_small by lia. lia.
Qed.

Lemma shl_one_31 : shl 1 31 = INT_MIN.
Proof. reflexivity. Qed.

Lemma rem_traps_one (a : Z) : rem_traps a 1 = false.
Proof. unfold rem_traps. cbn. apply andb_false_r. Qed.

Lemma rem_traps_zero (a : Z) : rem_traps a 0 = true.
Proof. reflexivity. Qed.

Lemma rem_traps_false (a b : Z) :
  rem_traps a b = false <-> b <> 0%Z /\ ~ (a = INT_MIN /\ b = (-1)%Z).
Proof.
  unfold rem_traps. rewrite orb_false_iff, andb_false_iff, !Z.eqb_neq.
  intuition lia.
Qed.

End CInt.

(** ** C strings and the libc functions the parsers use *)

Module CStr.
Local Open Scope string_scope.

Definition NUL : ascii := Ascii.zero.
Definition newline : ascii := ascii_of_nat 10.

(** [isspace] in the C locale: space, [\t], [\n], [\v], [\f], [\r]. *)
Definition isspace (c : ascii) : bool :=
  let n := nat_of_ascii c in
  Nat.eqb n 32 || (Nat.leb 9 n && Nat.leb n 13).

(** The C string held by a buffer: the characters before the first NUL. *)
Fixpoint c_str (s : string) : string :=
  match s with
  | EmptyString => EmptyString
  | String c r => if Ascii.eqb c NUL then EmptyString else String c (c_str r)
  end.

(** [strchr(s, c)] followed by [*hit = '\0']: the text before the first [c],
    and the text after it when there is one. *)
Fixpoint split_at (c : ascii) (s : string) : string * option string :=
  match s with
  | EmptyString => (EmptyString, None)
  | String d r =>
      if Ascii.eqb d c then (EmptyString, Some r)
      else let '(a, b) := split_at c r in (String d a, b)
  end.

(** The loop that advances a pointer over leading white space. *)
Fixpoint skip_space (s : string) : string :=
  match s with
  | EmptyString => EmptyString
  | String c r => if isspace c then skip_space r else s
  end.

(** Removal of all the white space that ends a string. *)
Fixpoint drop_trailing_space (s : string) : string :=
  match s with
  | EmptyString => EmptyString
  | String c r =>
      match drop_trailing_space r with
      | EmptyString => if isspace c then EmptyString else String c EmptyString
      | r' => String c r'
      end
  end.

(** The loop that writes NUL over trailing white space, from the last
    character backwards while [end > s]: it stops at the first character,
    which it never removes. *)
Definition rtrim (s : string) : string :=
  match s with
  | EmptyString => EmptyString
  | String c r => String c (drop_trailing_space r)
  end.

(** [strncpy(dst, src, n)] into a buffer whose byte [n] is NUL: the first
    [n] characters of [src]. *)
Fixpoint strncpy (n : nat) (src : string) : string :=
  match n, src with
  | S k, String c r => String c (strncpy k r)
  | _, _ => EmptyString
  end.

(** [acc], read backwards, in front of [s]. *)
Fixpoint string_rev_onto (acc s : string) : string :=
  match acc with
  | EmptyString => s
  | String c r => string_rev_onto r (String c s)
  end.

(** The successive results of [fgets(line, cap + 1, fp)] on a stream that
    holds [s]: each record ends after a newline, or after [cap] characters
    when no newline came first. [acc] is the record being read, backwards,
    and [k] the room left in it. *)
Fixpoint fgets_from (cap k : nat) (acc : string) (s : string) : list string :=
  match s with
  | EmptyString =>
      match acc with
      | EmptyString => []
      | _ => [string_rev_onto acc EmptyString]
      end
  | String c r =>
      let acc' := String c acc in
      if Ascii.eqb c newline || Nat.eqb k 1
      then string_rev_onto acc' EmptyString :: fgets_from cap cap EmptyString r
      else fgets_from cap (Nat.pred k) acc' r
  end.

Definition fgets_records (size : nat) (s : string) : list string :=
  fgets_from (Nat.pred size) (Nat.pred size) EmptyString s.

(** [snprintf(buf, size, "%s%s", a, b)]: the text, cut to [size - 1]. *)
Definition snprintf2 (size : nat) (a b : string) : string :=
  strncpy (Nat.pred size) (a ++ b).

(** The physical lines of a text: the pieces between newlines. *)
Fixpoint lines_from (acc : string) (s : string) : list string :=
  match s with
  | EmptyString =>
      match acc with
      | EmptyString => []
      | _ => [string_rev_onto acc EmptyString]
      end
  | String c r =>
      if Ascii.eqb c newline
      then string_rev_onto (String c acc) EmptyString :: lines_from EmptyString r
      else lines_from (String c acc) r
  end.

Definition lines (s : string) : list string := lines_from EmptyString s.

(** Whether a character occurs in a string. *)
Fixpoint contains (c : ascii) (s : string) : bool :=
  match s with
  | EmptyString => false
  | String d r => Ascii.eqb d c || contains c r
  end.

Lemma split_at_absent (c : ascii) (s : string) :
  contains c s = false -> split_at c s = (s, None).
Proof.
  induction s as [|d r IH]; simpl; [reflexivity|].
  intros H. apply orb_false_iff in H. destruct H as [Hd Hr].
  rewrite Hd, (IH Hr). reflexivity.
Qed.

Lemma split_at_present (c : ascii) (s : string) :
  contains c s = true -> exists v, snd (split_at c s) = Some v.
Proof.
  induction s as [|d r IH]; simpl; [discriminate|].
  destruct (Ascii.eqb d c); simpl; intros H.
  - now exists r.
  - destruct (IH H) as [v Hv]. exists v.
    destruct (split_at c r). exact Hv.
Qed.

Lemma contains_skip_space (c : ascii) (s : string) :
  contains c s = false -> contains c (skip_space s) = false.
Proof.
  induction s as [|d r IH]; simpl; [reflexivity|].
  intros H. destruct (isspace d); [|exact H].
  apply orb_false_iff in H. now apply IH.
Qed.

(** Cutting at a character forgets what follows its first occurrence. *)
Lemma split_at_app_fst (c : ascii) (a b : string) :
  fst (split_at c (c_str (a ++ String c b))) = fst (split_at c (c_str a)).
Proof.
  induction a as [|d r IH]; simpl.
  - destruct (Ascii.eqb c NUL); simpl; [reflexivity|].
    now rewrite Ascii.eqb_refl.
  - destruct (Ascii.eqb d NUL); simpl; [reflexivity|].
    destruct (Ascii.eqb d c); [reflexivity|].
    destruct (split_at c (c_str (r ++ String c b))),
      (split_at c (c_str r)). simpl in *. now f_equal.
Qed.

(** Strings of white space, and strings with none at either end. *)
Fixpoint all_space (s : string) : bool :=
  match s with
  | EmptyString => true
  | String c r => isspace c && all_space r
  end.

Definition tight (s : string) : bool :=
  match s with
  | EmptyString => true
  | String c r => negb (isspace c) && String.eqb (drop_trailing_space r) r
  end.

Lemma contains_app (c : ascii) (a b : string) :
  contains c (a ++ b) = contains c a || contains c b.
Proof.
  induction a as [|d r IH]; simpl; [reflexivity|].
  now rewrite IH, orb_assoc.
Qed.

Lemma isspace_not (c d : ascii) :
  isspace c = true -> isspace d = false -> Ascii.eqb c d = false.
Proof.
  intros Hc Hd. destruct (Ascii.eqb_spec c d); [congruence|reflexivity].
Qed.

Lemma all_space_contains (c : ascii) (w : string) :
  isspace c = false -> all_space w = true -> contains c w = false.
Proof.
  intros Hc. induction w as [|d r IH]; simpl; [reflexivity|].
  intros H. apply andb_true_iff in H. destruct H as [Hd Hr].
  now rewrite (isspace_not d c Hd Hc), IH.
Qed.

Lemma c_str_id (s : string) : contains NUL s = false -> c_str s = s.
Proof.
  induction s as [|d r IH]; simpl; [reflexivity|].
  intros H. apply orb_false_iff in H. destruct H as [Hd Hr].
  now rewrite Hd, IH.
Qed.

Lemma split_at_app (c : ascii) (a b : string) :
  contains c a = false -> split_at c (a ++ String c b) = (a, Some b).
Proof.
  induction a as [|d r IH]; simpl.
  - now rewrite Ascii.eqb_refl.
  - intros H. apply orb_false_iff in H. destruct H as [Hd Hr].
    now rewrite Hd, IH.
Qed.

Lemma skip_space_app (w s : string) :
  all_space w = true -> skip_space (w ++ s) = skip_space s.
Proof.
  induction w as [|d r IH]; simpl; [reflexivity|].
  intros H. apply andb_true_iff in H. destruct H as [Hd Hr].
  now rewrite Hd, IH.
Qed.

Lemma skip_space_all_space (w : string) :
  all_space w = true -> skip_space w = EmptyString.
Proof.
  induction w as [|d r IH]; simpl; [reflexivity|].
  intros H. apply andb_true_iff in H. destruct H as [Hd Hr].
  now rewrite Hd, IH.
Qed.

Lemma drop_trailing_space_all_space (w : string) :
  all_space w = true -> drop_trailing_space w = EmptyString.
Proof.
  induction w as [|d r IH]; simpl; [reflexivity|].
  intros H. apply andb_true_iff in H. destruct H as [Hd Hr].
  now rewrite IH, Hd.
Qed.

Lemma drop_trailing_space_app (s w : string) :
  all_space w = true ->
  drop_trailing_space (s ++ w) = drop_trailing_space s.
Proof.
  intros Hw. induction s as [|d r IH]; simpl.
  - now apply drop_trailing_space_all_space.
  - now rewrite IH.
Qed.

(** Trimming a tight text wrapped in white space gives the text back. *)
Lemma trim_tight (w1 s w2 : string) :
  all_space w1 = true -> all_space w2 = true -> tight s = true ->
  rtrim (skip_space (w1 ++ s ++ w2)) = s.
Proof.
  intros H1 H2 Hs. rewrite skip_space_app by assumption.
  destruct s as [|c r]; simpl in *.
  - now rewrite skip_space_all_space.
  - apply andb_true_iff in Hs. destruct Hs as [Hc Hr].
    apply negb_true_iff in Hc. rewrite Hc. simpl.
    rewrite drop_trailing_space_app by assumption.
    apply String.eqb_eq in Hr. now rewrite Hr.
Qed.

Lemma rtrim_tight (c : ascii) (r w : string) :
  all_space w = true -> tight (String c r) = true ->
  rtrim (String c r ++ w) = String c r.
Proof.
  intros Hw Hs. simpl in *.
  apply andb_true_iff in Hs. destruct Hs as [_ Hr].
  apply String.eqb_eq in Hr.
  now rewrite drop_trailing_space_app, Hr.
Qed.

Lemma append_assoc (a b c : string) : (a ++ b) ++ c = a ++ (b ++ c).
Proof.
  induction a as [|d r IH]; simpl; [reflexivity|]. now rewrite IH.
Qed.

Lemma strncpy_short (n : nat) (s : string) :
  (String.length s <= n)%nat -> strncpy n s = s.
Proof.
  revert n. induction s as [|c r IH]; intros n H.
  - destruct n; reflexivity.
  - destruct n; simpl in *; [lia|]. rewrite IH; [reflexivity|lia].
Qed.

Lemma append_length (a b : string) :
  String.length (a ++ b) = (String.length a + String.length b)%nat.
Proof.
  induction a as [|c r IH]; simpl; [reflexivity|]. now rewrite IH.
Qed.

(** *** Records of [fgets] and physical lines *)

Lemma string_rev_onto_length (acc s : string) :
  String.length (string_rev_onto acc s) = (String.length acc + String.length s)%nat.
Proof.
  revert s. induction acc as [|c r IH]; intros s; simpl; [reflexivity|].
  rewrite IH. simpl. lia.
Qed.

Lemma lines_from_long (s acc : string) :
  s <> EmptyString ->
  exists l, In l (lines_from acc s) /\
            (String.length acc + 1 <= String.length l)%nat.
Proof.
  revert acc. induction s as [|c r IH]; intros acc Hs; [congruence|].
  simpl. destruct (Ascii.eqb c newline).
  - eexists. split; [now left|].
    rewrite string_rev_onto_length. simpl. lia.
  - destruct r as [|d r'].
    + eexists. split; [now left|].
      rewrite string_rev_onto_length. simpl. lia.
    + destruct (IH (String c acc)) as (l & Hin & Hlen); [congruence|].
      exists l. split; [exact Hin|]. simpl in Hlen. lia.
Qed.

Lemma fgets_from_lines (cap : nat) (s : string) :
  (1 <= cap)%nat ->
  forall (acc : string) (k : nat),
    (k + String.length acc = cap)%nat -> (1 <= k)%nat ->
    (forall l, In l (lines_from acc s) -> (String.length l <= cap)%nat) ->
    fgets_from cap k acc s = lines_from acc s.
Proof.
  intros Hcap. induction s as [|c r IH]; intros acc k Hk Hk1 Hall.
  - reflexivity.
  - simpl in *. destruct (Ascii.eqb c newline); simpl.
    + f_equal. apply IH; simpl; try lia.
      intros l Hl. apply Hall. now right.
    + destruct (Nat.eqb_spec k 1) as [->|Hne].
      * destruct r as [|d r']; [reflexivity|].
        destruct (lines_from_long (String d r') (String c acc))
          as (l & Hin & Hlen); [congruence|].
        apply Hall in Hin. simpl in Hlen. lia.
      * apply IH; simpl; try lia. exact Hall.
Qed.

(** When no physical line is longer than the buffer holds, [fgets] returns
    the lines. *)
Lemma fgets_records_lines (size : nat) (s : string) :
  (2 <= size)%nat ->
  (forall l, In l (lines s) -> (String.length l <= Nat.pred size)%nat) ->
  fgets_records size s = lines s.
Proof.
  intros Hsize Hall. unfold fgets_records, lines.
  apply fgets_from_lines; simpl; try lia. exact Hall.
Qed.

(** [n] times the character [c]. *)
Fixpoint replicate (n : nat) (c : ascii) : string :=
  match n with
  | O => EmptyString
  | S k => String c (replicate k c)
  end.

(** A line that fits in the buffer is one record of [fgets]. *)
Lemma fgets_from_line (cap : nat) (l rest : string) :
  contains newline l = false ->
  forall (acc : string) (k : nat),
    (String.length l + 1 <= k)%nat ->
    fgets_from cap k acc (l ++ String newline rest)
    = string_rev_onto acc (l ++ String newline EmptyString)
        :: fgets_from cap cap EmptyString rest.
Proof.
  induction l as [|d l' IH]; intros Hnl acc k Hk.
  - cbn [append fgets_from]. rewrite Ascii.eqb_refl. reflexivity.
  - cbn [contains] in Hnl. apply orb_false_iff in Hnl.
    destruct Hnl as [Hd Hl']. cbn [append fgets_from]. rewrite Hd.
    cbn [String.length] in Hk.
    destruct (Nat.eqb_spec k 1) as [->|_]; [lia|]. cbn [orb].
    rewrite IH by (assumption || lia). reflexivity.
Qed.

Lemma fgets_records_line (l rest : string) :
  contains newline l = false -> (String.length l <= 510)%nat ->
  fgets_records 512 (l ++ String newline rest)
  = (l ++ String newline EmptyString) :: fgets_records 512 rest.
Proof.
  intros Hnl Hlen. unfold fgets_records.
  rewrite fgets_from_line by (assumption || (simpl; lia)). reflexivity.
Qed.

End CStr.

(** ** The file system, as the program observes it *)

Module OS.

(** The answers of the operating system to the calls the program makes:
    [access(path, F_OK) == 0], [fopen(path, "r")] with the content read,
    [stat(path, &st) != -1], [mkdir(path, 0755) != -1] and whether
    [fopen(path, "w")] returns a stream. *)
Record filesystem : Type := mkFS {
  access_ok : string -> bool;
  fopen_read : string -> option string;
  stat_ok : string -> bool;
  mkdir_ok : string -> bool;
  fopen_write_ok : string -> bool
}.

(** A file system that holds one readable file, in which every directory
    can be made and every file written. *)
Definition fs_with_file (name content : string) : filesystem :=
  {| access_ok := fun f => String.eqb f name;
     fopen_read := fun f => if String.eqb f name then Some content else None;
     stat_ok := fun _ => false;
     mkdir_ok := fun _ => true;
     fopen_write_ok := fun _ => true |}.

End OS.

(** ** [params.h]: the configuration, its two parsers and its validation *)

Module Params.
Import CDouble CStr.
Local Open Scope string_scope.

(** [struct SimulationParams]. *)
Record SimulationParams : Type := mkParams {
  CaseNo : Z;
  We : double;
  Ohd : double;
  Ohs : double;
  rho_ratio : double;
  Ldomain : double;
  drop_x : double;
  drop_y : double;
  drop_radius : double;
  impact_velocity : double;
  MAXlevel : Z;
  MINlevel : Z;
  init_grid_level : Z;
  fErr : double;
  KErr : double;
  VelErr : double;
  tmax : double;
  tsnap : double;
  output_dir : string;
  log_interval : Z;
  outflow_x_frac : double;
  outflow_y_max : double
}.

(** The assignment [p->field = v], one per field. *)
Definition set_CaseNo (v : Z) (p : SimulationParams) : SimulationParams :=
  let '(mkParams x0 x1 x2 x3 x4 x5 x6 x7 x8 x9 x10 x11 x12 x13 x14 x15 x16 x17 x18 x19 x20 x21) := p in
  mkParams v x1 x2 x3 x4 x5 x6 x7 x8 x9 x10 x11 x12 x13 x14 x15 x16 x17 x18 x19 x20 x21.

Definition set_We (v : double) (p : SimulationParams) : SimulationParams :=
  let '(mkParams x0 x1 x2 x3 x4 x5 x6 x7 x8 x9 x10 x11 x12 x13 x14 x15 x16 x17 x18 x19 x20 x21) := p in
  mkParams x0 v x2 x3 x4 x5 x6 x7 x8 x9 x10 x11 x12 x13 x14 x15 x16 x17 x18 x19 x20 x21.

Definition set_Ohd (v : double) (p : SimulationParams) : SimulationParams :=
  let '(mkParams x0 x1 x2 x3 x4 x5 x6 x7 x8 x9 x10 x11 x12 x13 x14 x15 x16 x17 x18 x19 x20 x21) := p in
  mkParams x0 x1 v x3 x4 x5 x6 x7 x8 x9 x10 x11 x12 x13 x14 x15 x16 x17 x18 x19 x20 x21.

Definition set_Ohs (v : double) (p : SimulationParams) : SimulationParams :=
  let '(mkParams x0 x1 x2 x3 x4 x5 x6 x7 x8 x9 x10 x11 x12 x13 x14 x15 x16 x17 x18 x19 x20 x21) := p in
  mkParams x0 x1 x2 v x4 x5 x6 x7 x8 x9 x10 x11 x12 x13 x14 x15 x16 x17 x18 x19 x20 x21.

Definition set_rho_ratio (v : double) (p : SimulationParams) : SimulationParams :=
  let '(mkParams x0 x1 x2 x3 x4 x5 x6 x7 x8 x9 x10 x11 x12 x13 x14 x15 x16 x17 x18 x19 x20 x21) := p in
  mkParams x0 x1 x2 x3 v x5 x6 x7 x8 x9 x10 x11 x12 x13 x14 x15 x16 x17 x18 x19 x20 x21.

Definition set_Ldomain (v : double) (p : SimulationParams) : SimulationParams :=
  let '(mkParams x0 x1 x2 x3 x4 x5 x6 x7 x8 x9 x10 x11 x12 x13 x14 x15 x16 x17 x18 x19 x20 x21) := p in
  mkParams x0 x1 x2 x3 x4 v x6 x7 x8 x9 x10 x11 x12 x13 x14 x15 x16 x17 x18 x19 x20 x21.

Definition set_drop_x (v : double) (p : SimulationParams) : SimulationParams :=
  let '(mkParams x0 x1 x2 x3 x4 x5 x6 x7 x8 x9 x10 x11 x12 x13 x14 x15 x16 x17 x18 x19 x20 x21) := p in
  mkParams x0 x1 x2 x3 x4 x5 v x7 x8 x9 x10 x11 x12 x13 x14 x15 x16 x17 x18 x19 x20 x21.

Definition set_drop_y (v : double) (p : SimulationParams) : SimulationParams :=
  let '(mkParams x0 x1 x2 x3 x4 x5 x6 x7 x8 x9 x10 x11 x12 x13 x14 x15 x16 x17 x18 x19 x20 x21) := p in
  mkParams x0 x1 x2 x3 x4 x5 x6 v x8 x9 x10 x11 x12 x13 x14 x15 x16 x17 x18 x19 x20 x21.

Definition set_drop_radius (v : double) (p : SimulationParams) : SimulationParams :=
  let '(mkParams x0 x1 x2 x3 x4 x5 x6 x7 x8 x9 x10 x11 x12 x13 x14 x15 x16 x17 x18 x19 x20 x21) := p in
  mkParams x0 x1 x2 x3 x4 x5 x6 x7 v x9 x10 x11 x12 x13 x14 x15 x16 x17 x18 x19 x20 x21.

Definition set_impact_velocity (v : double) (p : SimulationParams) : SimulationParams :=
  let '(mkParams x0 x1 x2 x3 x4 x5 x6 x7 x8 x9 x10 x11 x12 x13 x14 x15 x16 x17 x18 x19 x20 x21) := p in
  mkParams x0 x1 x2 x3 x4 x5 x6 x7 x8 v x10 x11 x12 x13 x14 x15 x16 x17 x18 x19 x20 x21.

Definition set_MAXlevel (v : Z) (p : SimulationParams) : SimulationParams :=
  let '(mkParams x0 x1 x2 x3 x4 x5 x6 x7 x8 x9 x10 x11 x12 x13 x14 x15 x16 x17 x18 x19 x20 x21) := p in
  mkParams x0 x1 x2 x3 x4 x5 x6 x7 x8 x9 v x11 x12 x13 x14 x15 x16 x17 x18 x19 x20 x21.

Definition set_MINlevel (v : Z) (p : SimulationParams) : SimulationParams :=
  let '(mkParams x0 x1 x2 x3 x4 x5 x6 x7 x8 x9 x10 x11 x12 x13 x14 x15 x16 x17 x18 x19 x20 x21) := p in
  mkParams x0 x1 x2 x3 x4 x5 x6 x7 x8 x9 x10 v x12 x13 x14 x15 x16 x17 x18 x19 x20 x21.

Definition set_init_grid_level (v : Z) (p : SimulationParams) : SimulationParams :=
  let '(mkParams x0 x1 x2 x3 x4 x5 x6 x7 x8 x9 x10 x11 x12 x13 x14 x15 x16 x17 x18 x19 x20 x21) := p in
  mkParams x0 x1 x2 x3 x4 x5 x6 x7 x8 x9 x10 x11 v x13 x14 x15 x16 x17 x18 x19 x20 x21.

Definition set_fErr (v : double) (p : SimulationParams) : SimulationParams :=
  let '(mkParams x0 x1 x2 x3 x4 x5 x6 x7 x8 x9 x10 x11 x12 x13 x14 x15 x16 x17 x18 x19 x20 x21) := p in
  mkParams x0 x1 x2 x3 x4 x5 x6 x7 x8 x9 x10 x11 x12 v x14 x15 x16 x17 x18 x19 x20 x21.

Definition set_KErr (v : double) (p : SimulationParams) : SimulationParams :=
  let '(mkParams x0 x1 x2 x3 x4 x5 x6 x7 x8 x9 x10 x11 x12 x13 x14 x15 x16 x17 x18 x19 x20 x21) := p in
  mkParams x0 x1 x2 x3 x4 x5 x6 x7 x8 x9 x10 x11 x12 x13 v x15 x16 x17 x18 x19 x20 x21.

Definition set_VelErr (v : double) (p : SimulationParams) : SimulationParams :=
  let '(mkParams x0 x1 x2 x3 x4 x5 x6 x7 x8 x9 x10 x11 x12 x13 x14 x15 x16 x17 x18 x19 x20 x21) := p in
  mkParams x0 x1 x2 x3 x4 x5 x6 x7 x8 x9 x10 x11 x12 x13 x14 v x16 x17 x18 x19 x20 x21.

Definition set_tmax (v : double) (p : SimulationParams) : SimulationParams :=
  let '(mkParams x0 x1 x2 x3 x4 x5 x6 x7 x8 x9 x10 x11 x12 x13 x14 x15 x16 x17 x18 x19 x20 x21) := p in
  mkParams x0 x1 x2 x3 x4 x5 x6 x7 x8 x9 x10 x11 x12 x13 x14 x15 v x17 x18 x19 x20 x21.

Definition set_tsnap (v : double) (p : SimulationParams) : SimulationParams :=
  let '(mkParams x0 x1 x2 x3 x4 x5 x6 x7 x8 x9 x10 x11 x12 x13 x14 x15 x16 x17 x18 x19 x20 x21) := p in
  mkParams x0 x1 x2 x3 x4 x5 x6 x7 x8 x9 x10 x11 x12 x13 x14 x15 x16 v x18 x19 x20 x21.

Definition set_output_dir (v : string) (p : SimulationParams) : SimulationParams :=
  let '(mkParams x0 x1 x2 x3 x4 x5 x6 x7 x8 x9 x10 x11 x12 x13 x14 x15 x16 x17 x18 x19 x20 x21) := p in
  mkParams x0 x1 x2 x3 x4 x5 x6 x7 x8 x9 x10 x11 x12 x13 x14 x15 x16 x17 v x19 x20 x21.

Definition set_log_interval (v : Z) (p : SimulationParams) : SimulationParams :=
  let '(mkParams x0 x1 x2 x3 x4 x5 x6 x7 x8 x9 x10 x11 x12 x13 x14 x15 x16 x17 x18 x19 x20 x21) := p in
  mkParams x0 x1 x2 x3 x4 x5 x6 x7 x8 x9 x10 x11 x12 x13 x14 x15 x16 x17 x18 v x20 x21.

Definition set_outflow_x_frac (v : double) (p : SimulationParams) : SimulationParams :=
  let '(mkParams x0 x1 x2 x3 x4 x5 x6 x7 x8 x9 x10 x11 x12 x13 x14 x15 x16 x17 x18 x19 x20 x21) := p in
  mkParams x0 x1 x2 x3 x4 x5 x6 x7 x8 x9 x10 x11 x12 x13 x14 x15 x16 x17 x18 x19 v x21.

Definition set_outflow_y_max (v : double) (p : SimulationParams) : SimulationParams :=
  let '(mkParams x0 x1 x2 x3 x4 x5 x6 x7 x8 x9 x10 x11 x12 x13 x14 x15 x16 x17 x18 x19 x20 x21) := p in
  mkParams x0 x1 x2 x3 x4 x5 x6 x7 x8 x9 x10 x11 x12 x13 x14 x15 x16 x17 x18 x19 x20 v.

(** [set_default_params]. *)
Definition set_default_params (_ : SimulationParams) : SimulationParams :=
  {| CaseNo := 1000;
     We := 10.0; Ohd := 5.0e-3; Ohs := 1.0e-5; rho_ratio := 1.0e-3;
     Ldomain := 8.0; drop_x := 1.5; drop_y := 1.0; drop_radius := 1.0;
     impact_velocity := (-1.0);
     MAXlevel := 10; MINlevel := 4; init_grid_level := 6;
     fErr := 1.0e-3; KErr := 1.0e-6; VelErr := 1.0e-2;
     tmax := 4.0; tsnap := 0.01;
     output_dir := "results"; log_interval := 1;
     outflow_x_frac := 0.95; outflow_y_max := 4.0 |}%float.

(** A zero-initialised structure, as the global [params] of [dropImpact.c]
    is before [main] fills it. *)
Definition zero_params : SimulationParams :=
  {| CaseNo := 0;
     We := 0; Ohd := 0; Ohs := 0; rho_ratio := 0;
     Ldomain := 0; drop_x := 0; drop_y := 0; drop_radius := 0;
     impact_velocity := 0;
     MAXlevel := 0; MINlevel := 0; init_grid_level := 0;
     fErr := 0; KErr := 0; VelErr := 0;
     tmax := 0; tsnap := 0;
     output_dir := ""; log_interval := 0;
     outflow_x_frac := 0; outflow_y_max := 0 |}%float.

Definition default_params : SimulationParams := set_default_params zero_params.

(** What the functions of [params.h] print on [stderr]. *)
Inductive msg : Type :=
| ErrCannotOpenParamFile (filename : string)
| WarnUnknownParameter (key : string) (line_num : Z)
| ErrInsufficientArgs
| UsageRequired
| UsageOptional
| ErrCaseNo (n : Z)
| ErrWe (x : double)
| ErrOhd (x : double)
| ErrOhs (x : double)
| ErrRhoRatio (x : double)
| ErrDomainTooSmall (x : double)
| ErrDropRadius (x : double)
| ErrMaxBelowMin (maxl minl : Z)
| WarnHighMaxLevel (maxl : Z)
| ErrMinLevel (minl : Z)
| ErrTolerances
| ErrTmax (x : double)
| ErrTsnap (tsnap tmax : double)
| WarnCannotCreateDir (dirname : string)
| InfoCreatedDir (dirname : string)
| ParamsSummary (p : SimulationParams).


Section Parsers.

(** [atoi] and [atof] of libc. *)
Variable atoi : string -> Z.
Variable atof : string -> double.

(** The chain of [strcmp] tests of [parse_params_from_file]: the field a key
    names receives the converted value; any other key is reported. *)
Definition assign (key value : string) (line_num : Z) (p : SimulationParams)
  : SimulationParams * list msg :=
  if key =? "CaseNo" then (set_CaseNo (atoi value) p, [])
  else if key =? "We" then (set_We (atof value) p, [])
  else if key =? "Ohd" then (set_Ohd (atof value) p, [])
  else if key =? "Ohs" then (set_Ohs (atof value) p, [])
  else if key =? "rho_ratio" then (set_rho_ratio (atof value) p, [])
  else if key =? "Ldomain" then (set_Ldomain (atof value) p, [])
  else if key =? "drop_x" then (set_drop_x (atof value) p, [])
  else if key =? "drop_y" then (set_drop_y (atof value) p, [])
  else if key =? "drop_radius" then (set_drop_radius (atof value) p, [])
  else if key =? "impact_velocity" then (set_impact_velocity (atof value) p, [])
  else if key =? "MAXlevel" then (set_MAXlevel (atoi value) p, [])
  else if key =? "MINlevel" then (set_MINlevel (atoi value) p, [])
  else if key =? "init_grid_level" then (set_init_grid_level (atoi value) p, [])
  else if key =? "fErr" then (set_fErr (atof value) p, [])
  else if key =? "KErr" then (set_KErr (atof value) p, [])
  else if key =? "VelErr" then (set_VelErr (atof value) p, [])
  else if key =? "tmax" then (set_tmax (atof value) p, [])
  else if key =? "tsnap" then (set_tsnap (atof value) p, [])
  else if key =? "output_dir" then (set_output_dir (strncpy 255 value) p, [])
  else if key =? "log_interval" then (set_log_interval (atoi value) p, [])
  else if key =? "outflow_x_frac" then (set_outflow_x_frac (atof value) p, [])
  else if key =? "outflow_y_max" then (set_outflow_y_max (atof value) p, [])
  else (p, [WarnUnknownParameter key line_num]).

(** The text of a record once the comment is cut off: what precedes the
    first ['#'] of the C string. *)
Definition strip_comment (line : string) : string :=
  fst (split_at "#" (c_str line)).

(** The key and the value of a record, both trimmed, when the record is not
    blank and holds an ['=']. *)
Definition split_key_value (line : string) : option (string * string) :=
  match skip_space (strip_comment line) with
  | EmptyString => None
  | start =>
      match split_at "=" start with
      | (_, None) => None
      | (key, Some value) => Some (rtrim key, rtrim (skip_space value))
      end
  end.

(** The state of the reading loop: the parameters, what was printed on
    [stderr], and [line_num]. *)
Record parse_state : Type := mkParse {
  ps_params : SimulationParams;
  ps_stderr : list msg;
  ps_line_num : Z
}.

(** One turn of the [while (fgets (...))] loop. *)
Definition process_line (st : parse_state) (line : string) : parse_state :=
  let n := (ps_line_num st + 1)%Z in
  match split_key_value line with
  | None => mkParse (ps_params st) (ps_stderr st) n
  | Some (key, value) =>
      let '(p', out) := assign key value n (ps_params st) in
      mkParse p' (ps_stderr st ++ out)%list n
  end.

(** [parse_params_from_file]: the return value, the parameters after the
    call and the text printed on [stderr]. The buffer is [char line[512]]. *)
Definition parse_params_from_file (fs : OS.filesystem) (filename : string)
  (p : SimulationParams) : Z * SimulationParams * list msg :=
  match OS.fopen_read fs filename with
  | None => ((-1)%Z, p, [ErrCannotOpenParamFile filename])
  | Some content =>
      let st := fold_left process_line (fgets_records 512 content)
                  (mkParse (set_default_params p) [] 0%Z) in
      (0%Z, ps_params st, ps_stderr st)
  end.

(** [parse_params_from_cli]: [argc] is the length of [argv]. *)
Definition parse_params_from_cli (argv : list string) (p : SimulationParams)
  : Z * SimulationParams * list msg :=
  let argc := Z.of_nat (List.length argv) in
  let arg (i : nat) := nth i argv EmptyString in
  let p := set_default_params p in
  if (argc <? 7)%Z
  then ((-1)%Z, p, [ErrInsufficientArgs; UsageRequired; UsageOptional])
  else
    let p := set_MAXlevel (atoi (arg 1%nat)) p in
    let p := set_tmax (atof (arg 2%nat)) p in
    let p := set_We (atof (arg 3%nat)) p in
    let p := set_Ohd (atof (arg 4%nat)) p in
    let p := set_Ohs (atof (arg 5%nat)) p in
    let p := set_Ldomain (atof (arg 6%nat)) p in
    let p := if (argc >? 7)%Z then set_drop_x (atof (arg 7%nat)) p else p in
    let p := if (argc >? 8)%Z then set_drop_y (atof (arg 8%nat)) p else p in
    let p := if (argc >? 9)%Z
             then set_impact_velocity (atof (arg 9%nat)) p else p in
    (0%Z, p, []).

End Parsers.

(** [validate_params] runs every test in turn; a test that fails prints its
    message and clears [valid], and nothing sets [valid] again. *)
Definition fail_if (cond : bool) (m : msg) (st : bool * list msg)
  : bool * list msg :=
  if cond then (false, (snd st ++ [m])%list) else st.

Definition warn_if (cond : bool) (m : msg) (st : bool * list msg)
  : bool * list msg :=
  if cond then (fst st, (snd st ++ [m])%list) else st.

Definition validate_params (p : SimulationParams) : bool * list msg :=
  let st := (true, []) in
  let st := fail_if ((CaseNo p <? 1000) || (CaseNo p >? 9999))%Z
              (ErrCaseNo (CaseNo p)) st in
  let st := fail_if (c_le (We p) 0%float) (ErrWe (We p)) st in
  let st := fail_if (c_le (Ohd p) 0%float) (ErrOhd (Ohd p)) st in
  let st := fail_if (c_le (Ohs p) 0%float) (ErrOhs (Ohs p)) st in
  let st := fail_if (c_le (rho_ratio p) 0%float) (ErrRhoRatio (rho_ratio p)) st in
  let st := fail_if (c_le (Ldomain p) (2.0 * drop_radius p)%float)
              (ErrDomainTooSmall (Ldomain p)) st in
  let st := fail_if (c_le (drop_radius p) 0%float)
              (ErrDropRadius (drop_radius p)) st in
  let st := fail_if (MAXlevel p <? MINlevel p)%Z
              (ErrMaxBelowMin (MAXlevel p) (MINlevel p)) st in
  let st := warn_if (MAXlevel p >? 15)%Z (WarnHighMaxLevel (MAXlevel p)) st in
  let st := fail_if (MINlevel p <? 2)%Z (ErrMinLevel (MINlevel p)) st in
  let st := fail_if (c_le (fErr p) 0%float || c_le (KErr p) 0%float || c_le (VelErr p) 0%float)
              ErrTolerances st in
  let st := fail_if (c_le (tmax p) 0%float) (ErrTmax (tmax p)) st in
  let st := fail_if (c_le (tsnap p) 0%float || c_gt (tsnap p) (tmax p))
              (ErrTsnap (tsnap p) (tmax p)) st in
  st.

(** [print_params]: one block of text on the stream it is given. *)
Definition print_params (p : SimulationParams) : list msg := [ParamsSummary p].

(** [create_output_directory]: the return value and the text on [stderr]. *)
Definition create_output_directory (fs : OS.filesystem) (dirname : string)
  : Z * list msg :=
  if negb (OS.stat_ok fs dirname) then
    if negb (OS.mkdir_ok fs dirname)
    then ((-1)%Z, [WarnCannotCreateDir dirname])
    else (0%Z, [InfoCreatedDir dirname])
  else (0%Z, []).


(** *** Validation *)

(** The invariants of a configuration as the specification words them:
    case number in 1000..9999; We, Ohd, Ohs and rho_ratio strictly positive;
    Ldomain > 2*drop_radius; drop_radius strictly positive;
    MAXlevel >= MINlevel >= 2; the three tolerances strictly positive;
    tmax > 0; 0 < tsnap <= tmax. *)
Definition spec_valid (p : SimulationParams) : bool :=
  ((1000 <=? CaseNo p)%Z && (CaseNo p <=? 9999)%Z)
  && c_gt (We p) 0%float && c_gt (Ohd p) 0%float
  && c_gt (Ohs p) 0%float && c_gt (rho_ratio p) 0%float
  && c_gt (Ldomain p) (2.0 * drop_radius p)%float
  && c_gt (drop_radius p) 0%float
  && ((MAXlevel p >=? MINlevel p)%Z && (MINlevel p >=? 2)%Z)
  && (c_gt (fErr p) 0%float && c_gt (KErr p) 0%float
      && c_gt (VelErr p) 0%float)
  && c_gt (tmax p) 0%float
  && (c_lt 0%float (tsnap p) && c_le (tsnap p) (tmax p)).

(** The doubles [validate_params] compares are all numbers. *)
Definition compared_are_numbers (p : SimulationParams) : bool :=
  is_num (We p) && is_num (Ohd p) && is_num (Ohs p) && is_num (rho_ratio p)
  && is_num (Ldomain p) && is_num (2.0 * drop_radius p)%float
  && is_num (drop_radius p)
  && is_num (fErr p) && is_num (KErr p) && is_num (VelErr p)
  && is_num (tmax p) && is_num (tsnap p).

(** The tests of [validate_params] in the order of the source: whether the
    test clears [valid], its condition, and the message it prints. *)
Inductive severity : Type := Error | Warning.

Definition tests (p : SimulationParams) : list (severity * bool * msg) :=
  [ (Error, ((CaseNo p <? 1000) || (CaseNo p >? 9999))%Z,
      ErrCaseNo (CaseNo p));
    (Error, c_le (We p) 0%float, ErrWe (We p));
    (Error, c_le (Ohd p) 0%float, ErrOhd (Ohd p));
    (Error, c_le (Ohs p) 0%float, ErrOhs (Ohs p));
    (Error, c_le (rho_ratio p) 0%float, ErrRhoRatio (rho_ratio p));
    (Error, c_le (Ldomain p) (2.0 * drop_radius p)%float,
      ErrDomainTooSmall (Ldomain p));
    (Error, c_le (drop_radius p) 0%float, ErrDropRadius (drop_radius p));
    (Error, (MAXlevel p <? MINlevel p)%Z,
      ErrMaxBelowMin (MAXlevel p) (MINlevel p));
    (Warning, (MAXlevel p >? 15)%Z, WarnHighMaxLevel (MAXlevel p));
    (Error, (MINlevel p <? 2)%Z, ErrMinLevel (MINlevel p));
    (Error, c_le (fErr p) 0%float || c_le (KErr p) 0%float
              || c_le (VelErr p) 0%float, ErrTolerances);
    (Error, c_le (tmax p) 0%float, ErrTmax (tmax p));
    (Error, c_le (tsnap p) 0%float || c_gt (tsnap p) (tmax p),
      ErrTsnap (tsnap p) (tmax p)) ].

Definition passes (t : severity * bool * msg) : bool :=
  match t with
  | (Error, cond, _) => negb cond
  | (Warning, _, _) => true
  end.

Definition printed (t : severity * bool * msg) : list msg :=
  let '(_, cond, m) := t in if cond then [m] else [].

Lemma fail_if_fst cond m st :
  fst (fail_if cond m st) = negb cond && fst st.
Proof. unfold fail_if. destruct cond; reflexivity. Qed.

Lemma warn_if_fst cond m st : fst (warn_if cond m st) = fst st.
Proof. unfold warn_if. destruct cond; reflexivity. Qed.

Lemma fail_if_snd cond m st :
  snd (fail_if cond m st) = (snd st ++ if cond then [m] else [])%list.
Proof.
  unfold fail_if. destruct cond; simpl; [reflexivity|].
  now rewrite app_nil_r.
Qed.

Lemma warn_if_snd cond m st :
  snd (warn_if cond m st) = (snd st ++ if cond then [m] else [])%list.
Proof.
  unfold warn_if. destruct cond; simpl; [reflexivity|].
  now rewrite app_nil_r.
Qed.

(** The verdict is the conjunction of the tests: no test is skipped and
    none undoes another. *)
Lemma validate_params_verdict (p : SimulationParams) :
  fst (validate_params p) = forallb passes (tests p).
Proof.
  unfold validate_params.
  rewrite !fail_if_fst, warn_if_fst, !fail_if_fst.
  cbn [tests forallb passes fst]. btauto.
Qed.

(** The text printed is what the tests that fire print, each once, in the
    order of the source. *)
Lemma validate_params_messages (p : SimulationParams) :
  snd (validate_params p) = flat_map printed (tests p).
Proof.
  unfold validate_params.
  rewrite !fail_if_snd, warn_if_snd, !fail_if_snd.
  cbn [tests flat_map printed snd].
  rewrite app_nil_r, <- !app_assoc. reflexivity.
Qed.

(** Every test that fires has its message printed: the pass does not stop
    at the first failure. *)
Lemma validate_params_reports_all (p : SimulationParams)
  (sev : severity) (m : msg) :
  In (sev, true, m) (tests p) -> In m (snd (validate_params p)).
Proof.
  intros H. rewrite validate_params_messages.
  apply in_flat_map. exists (sev, true, m). split; [assumption|].
  simpl. now left.
Qed.

(** X2. A configuration that meets the invariants of the specification is
    reported valid, whatever its doubles are. *)
Lemma spec_valid_accepted (p : SimulationParams) :
  spec_valid p = true -> fst (validate_params p) = true.
Proof.
  unfold spec_valid. rewrite validate_params_verdict.
  cbn [tests forallb passes]. unfold c_gt.
  repeat rewrite andb_true_iff.
  intros H.
  repeat match goal with H : _ /\ _ |- _ => destruct H end.
  repeat match goal with
         | H : (?a <? ?b)%float = true |- _ =>
             apply (c_lt_not_le a b) in H; rewrite H
         end.
  match goal with
  | H : c_lt _ _ = true |- _ => apply c_lt_not_le in H; rewrite H
  end.
  match goal with
  | H : c_le (tsnap p) (tmax p) = true |- _ =>
      assert (Ht : c_lt (tmax p) (tsnap p) = false)
        by (destruct (c_lt (tmax p) (tsnap p)) eqn:F; [|reflexivity];
            apply c_lt_not_le in F; congruence)
  end.
  unfold c_lt in Ht. rewrite Ht. simpl.
  repeat split; apply negb_true_iff;
    try apply orb_false_iff; try split; lia.
Qed.

(** X1. On configurations whose compared doubles are numbers, the verdict is
    exactly the invariants of the specification. *)
Lemma validate_params_spec_on_numbers (p : SimulationParams) :
  compared_are_numbers p = true ->
  fst (validate_params p) = spec_valid p.
Proof.
  unfold compared_are_numbers. repeat rewrite andb_true_iff.
  intros H.
  repeat match goal with H : _ /\ _ |- _ => destruct H end.
  rewrite validate_params_verdict.
  unfold spec_valid. cbn [tests forallb passes].
  rewrite !negb_orb.
  rewrite !negb_c_le by (assumption || apply is_num_zero).
  rewrite (negb_c_gt (tsnap p) (tmax p)) by assumption.
  replace (negb (CaseNo p <? 1000)%Z) with (1000 <=? CaseNo p)%Z by lia.
  replace (negb (CaseNo p >? 9999)%Z) with (CaseNo p <=? 9999)%Z by lia.
  replace (negb (MAXlevel p <? MINlevel p)%Z)
    with (MAXlevel p >=? MINlevel p)%Z by lia.
  replace (negb (MINlevel p <? 2)%Z) with (MINlevel p >=? 2)%Z by lia.
  unfold c_gt, c_lt. btauto.
Qed.

(** *** The structured-file parser *)

(** The value of a field, by the name of its key. *)
Inductive field_value : Type :=
| IntV (n : Z)
| DblV (x : double)
| StrV (s : string).

Definition get_field (key : string) (p : SimulationParams)
  : option field_value :=
  if key =? "CaseNo" then Some (IntV (CaseNo p))
  else if key =? "We" then Some (DblV (We p))
  else if key =? "Ohd" then Some (DblV (Ohd p))
  else if key =? "Ohs" then Some (DblV (Ohs p))
  else if key =? "rho_ratio" then Some (DblV (rho_ratio p))
  else if key =? "Ldomain" then Some (DblV (Ldomain p))
  else if key =? "drop_x" then Some (DblV (drop_x p))
  else if key =? "drop_y" then Some (DblV (drop_y p))
  else if key =? "drop_radius" then Some (DblV (drop_radius p))
  else if key =? "impact_velocity" then Some (DblV (impact_velocity p))
  else if key =? "MAXlevel" then Some (IntV (MAXlevel p))
  else if key =? "MINlevel" then Some (IntV (MINlevel p))
  else if key =? "init_grid_level" then Some (IntV (init_grid_level p))
  else if key =? "fErr" then Some (DblV (fErr p))
  else if key =? "KErr" then Some (DblV (KErr p))
  else if key =? "VelErr" then Some (DblV (VelErr p))
  else if key =? "tmax" then Some (DblV (tmax p))
  else if key =? "tsnap" then Some (DblV (tsnap p))
  else if key =? "output_dir" then Some (StrV (output_dir p))
  else if key =? "log_interval" then Some (IntV (log_interval p))
  else if key =? "outflow_x_frac" then Some (DblV (outflow_x_frac p))
  else if key =? "outflow_y_max" then Some (DblV (outflow_y_max p))
  else None.

Definition recognized_keys : list string :=
  ["CaseNo"; "We"; "Ohd"; "Ohs";
   "rho_ratio"; "Ldomain"; "drop_x"; "drop_y";
   "drop_radius"; "impact_velocity"; "MAXlevel"; "MINlevel";
   "init_grid_level"; "fErr"; "KErr"; "VelErr";
   "tmax"; "tsnap"; "output_dir"; "log_interval";
   "outflow_x_frac"; "outflow_y_max"].

Section ParserProperties.

Variable atoi : string -> Z.
Variable atof : string -> double.

(** What the parser stores for a key: the text converted by [atoi] or
    [atof], or cut to the size of the buffer. *)
Definition convert (key value : string) : option field_value :=
  if key =? "CaseNo" then Some (IntV (atoi value))
  else if key =? "We" then Some (DblV (atof value))
  else if key =? "Ohd" then Some (DblV (atof value))
  else if key =? "Ohs" then Some (DblV (atof value))
  else if key =? "rho_ratio" then Some (DblV (atof value))
  else if key =? "Ldomain" then Some (DblV (atof value))
  else if key =? "drop_x" then Some (DblV (atof value))
  else if key =? "drop_y" then Some (DblV (atof value))
  else if key =? "drop_radius" then Some (DblV (atof value))
  else if key =? "impact_velocity" then Some (DblV (atof value))
  else if key =? "MAXlevel" then Some (IntV (atoi value))
  else if key =? "MINlevel" then Some (IntV (atoi value))
  else if key =? "init_grid_level" then Some (IntV (atoi value))
  else if key =? "fErr" then Some (DblV (atof value))
  else if key =? "KErr" then Some (DblV (atof value))
  else if key =? "VelErr" then Some (DblV (atof value))
  else if key =? "tmax" then Some (DblV (atof value))
  else if key =? "tsnap" then Some (DblV (atof value))
  else if key =? "output_dir" then Some (StrV (strncpy 255 value))
  else if key =? "log_interval" then Some (IntV (atoi value))
  else if key =? "outflow_x_frac" then Some (DblV (atof value))
  else if key =? "outflow_y_max" then Some (DblV (atof value))
  else None.

Lemma assign_recognized (key value : string) (n : Z) (p : SimulationParams) :
  In key recognized_keys ->
  exists fv,
    convert key value = Some fv /\
    get_field key (fst (assign atoi atof key value n p)) = Some fv /\
    snd (assign atoi atof key value n p) = [] /\
    forall k, k <> key ->
      get_field k (fst (assign atoi atof key value n p)) = get_field k p.
Proof.
  intros Hin. destruct p. unfold recognized_keys in Hin.
  repeat (destruct Hin as [<-|Hin];
    [ eexists; split; [reflexivity|]; split; [reflexivity|];
      split; [reflexivity|];
      intros k Hk; unfold get_field; cbn;
      repeat match goal with
        | |- context [if (k =? ?lit) then _ else _] =>
            destruct (String.eqb_spec k lit); [congruence || reflexivity|]
        end; reflexivity
    | ]).
  contradiction.
Qed.

Lemma assign_unrecognized (key value : string) (n : Z) (p : SimulationParams) :
  ~ In key recognized_keys ->
  assign atoi atof key value n p = (p, [WarnUnknownParameter key n]).
Proof.
  intros Hnot. unfold assign.
  repeat match goal with
    | |- context [if (key =? ?lit) then _ else _] =>
        destruct (String.eqb_spec key lit);
          [ exfalso; apply Hnot; subst key; unfold recognized_keys;
            simpl; tauto | ]
    end.
  reflexivity.
Qed.

(** A record cut after a ['#'] is read as the record without the cut. *)
Lemma process_line_comment (st : parse_state) (a b : string) :
  process_line atoi atof st (a ++ String "#" b) = process_line atoi atof st a.
Proof.
  unfold process_line, split_key_value, strip_comment.
  now rewrite split_at_app_fst.
Qed.

(** A record without ['='] changes nothing and prints nothing. *)
Lemma process_line_no_equal (st : parse_state) (line : string) :
  contains "=" (strip_comment line) = false ->
  process_line atoi atof st line
  = mkParse (ps_params st) (ps_stderr st) (ps_line_num st + 1).
Proof.
  intros H. unfold process_line, split_key_value.
  apply contains_skip_space in H.
  destruct (skip_space (strip_comment line)) as [|c r]; [reflexivity|].
  now rewrite (split_at_absent _ _ H).
Qed.

(** The shape [key = value]: white space around a tight key and a tight
    value, the key not empty, without ['='], ['#'] or NUL, the value without
    ['#'] or NUL. *)
Definition key_text (key : string) : bool :=
  negb (key =? "") && tight key
  && negb (contains "=" key) && negb (contains "#" key)
  && negb (contains NUL key).

Definition value_text (value : string) : bool :=
  tight value && negb (contains "#" value) && negb (contains NUL value).

Lemma split_key_value_pair (w1 key w2 w3 value w4 : string) :
  all_space w1 = true -> all_space w2 = true ->
  all_space w3 = true -> all_space w4 = true ->
  key_text key = true -> value_text value = true ->
  split_key_value (w1 ++ key ++ w2 ++ "=" ++ w3 ++ value ++ w4)
  = Some (key, value).
Proof.
  intros H1 H2 H3 H4 Hk Hv.
  unfold key_text in Hk. unfold value_text in Hv.
  repeat rewrite andb_true_iff in Hk. repeat rewrite andb_true_iff in Hv.
  destruct Hk as ((((Hne & Hkt) & Hkeq) & Hkhash) & Hknul).
  destruct Hv as ((Hvt & Hvhash) & Hvnul).
  apply negb_true_iff in Hkeq, Hkhash, Hknul, Hvhash, Hvnul.
  assert (Hs : forall c w, isspace c = false -> all_space w = true ->
                           contains c w = false)
    by (intros; now apply all_space_contains).
  unfold split_key_value, strip_comment.
  rewrite c_str_id.
  2:{ rewrite !contains_app. simpl.
      rewrite Hknul, Hvnul, !Hs by (assumption || reflexivity).
      reflexivity. }
  rewrite split_at_absent.
  2:{ rewrite !contains_app. simpl.
      rewrite Hkhash, Hvhash, !Hs by (assumption || reflexivity).
      reflexivity. }
  simpl fst. rewrite skip_space_app by assumption.
  destruct key as [|c r]; [discriminate|].
  assert (Hc : isspace c = false).
  { simpl in Hkt. apply andb_true_iff in Hkt. destruct Hkt as [Hc _].
    now apply negb_true_iff in Hc. }
  cbn [append skip_space]. rewrite Hc.
  replace (String c (r ++ w2 ++ String "=" (w3 ++ value ++ w4)))
    with ((String c r ++ w2) ++ String "=" (w3 ++ value ++ w4))
    by (simpl; now rewrite append_assoc).
  rewrite split_at_app.
  2:{ rewrite contains_app, Hkeq, Hs by (assumption || reflexivity).
      reflexivity. }
  rewrite rtrim_tight by assumption.
  now rewrite trim_tight.
Qed.

(** The parser the specification words: the same turn of the loop on each
    physical line of the file. *)
Definition parse_params_by_lines (fs : OS.filesystem) (filename : string)
  (p : SimulationParams) : Z * SimulationParams * list msg :=
  match OS.fopen_read fs filename with
  | None => ((-1)%Z, p, [ErrCannotOpenParamFile filename])
  | Some content =>
      let st := fold_left (process_line atoi atof) (lines content)
                  (mkParse (set_default_params p) [] 0%Z) in
      (0%Z, ps_params st, ps_stderr st)
  end.

Lemma parse_params_short_lines (fs : OS.filesystem) (filename : string)
  (p : SimulationParams) :
  (forall content l, OS.fopen_read fs filename = Some content ->
     In l (lines content) -> (String.length l <= 511)%nat) ->
  parse_params_from_file atoi atof fs filename p
  = parse_params_by_lines fs filename p.
Proof.
  intros H. unfold parse_params_from_file, parse_params_by_lines.
  destruct (OS.fopen_read fs filename) as [content|] eqn:E; [|reflexivity].
  rewrite fgets_records_lines; [reflexivity|lia|].
  intros l Hl. simpl. now apply (H content).
Qed.

Lemma process_line_recognized (st : parse_state)
  (w1 key w2 w3 value w4 : string) :
  all_space w1 = true -> all_space w2 = true ->
  all_space w3 = true -> all_space w4 = true ->
  key_text key = true -> value_text value = true ->
  In key recognized_keys ->
  let st' := process_line atoi atof st
               (w1 ++ key ++ w2 ++ "=" ++ w3 ++ value ++ w4) in
  get_field key (ps_params st') = convert key value /\
  (forall k, k <> key ->
     get_field k (ps_params st') = get_field k (ps_params st)) /\
  ps_stderr st' = ps_stderr st.
Proof.
  intros H1 H2 H3 H4 Hk Hv Hin st'. subst st'. unfold process_line.
  rewrite split_key_value_pair by assumption.
  destruct (assign_recognized key value (ps_line_num st + 1) (ps_params st) Hin)
    as (fv & Hconv & Hget & Hout & Hother).
  destruct (assign atoi atof key value (ps_line_num st + 1) (ps_params st))
    as [p' out]. simpl in *. subst out.
  repeat split; [congruence|assumption|apply app_nil_r].
Qed.

Lemma process_line_unrecognized (st : parse_state)
  (w1 key w2 w3 value w4 : string) :
  all_space w1 = true -> all_space w2 = true ->
  all_space w3 = true -> all_space w4 = true ->
  key_text key = true -> value_text value = true ->
  ~ In key recognized_keys ->
  process_line atoi atof st (w1 ++ key ++ w2 ++ "=" ++ w3 ++ value ++ w4)
  = mkParse (ps_params st)
      (ps_stderr st ++ [WarnUnknownParameter key (ps_line_num st + 1)])
      (ps_line_num st + 1).
Proof.
  intros H1 H2 H3 H4 Hk Hv Hnot. unfold process_line.
  rewrite split_key_value_pair by assumption.
  now rewrite assign_unrecognized.
Qed.

(** Whatever a record holds, the turn of the loop counts it and does one of
    three things: nothing; or store the value of a recognized key, in
    silence; or warn of an unknown key. *)
Lemma process_line_cases (st : parse_state) (line : string) :
  let st' := process_line atoi atof st line in
  ps_line_num st' = (ps_line_num st + 1)%Z /\
  ((split_key_value line = None /\
    ps_params st' = ps_params st /\ ps_stderr st' = ps_stderr st)
   \/ (exists key value,
         split_key_value line = Some (key, value) /\
         In key recognized_keys /\
         get_field key (ps_params st') = convert key value /\
         (forall k, k <> key ->
            get_field k (ps_params st') = get_field k (ps_params st)) /\
         ps_stderr st' = ps_stderr st)
   \/ (exists key value,
         split_key_value line = Some (key, value) /\
         ~ In key recognized_keys /\
         ps_params st' = ps_params st /\
         ps_stderr st'
         = (ps_stderr st
              ++ [WarnUnknownParameter key (ps_line_num st + 1)])%list)).
Proof.
  intros st'. subst st'. unfold process_line.
  destruct (split_key_value line) as [[key value]|].
  - destruct (in_dec string_dec key recognized_keys) as [Hin|Hnot].
    + destruct (assign_recognized key value (ps_line_num st + 1)
                  (ps_params st) Hin) as (fv & Hconv & Hget & Hout & Hother).
      destruct (assign atoi atof key value (ps_line_num st + 1) (ps_params st))
        as [p' out]. simpl in *. subst out.
      split; [reflexivity|]. right. left. exists key, value.
      repeat split; [assumption|congruence|assumption|apply app_nil_r].
    + rewrite assign_unrecognized by assumption.
      split; [reflexivity|]. right. right. exists key, value.
      repeat split. assumption.
  - split; [reflexivity|]. left. repeat split.
Qed.

End ParserProperties.

(** The parser, record by record. [parse_params_from_file] returns -1 exactly
    when the file cannot be opened, and then leaves the parameters alone;
    it returns 0 for every file it can open, whatever the file holds. It
    starts from the defaults and takes the file in the records [fgets]
    returns for a buffer of 512 bytes, which are the lines of the file when
    no line is longer than 511 bytes. On each record: what follows a ['#']
    is dropped; a record without ['='] changes nothing and prints nothing;
    whatever the record holds, it changes nothing, or stores the value of
    one recognized key in silence, or prints one warning of an unknown key;
    a record [key = value] with a recognized key stores the converted value
    in the field of that name, leaves the other fields alone and prints
    nothing; with any other key it leaves the parameters alone and prints
    one warning. *)
Lemma parse_params_from_file_records
  (atoi : string -> Z) (atof : string -> double) :
  (forall fs filename p,
     let r := parse_params_from_file atoi atof fs filename p in
     (fst (fst r) = (-1)%Z <-> OS.fopen_read fs filename = None) /\
     (fst (fst r) = 0%Z <-> OS.fopen_read fs filename <> None) /\
     (OS.fopen_read fs filename = None -> snd (fst r) = p)) /\
  (forall fs filename p content,
     OS.fopen_read fs filename = Some content ->
     let st := fold_left (process_line atoi atof) (fgets_records 512 content)
                 (mkParse default_params [] 0%Z) in
     parse_params_from_file atoi atof fs filename p
     = (0%Z, ps_params st, ps_stderr st)) /\
  (forall content,
     (forall l, In l (lines content) -> (String.length l <= 511)%nat) ->
     fgets_records 512 content = lines content) /\
  (forall st a b,
     process_line atoi atof st (a ++ String "#" b)
     = process_line atoi atof st a) /\
  (forall st line,
     contains "=" (strip_comment line) = false ->
     process_line atoi atof st line
     = mkParse (ps_params st) (ps_stderr st) (ps_line_num st + 1)) /\
  (forall st line,
     let st' := process_line atoi atof st line in
     (ps_params st' = ps_params st /\ ps_stderr st' = ps_stderr st)
     \/ (exists key value,
           In key recognized_keys /\
           get_field key (ps_params st') = convert atoi atof key value /\
           (forall k, k <> key ->
              get_field k (ps_params st') = get_field k (ps_params st)) /\
           ps_stderr st' = ps_stderr st)
     \/ (exists key,
           ~ In key recognized_keys /\
           ps_params st' = ps_params st /\
           ps_stderr st'
           = (ps_stderr st
                ++ [WarnUnknownParameter key (ps_line_num st + 1)])%list)) /\
  (forall st w1 key w2 w3 value w4,
     all_space w1 = true -> all_space w2 = true ->
     all_space w3 = true -> all_space w4 = true ->
     key_text key = true -> value_text value = true ->
     let st' := process_line atoi atof st
                  (w1 ++ key ++ w2 ++ "=" ++ w3 ++ value ++ w4) in
     (In key recognized_keys ->
        get_field key (ps_params st') = convert atoi atof key value /\
        (forall k, k <> key ->
           get_field k (ps_params st') = get_field k (ps_params st)) /\
        ps_stderr st' = ps_stderr st) /\
     (~ In key recognized_keys ->
        ps_params st' = ps_params st /\
        ps_stderr st'
        = (ps_stderr st
             ++ [WarnUnknownParameter key (ps_line_num st + 1)])%list)).
Proof.
  repeat apply conj.
  - intros fs filename p r. subst r. unfold parse_params_from_file.
    destruct (OS.fopen_read fs filename); simpl;
      repeat split; intros; congruence.
  - intros fs filename p content H. unfold parse_params_from_file.
    now rewrite H.
  - intros content H. apply fgets_records_lines; [lia|exact H].
  - apply process_line_comment.
  - apply process_line_no_equal.
  - intros st line st'. subst st'.
    destruct (process_line_cases atoi atof st line)
      as (_ & [(_ & Hp & He)|[(key & value & _ & H)|(key & value & _ & H)]]).
    + now left.
    + right. left. now exists key, value.
    + right. right. now exists key.
  - intros st w1 key w2 w3 value w4 H1 H2 H3 H4 Hk Hv st'. split.
    + intros Hin. now apply process_line_recognized.
    + intros Hnot. subst st'.
      rewrite process_line_unrecognized by assumption. now split.
Qed.

(** A readable file, and the run of the parser on it: a comment, a blank
    line, a recognized key, an unknown key and a line without ['=']. *)
Definition sample_file : string :=
  "# drop impact" ++ String newline
  ("" ++ String newline
  ("  We = 25   # Weber number" ++ String newline
  ("colour=blue" ++ String newline
  ("tmax 3" ++ String newline "")))).

Example parse_sample_file (atoi : string -> Z) (atof : string -> double)
  (p : SimulationParams) :
  parse_params_from_file atoi atof (OS.fs_with_file "case.params" sample_file)
    "case.params" p
  = (0%Z, set_We (atof "25") default_params,
     [WarnUnknownParameter "colour" 4]).
Proof. reflexivity. Qed.

Example parse_record_with_blanks :
  let atoi := fun _ : string => 0%Z in
  let atof := fun _ : string => 25.0%float in
  let st := mkParse default_params [] 0%Z in
  let st' := process_line atoi atof st "  We = 25  " in
  In "We" recognized_keys /\
  get_field "We" (ps_params st') = Some (DblV 25.0%float) /\
  ps_stderr st' = [].
Proof.
  intros atoi atof st st'.
  destruct (parse_params_from_file_records atoi atof)
    as (_ & _ & _ & _ & _ & _ & Hpair).
  assert (Hin : In "We" recognized_keys) by (cbn; tauto).
  destruct (Hpair st "  " "We" " " " " "25" "  "
              eq_refl eq_refl eq_refl eq_refl eq_refl eq_refl)
    as [Hrec _].
  destruct (Hrec Hin) as (Hget & _ & Herr).
  split; [exact Hin|]. split; [exact Hget|exact Herr].
Defined.

(** A NaN reaches the validation from a parameter file: [atof] converts the
    text [nan] to a NaN, and the configuration read is reported valid. *)
Lemma nan_weber_from_file (atoi : string -> Z) (atof : string -> double) :
  atof "nan" = nan ->
  let r := parse_params_from_file atoi atof
             (OS.fs_with_file "case.params" ("We=nan" ++ String newline ""))
             "case.params" zero_params in
  r = (0%Z, set_We nan default_params, []) /\
  validate_params (snd (fst r)) = (true, []).
Proof.
  intros H r. subst r.
  assert (E : parse_params_from_file atoi atof
                (OS.fs_with_file "case.params" ("We=nan" ++ String newline ""))
                "case.params" zero_params
              = (0%Z, set_We (atof "nan") default_params, []))
    by reflexivity.
  rewrite E, H. split; reflexivity.
Qed.

(** A parameter file of one line, of 516 bytes, that is a comment from its
    first character on: ['#'], 510 times ['x'], then [We=5] and the
    newline. *)
Definition long_comment_line : string :=
  String "#" (replicate 510 "x") ++ "We=5" ++ String newline "".

(** C3. The parser does not strip what follows a ['#'] on every line: on a
    comment line longer than the buffer of 512 bytes, the end of the comment
    is read as a setting. The file [long_comment_line] is one line, a
    comment as a whole, and read line by line it leaves every default. But
    [fgets] returns its first 511 bytes, and then the rest, [We=5], as a
    record of its own that no ['#'] precedes any more: the parser returns
    0, prints nothing, and [We] is no longer the default 10 but what [atof]
    makes of [5]. With an unknown key in that place ([oops=1]) it prints
    the warning of an unknown parameter for a line that is a comment. *)
Theorem parse_params_from_file_long_comment
  (atoi : string -> Z) (atof : string -> double) (p : SimulationParams) :
  let fs := OS.fs_with_file "case.params" long_comment_line in
  let oops := String "#" (replicate 510 "x") ++ "oops=1" ++ String newline "" in
  lines long_comment_line = [long_comment_line] /\
  strip_comment long_comment_line = "" /\
  parse_params_by_lines atoi atof fs "case.params" p
  = (0%Z, default_params, []) /\
  fgets_records 512 long_comment_line
  = [String "#" (replicate 510 "x"); "We=5" ++ String newline ""] /\
  parse_params_from_file atoi atof fs "case.params" p
  = (0%Z, set_We (atof "5") default_params, []) /\
  We default_params = 10.0%float /\
  parse_params_from_file atoi atof (OS.fs_with_file "case.params" oops)
    "case.params" p
  = (0%Z, default_params, [WarnUnknownParameter "oops" 2]).
Proof.
  intros fs oops. repeat split; vm_compute; reflexivity.
Qed.

(** *** The legacy positional parser *)

(** The scenario of the specification: the legacy token list, and the
    structured file that sets the same six parameters. *)
Definition legacy_tokens : list string :=
  ["prog"; "10"; "4.0"; "10"; "5e-3"; "1e-5"; "8"].

Definition parity_file : string :=
  "MAXlevel=10" ++ String newline
  ("tmax=4.0" ++ String newline
  ("We=10" ++ String newline
  ("Ohd=5e-3" ++ String newline
  ("Ohs=1e-5" ++ String newline
  ("Ldomain=8" ++ String newline ""))))).

(** C8. The legacy token list and the structured file that sets
    MAXlevel=10, tmax=4.0, We=10, Ohd=5e-3, Ohs=1e-5, Ldomain=8 parse to
    the same result: both calls return 0, print nothing and leave the same
    structure, the six parameters converted from the same texts and every
    other field at its default. *)
Theorem cli_file_parity (atoi : string -> Z) (atof : string -> double)
  (p q : SimulationParams) :
  parse_params_from_cli atoi atof legacy_tokens p
  = parse_params_from_file atoi atof
      (OS.fs_with_file "case.params" parity_file) "case.params" q
  /\ parse_params_from_cli atoi atof legacy_tokens p
     = (0%Z,
        set_Ldomain (atof "8") (set_Ohs (atof "1e-5") (set_Ohd (atof "5e-3")
          (set_We (atof "10") (set_tmax (atof "4.0")
            (set_MAXlevel (atoi "10") default_params))))),
        []).
Proof. split; reflexivity. Qed.

(** C9. A successful legacy parse changes only the fields that a positional
    argument addresses. The thirteen fields that no argument addresses are
    at their defaults; and so is each of [drop_x], [drop_y] and
    [impact_velocity] when its argument, the eighth, ninth or tenth token,
    is not there. *)
Theorem parse_params_from_cli_frame (atoi : string -> Z)
  (atof : string -> double) (argv : list string) (p : SimulationParams) :
  fst (fst (parse_params_from_cli atoi atof argv p)) = 0%Z ->
  let p' := snd (fst (parse_params_from_cli atoi atof argv p)) in
  (CaseNo p' = 1000%Z /\ rho_ratio p' = 1.0e-3%float /\
   drop_radius p' = 1.0%float /\ MINlevel p' = 4%Z /\
   init_grid_level p' = 6%Z /\ fErr p' = 1.0e-3%float /\
   KErr p' = 1.0e-6%float /\ VelErr p' = 1.0e-2%float /\
   tsnap p' = 0.01%float /\ output_dir p' = "results" /\
   log_interval p' = 1%Z /\ outflow_x_frac p' = 0.95%float /\
   outflow_y_max p' = 4.0%float) /\
  ((List.length argv <= 7)%nat -> drop_x p' = 1.5%float) /\
  ((List.length argv <= 8)%nat -> drop_y p' = 1.0%float) /\
  ((List.length argv <= 9)%nat -> impact_velocity p' = (-1.0)%float).
Proof.
  intros _ p'. subst p'. unfold parse_params_from_cli.
  destruct (Z.of_nat (List.length argv) <? 7)%Z;
    [cbn; repeat split|].
  destruct (Z.gtb_spec (Z.of_nat (List.length argv)) 7),
    (Z.gtb_spec (Z.of_nat (List.length argv)) 8),
    (Z.gtb_spec (Z.of_nat (List.length argv)) 9);
    cbn; repeat split; intros; lia.
Qed.

Lemma parse_params_from_cli_frame_witness :
  let atoi := fun _ : string => 10%Z in
  let atof := fun _ : string => 4.0%float in
  let argv := (legacy_tokens ++ ["2.5"%string])%list in
  let p' := snd (fst (parse_params_from_cli atoi atof argv zero_params)) in
  fst (fst (parse_params_from_cli atoi atof argv zero_params)) = 0%Z /\
  CaseNo p' = 1000%Z /\ rho_ratio p' = 1.0e-3%float /\
  drop_radius p' = 1.0%float /\ MINlevel p' = 4%Z /\
  init_grid_level p' = 6%Z /\ fErr p' = 1.0e-3%float /\
  KErr p' = 1.0e-6%float /\ VelErr p' = 1.0e-2%float /\
  tsnap p' = 0.01%float /\ output_dir p' = "results" /\
  log_interval p' = 1%Z /\ outflow_x_frac p' = 0.95%float /\
  outflow_y_max p' = 4.0%float /\
  drop_x p' = 4.0%float /\
  drop_y p' = 1.0%float /\ impact_velocity p' = (-1.0)%float.
Proof.
  intros atoi atof argv.
  destruct (parse_params_from_cli_frame atoi atof argv zero_params eq_refl)
    as ((H1 & H2 & H3 & H4 & H5 & H6 & H7 & H8 & H9 & H10 & H11 & H12 & H13)
        & _ & Hy & Hv).
  cbn zeta.
  split; [reflexivity|].
  split; [exact H1|]. split; [exact H2|]. split; [exact H3|].
  split; [exact H4|]. split; [exact H5|]. split; [exact H6|].
  split; [exact H7|]. split; [exact H8|]. split; [exact H9|].
  split; [exact H10|]. split; [exact H11|]. split; [exact H12|].
  split; [exact H13|].
  split; [reflexivity|].
  split; [apply Hy; cbn; lia|apply Hv; cbn; lia].
Defined.

(** X6. What the parser does change: the addressed fields hold the converted
    arguments, the optional ones only when the argument is present. *)
Lemma parse_params_from_cli_addressed (atoi : string -> Z)
  (atof : string -> double) (argv : list string) (p : SimulationParams) :
  fst (fst (parse_params_from_cli atoi atof argv p)) = 0%Z ->
  let p' := snd (fst (parse_params_from_cli atoi atof argv p)) in
  let argc := Z.of_nat (List.length argv) in
  let arg i := nth i argv "" in
  (7 <= argc)%Z /\
  MAXlevel p' = atoi (arg 1%nat) /\ tmax p' = atof (arg 2%nat) /\
  We p' = atof (arg 3%nat) /\ Ohd p' = atof (arg 4%nat) /\
  Ohs p' = atof (arg 5%nat) /\ Ldomain p' = atof (arg 6%nat) /\
  drop_x p' = (if (argc >? 7)%Z then atof (arg 7%nat) else 1.5%float) /\
  drop_y p' = (if (argc >? 8)%Z then atof (arg 8%nat) else 1.0%float) /\
  impact_velocity p'
  = (if (argc >? 9)%Z then atof (arg 9%nat) else (-1.0)%float).
Proof.
  unfold parse_params_from_cli.
  destruct (Z.of_nat (List.length argv) <? 7)%Z eqn:E;
    [cbn; discriminate|].
  intros _.
  destruct (Z.of_nat (List.length argv) >? 7)%Z,
    (Z.of_nat (List.length argv) >? 8)%Z,
    (Z.of_nat (List.length argv) >? 9)%Z; cbn; repeat split; lia.
Qed.

(** The scenario of the specification: the default configuration is valid;
    with [Ldomain = 1.5] and the same [drop_radius = 1] it fails, with the
    message of the domain size and no other. *)
Example validate_params_scenario :
  validate_params default_params = (true, []) /\
  validate_params (set_Ldomain 1.5%float default_params)
  = (false, [ErrDomainTooSmall 1.5%float]).
Proof. split; reflexivity. Qed.

(** Several violations at once: each is reported, in the order of the
    tests. *)
Example validate_params_collects :
  validate_params
    (set_tsnap 5.0%float (set_MINlevel 1 (set_We (-1.0)%float default_params)))
  = (false, [ErrWe (-1.0)%float; ErrMinLevel 1; ErrTsnap 5.0%float 4.0%float]).
Proof. reflexivity. Qed.

(** C2. The specification has [validate] report a configuration valid if
    and only if (among the other invariants) We, Ohd, Ohs and rho_ratio are
    strictly positive. The tests of the source are of the form [x <= 0],
    which is false of a NaN: the default configuration with a NaN Weber
    number is reported valid, without any message, although the invariants
    of the specification do not hold of it. *)
Theorem validate_params_accepts_nan :
  let p := set_We nan default_params in
  validate_params p = (true, []) /\ spec_valid p = false
  /\ c_gt (We p) 0%float = false.
Proof. vm_compute. repeat split. Qed.

(** *** What the validation prints, and what it does not look at *)

Lemma validate_params_spec_on_numbers_witness :
  let p := set_Ldomain 1.5%float default_params in
  compared_are_numbers p = true /\
  fst (validate_params p) = spec_valid p /\ spec_valid p = false.
Proof.
  intros p. split; [reflexivity|]. split; [|reflexivity].
  apply (validate_params_spec_on_numbers p). reflexivity.
Defined.

Lemma spec_valid_accepted_witness :
  spec_valid default_params = true /\
  fst (validate_params default_params) = true.
Proof.
  split; [reflexivity|].
  apply (spec_valid_accepted default_params). reflexivity.
Defined.

(** The messages printed as [ERROR]. *)
Definition is_error (m : msg) : bool :=
  match m with
  | WarnUnknownParameter _ _ | UsageRequired | UsageOptional
  | WarnHighMaxLevel _ | WarnCannotCreateDir _ | InfoCreatedDir _
  | ParamsSummary _ => false
  | _ => true
  end.

(** [valid] is clear exactly when an [ERROR] has been printed. *)
Definition explained (st : bool * list msg) : Prop :=
  fst st = negb (existsb is_error (snd st)).

Lemma fail_if_explained (cond : bool) (m : msg) (st : bool * list msg) :
  is_error m = true -> explained st -> explained (fail_if cond m st).
Proof.
  unfold explained, fail_if. intros Hm Hst.
  destruct cond; [|assumption]. cbn [fst snd].
  now rewrite existsb_app, (orb_comm _ (existsb is_error [m])); cbn; rewrite Hm.
Qed.

Lemma warn_if_explained (cond : bool) (m : msg) (st : bool * list msg) :
  is_error m = false -> explained st -> explained (warn_if cond m st).
Proof.
  unfold explained, warn_if. intros Hm Hst.
  destruct cond; [|assumption]. cbn [fst snd].
  rewrite existsb_app. cbn. now rewrite Hm, !orb_false_r.
Qed.

(** X3. [validate_params] reports a configuration invalid exactly when it
    has printed an [ERROR]: no failure is silent and no error is printed for
    a configuration reported valid. The only other text it prints is the
    warning of a high [MAXlevel], printed exactly when [MAXlevel > 15], which
    does not change the verdict. *)
Theorem validate_params_failure_explained (p : SimulationParams) :
  fst (validate_params p)
  = negb (existsb is_error (snd (validate_params p)))
  /\ (forall m, In m (snd (validate_params p)) -> is_error m = false ->
        m = WarnHighMaxLevel (MAXlevel p) /\ (15 < MAXlevel p)%Z)
  /\ ((15 < MAXlevel p)%Z ->
      In (WarnHighMaxLevel (MAXlevel p)) (snd (validate_params p))).
Proof.
  repeat apply conj.
  - change (explained (validate_params p)). unfold validate_params.
    repeat first [ apply fail_if_explained; [reflexivity|]
                 | apply warn_if_explained; [reflexivity|] ].
    reflexivity.
  - intros m Hin Hm. rewrite validate_params_messages in Hin.
    apply in_flat_map in Hin. destruct Hin as (t & Ht & Hin).
    unfold tests in Ht. cbn [In] in Ht.
    repeat (destruct Ht as [<-|Ht];
      [ cbn [printed] in Hin;
        match type of Hin with
        | In _ (if ?c then _ else _) => destruct c eqn:E
        end;
        [ destruct Hin as [<-|[]]; cbn in Hm;
          first [discriminate Hm | split; [reflexivity|lia]]
        | destruct Hin ] | ]).
    destruct Ht.
  - intros H. apply (validate_params_reports_all p Warning).
    unfold tests. replace (MAXlevel p >? 15)%Z with true by lia.
    cbn [In]. tauto.
Qed.

(** X4. [validate_params] does not look at the position of the drop, the
    impact velocity, the level of the initial grid, the logging interval,
    the output directory or the two outflow bounds: whatever they hold, the
    verdict and the text printed are the same. *)
Theorem validate_params_unchecked_fields (p : SimulationParams)
  (x y v fx fy : double) (lvl n : Z) (dir : string) :
  validate_params
    (set_drop_x x (set_drop_y y (set_impact_velocity v
      (set_init_grid_level lvl (set_log_interval n (set_output_dir dir
        (set_outflow_x_frac fx (set_outflow_y_max fy p))))))))
  = validate_params p.
Proof. destruct p. reflexivity. Qed.

(** *** The legacy parser: too few arguments *)

(** X5. [parse_params_from_cli] returns -1 exactly when there are fewer
    than seven tokens (the program name and six arguments), and 0 otherwise.
    When it fails it has already reset the structure: the caller finds the
    defaults, not what the structure held before, and the three lines of
    usage on [stderr]. When it succeeds it prints nothing. *)
Theorem parse_params_from_cli_insufficient (atoi : string -> Z)
  (atof : string -> double) (argv : list string) (p : SimulationParams) :
  let r := parse_params_from_cli atoi atof argv p in
  (fst (fst r) = (-1)%Z <-> (List.length argv < 7)%nat) /\
  (fst (fst r) = 0%Z <-> (7 <= List.length argv)%nat) /\
  ((List.length argv < 7)%nat ->
   r = ((-1)%Z, default_params,
        [ErrInsufficientArgs; UsageRequired; UsageOptional])) /\
  ((7 <= List.length argv)%nat -> snd r = []).
Proof.
  intros r. subst r. unfold parse_params_from_cli.
  destruct (Z.ltb_spec (Z.of_nat (List.length argv)) 7) as [H|H]; cbn.
  - repeat split; intros; try reflexivity; try lia; discriminate.
  - repeat split; intros; try reflexivity; try lia; discriminate.
Qed.

(** The fields after a successful legacy parse that the events read. *)
Lemma parse_params_from_cli_fields (atoi : string -> Z)
  (atof : string -> double) (argv : list string) (p : SimulationParams) :
  (7 <= List.length argv)%nat ->
  let p' := snd (fst (parse_params_from_cli atoi atof argv p)) in
  let arg i := nth i argv "" in
  MAXlevel p' = atoi (arg 1%nat) /\ tmax p' = atof (arg 2%nat) /\
  We p' = atof (arg 3%nat) /\ Ohd p' = atof (arg 4%nat) /\
  Ohs p' = atof (arg 5%nat) /\ Ldomain p' = atof (arg 6%nat) /\
  rho_ratio p' = 1.0e-3%float /\ MINlevel p' = 4%Z /\
  init_grid_level p' = 6%Z /\ fErr p' = 1.0e-3%float /\
  KErr p' = 1.0e-6%float /\ VelErr p' = 1.0e-2%float /\
  outflow_x_frac p' = 0.95%float /\ outflow_y_max p' = 4.0%float.
Proof.
  intros Hlen. unfold parse_params_from_cli.
  destruct (Z.ltb_spec (Z.of_nat (List.length argv)) 7) as [E|_]; [lia|].
  destruct (Z.of_nat (List.length argv) >? 7)%Z,
    (Z.of_nat (List.length argv) >? 8)%Z,
    (Z.of_nat (List.length argv) >? 9)%Z; cbn; repeat split.
Qed.

Lemma parse_params_from_cli_addressed_witness :
  let atoi := fun _ : string => 10%Z in
  let atof := fun s : string => if s =? "2.5" then 2.5%float else 4.0%float in
  let p' := snd (fst (parse_params_from_cli atoi atof
                        (legacy_tokens ++ ["2.5"])%list zero_params)) in
  MAXlevel p' = 10%Z /\ drop_x p' = 2.5%float /\ drop_y p' = 1.0%float.
Proof.
  intros atoi atof p'.
  destruct (parse_params_from_cli_addressed atoi atof
              (legacy_tokens ++ ["2.5"])%list zero_params eq_refl)
    as (_ & Hmax & _ & _ & _ & _ & _ & Hx & Hy & _).
  split; [exact Hmax|]. split; [exact Hx|exact Hy].
Defined.

(** *** The structured parser: the order of the records *)

Section ParserOrder.

Variable atoi : string -> Z.
Variable atof : string -> double.

(** Records that do not name a key leave its field alone. *)
Lemma fold_process_line_frame (k : string) (records : list string) :
  (forall r key value, In r records ->
     split_key_value r = Some (key, value) -> key <> k) ->
  forall st,
    get_field k (ps_params (fold_left (process_line atoi atof) records st))
    = get_field k (ps_params st).
Proof.
  induction records as [|r rs IH]; intros H st; [reflexivity|].
  cbn [fold_left].
  rewrite IH by (intros r' key value Hin; apply (H r' key value); now right).
  destruct (process_line_cases atoi atof st r)
    as (_ & [(_ & Hp & _)
            |[(key & value & Hs & _ & _ & Hother & _)
             |(key & value & _ & _ & Hp & _)]]).
  - now rewrite Hp.
  - apply Hother. intros ->.
    now apply (H r key value (or_introl eq_refl) Hs).
  - now rewrite Hp.
Qed.

(** X7. When a key is given more than once in a parameter file, the last
    record that names it decides: after the call, the field holds the value
    of that record, converted, whatever the records before it held. *)
Theorem parse_params_from_file_last_record_wins (fs : OS.filesystem)
  (filename : string) (p : SimulationParams) (content : string)
  (pre post : list string) (r k v : string) :
  OS.fopen_read fs filename = Some content ->
  fgets_records 512 content = (pre ++ r :: post)%list ->
  split_key_value r = Some (k, v) ->
  In k recognized_keys ->
  (forall r' key value, In r' post ->
     split_key_value r' = Some (key, value) -> key <> k) ->
  get_field k (snd (fst (parse_params_from_file atoi atof fs filename p)))
  = convert atoi atof k v.
Proof.
  intros Hopen Hrec Hsplit Hin Hpost.
  unfold parse_params_from_file. rewrite Hopen, Hrec. cbn [fst snd].
  rewrite fold_left_app. cbn [fold_left].
  rewrite fold_process_line_frame by exact Hpost.
  set (st := fold_left (process_line atoi atof) pre _).
  destruct (process_line_cases atoi atof st r)
    as (_ & [(Hnone & _)
            |[(key & value & Hs & _ & Hget & _)
             |(key & value & Hs & Hnot & _)]]).
  - congruence.
  - rewrite Hsplit in Hs. injection Hs as <- <-. exact Hget.
  - rewrite Hsplit in Hs. injection Hs as <- <-. contradiction.
Qed.

(** X8. A key that no record of the parameter file names keeps its
    default, whatever the caller's structure held. *)
Theorem parse_params_from_file_unmentioned_default (fs : OS.filesystem)
  (filename : string) (p : SimulationParams) (content : string) (k : string) :
  OS.fopen_read fs filename = Some content ->
  (forall r key value, In r (fgets_records 512 content) ->
     split_key_value r = Some (key, value) -> key <> k) ->
  get_field k (snd (fst (parse_params_from_file atoi atof fs filename p)))
  = get_field k default_params.
Proof.
  intros Hopen H. unfold parse_params_from_file. rewrite Hopen.
  cbn [fst snd]. now rewrite fold_process_line_frame.
Qed.

(** The warnings a list of records earns, the first record being the one
    of number [n + 1]: one for each record that names a key the parser does
    not know. *)
Definition known (key : string) : bool :=
  existsb (String.eqb key) recognized_keys.

Fixpoint warnings (n : Z) (records : list string) : list msg :=
  match records with
  | [] => []
  | r :: rs =>
      match split_key_value r with
      | Some (key, _) =>
          if known key then warnings (n + 1) rs
          else WarnUnknownParameter key (n + 1) :: warnings (n + 1) rs
      | None => warnings (n + 1) rs
      end
  end.

Lemma known_In (key : string) : known key = true <-> In key recognized_keys.
Proof.
  unfold known. rewrite existsb_exists. split.
  - intros (x & Hin & E). apply String.eqb_eq in E. now subst x.
  - intros H. exists key. split; [assumption|apply String.eqb_refl].
Qed.

Lemma fold_process_line_warnings (records : list string) :
  forall st,
    let st' := fold_left (process_line atoi atof) records st in
    ps_stderr st' = (ps_stderr st ++ warnings (ps_line_num st) records)%list
    /\ ps_line_num st' = (ps_line_num st + Z.of_nat (List.length records))%Z.
Proof.
  induction records as [|r rs IH]; intros st; cbn [fold_left warnings].
  - cbn. rewrite app_nil_r. split; [reflexivity|lia].
  - destruct (IH (process_line atoi atof st r)) as [Herr Hnum].
    cbn zeta. rewrite Herr, Hnum. clear Herr Hnum IH.
    destruct (process_line_cases atoi atof st r)
      as (Hn & [(Hs & _ & He)
               |[(key & value & Hs & Hin & _ & _ & He)
                |(key & value & Hs & Hnot & _ & He)]]);
      cbn zeta in Hn; rewrite Hn, He, Hs.
    + split; [reflexivity|cbn [List.length]; lia].
    + apply known_In in Hin. rewrite Hin.
      split; [reflexivity|cbn [List.length]; lia].
    + destruct (known key) eqn:E; [apply known_In in E; contradiction|].
      rewrite <- app_assoc. split; [reflexivity|cbn [List.length]; lia].
Qed.

(** X9. What [parse_params_from_file] prints for a file it can open is one
    warning for each record that names an unknown key, in the order of the
    file, each with the number of its record counted from 1 over all the
    records, comments and blank lines included; nothing else is printed. *)
Theorem parse_params_from_file_warnings (fs : OS.filesystem)
  (filename : string) (p : SimulationParams) (content : string) :
  OS.fopen_read fs filename = Some content ->
  snd (parse_params_from_file atoi atof fs filename p)
  = warnings 0 (fgets_records 512 content).
Proof.
  intros Hopen. unfold parse_params_from_file. rewrite Hopen. cbn [snd].
  destruct (fold_process_line_warnings (fgets_records 512 content)
              (mkParse (set_default_params p) [] 0%Z)) as [H _].
  exact H.
Qed.

End ParserOrder.

(** A file that names [We] twice, and another key after that. *)
Definition twice_file : string :=
  "We=1" ++ String newline
  ("# again" ++ String newline
  ("We = 3" ++ String newline
  ("Ohd=2" ++ String newline
  ("weber=7" ++ String newline "")))).

Lemma parse_params_from_file_last_record_wins_witness :
  let atoi := fun _ : string => 0%Z in
  let atof := fun s : string => if s =? "3" then 3.0%float else 1.0%float in
  get_field "We"
    (snd (fst (parse_params_from_file atoi atof
                 (OS.fs_with_file "case.params" twice_file)
                 "case.params" zero_params)))
  = Some (DblV 3.0%float).
Proof.
  intros atoi atof.
  apply (parse_params_from_file_last_record_wins atoi atof
           (OS.fs_with_file "case.params" twice_file) "case.params"
           zero_params twice_file
           ["We=1" ++ String newline ""; "# again" ++ String newline ""]
           ["Ohd=2" ++ String newline ""; "weber=7" ++ String newline ""]
           ("We = 3" ++ String newline "") "We" "3").
  - reflexivity.
  - reflexivity.
  - reflexivity.
  - cbn. tauto.
  - intros r' key value [<-|[<-|[]]] H; cbn in H;
      injection H as <- _; discriminate.
Defined.

Lemma parse_params_from_file_unmentioned_default_witness :
  let atoi := fun _ : string => 0%Z in
  let atof := fun _ : string => 3.0%float in
  get_field "tmax"
    (snd (fst (parse_params_from_file atoi atof
                 (OS.fs_with_file "case.params" twice_file)
                 "case.params" zero_params)))
  = Some (DblV 4.0%float).
Proof.
  intros atoi atof.
  apply (parse_params_from_file_unmentioned_default atoi atof
           (OS.fs_with_file "case.params" twice_file) "case.params"
           zero_params twice_file "tmax").
  - reflexivity.
  - intros r key value [<-|[<-|[<-|[<-|[<-|[]]]]]] H; cbn in H;
      try discriminate H; injection H as <- _; discriminate.
Defined.

Lemma parse_params_from_file_warnings_witness :
  let atoi := fun _ : string => 0%Z in
  let atof := fun _ : string => 3.0%float in
  snd (parse_params_from_file atoi atof
         (OS.fs_with_file "case.params" twice_file)
         "case.params" zero_params)
  = [WarnUnknownParameter "weber" 5].
Proof.
  intros atoi atof.
  apply (parse_params_from_file_warnings atoi atof
           (OS.fs_with_file "case.params" twice_file) "case.params"
           zero_params twice_file).
  reflexivity.
Defined.

(** *** The legacy command line and the file that says the same *)

(** The parameter file that sets the six parameters of the legacy command
    line, in its order, one [key=value] a line. *)
Definition legacy_file (a1 a2 a3 a4 a5 a6 : string) : string :=
  "MAXlevel=" ++ a1 ++ String newline
  ("tmax=" ++ a2 ++ String newline
  ("We=" ++ a3 ++ String newline
  ("Ohd=" ++ a4 ++ String newline
  ("Ohs=" ++ a5 ++ String newline
  ("Ldomain=" ++ a6 ++ String newline ""))))).

(** An argument that a line of a parameter file carries as it is: without
    white space at either end, without ['#'], NUL or newline, and of at most
    400 bytes. *)
Definition plain_argument (a : string) : bool :=
  value_text a && negb (contains newline a) && (String.length a <=? 400)%nat.

Section Parity.

Variable atoi : string -> Z.
Variable atof : string -> double.

Lemma process_line_key_value (st : parse_state) (key value : string) :
  key_text key = true -> value_text value = true ->
  process_line atoi atof st ((key ++ "=" ++ value) ++ String newline "")
  = mkParse
      (fst (assign atoi atof key value (ps_line_num st + 1) (ps_params st)))
      (ps_stderr st
         ++ snd (assign atoi atof key value (ps_line_num st + 1)
                   (ps_params st)))%list
      (ps_line_num st + 1).
Proof.
  intros Hk Hv. unfold process_line.
  replace ((key ++ "=" ++ value) ++ String newline "")
    with ("" ++ key ++ "" ++ "=" ++ "" ++ value ++ String newline "")
    by (cbn [append]; now rewrite append_assoc).
  rewrite split_key_value_pair by (assumption || reflexivity).
  destruct (assign atoi atof key value _ _). reflexivity.
Qed.

Lemma fgets_records_key_value (key value rest : string) :
  contains newline key = false -> (String.length key <= 100)%nat ->
  plain_argument value = true ->
  fgets_records 512 (key ++ value ++ String newline rest)
  = ((key ++ value) ++ String newline "") :: fgets_records 512 rest.
Proof.
  intros Hk Hlen Hv. unfold plain_argument in Hv.
  apply andb_true_iff in Hv. destruct Hv as [Hv Hl].
  apply andb_true_iff in Hv. destruct Hv as [_ Hnl].
  apply negb_true_iff in Hnl. apply Nat.leb_le in Hl.
  rewrite <- append_assoc. apply fgets_records_line.
  - now rewrite contains_app, Hk, Hnl.
  - rewrite append_length. lia.
Qed.

(** X10. The legacy command line and the parameter file that sets the
    same six parameters to the same texts parse to the same result,
    whatever the texts are (without white space around them, ['#'], NUL or
    newline, and of at most 400 bytes): the same return value 0, the same
    structure, nothing printed. *)
Theorem cli_file_parity_any_values (prog a1 a2 a3 a4 a5 a6 : string)
  (p q : SimulationParams) :
  forallb plain_argument [a1; a2; a3; a4; a5; a6] = true ->
  parse_params_from_cli atoi atof [prog; a1; a2; a3; a4; a5; a6] p
  = parse_params_from_file atoi atof
      (OS.fs_with_file "case.params" (legacy_file a1 a2 a3 a4 a5 a6))
      "case.params" q.
Proof.
  intros H. cbn [forallb] in H.
  repeat (apply andb_true_iff in H; destruct H as [? H]). clear H.
  assert (Hv : forall a, plain_argument a = true -> value_text a = true).
  { intros a Ha. unfold plain_argument in Ha.
    apply andb_true_iff in Ha. destruct Ha as [Ha _].
    apply andb_true_iff in Ha. now destruct Ha. }
  unfold parse_params_from_file, OS.fs_with_file. cbn [OS.fopen_read].
  rewrite String.eqb_refl. unfold legacy_file.
  rewrite !fgets_records_key_value
    by (assumption || reflexivity || (cbn; lia)).
  change (fgets_records 512 "") with (@nil string).
  cbn [fold_left].
  change ("MAXlevel=" ++ a1) with ("MAXlevel" ++ "=" ++ a1).
  change ("tmax=" ++ a2) with ("tmax" ++ "=" ++ a2).
  change ("We=" ++ a3) with ("We" ++ "=" ++ a3).
  change ("Ohd=" ++ a4) with ("Ohd" ++ "=" ++ a4).
  change ("Ohs=" ++ a5) with ("Ohs" ++ "=" ++ a5).
  change ("Ldomain=" ++ a6) with ("Ldomain" ++ "=" ++ a6).
  rewrite !process_line_key_value by (reflexivity || auto).
  reflexivity.
Qed.

End Parity.

Lemma cli_file_parity_any_values_witness :
  let atoi := fun _ : string => 9%Z in
  let atof := fun _ : string => 2.0%float in
  parse_params_from_cli atoi atof
    ["prog"; "9"; "2.5"; "20"; "1e-2"; "1e-4"; "6"] zero_params
  = parse_params_from_file atoi atof
      (OS.fs_with_file "case.params"
         (legacy_file "9" "2.5" "20" "1e-2" "1e-4" "6"))
      "case.params" default_params.
Proof.
  intros atoi atof.
  apply (cli_file_parity_any_values atoi atof "prog"
           "9" "2.5" "20" "1e-2" "1e-4" "6" zero_params default_params).
  reflexivity.
Defined.

End Params.

(** ** The numerical engine, as the program sees it *)

Module Engine.
Import CDouble.

(** An active cell of the mesh: the coordinates of its centre, its size
    [Delta], its level, and the values there of the volume fraction [f] and
    of the velocity [u]. *)
Record Cell : Type := mkCell {
  cx : double;
  cy : double;
  cDelta : double;
  clevel : Z;
  cf : double;
  cux : double;
  cuy : double
}.

(** The state of the fields: the active cells, in the order in which
    [foreach()] visits them. *)
Definition FieldState : Type := list Cell.

(** [clamp] of Basilisk, and the [rho(f)] of [two-phase.h] for the phase
    densities [rho1] and [rho2]. *)
Definition clamp (x a b : double) : double :=
  if c_lt x a then a else if c_gt x b then b else x.

Definition two_phase_rho (rho1 rho2 : double) (f : double) : double :=
  (clamp f 0 1 * (rho1 - rho2) + rho2)%float.

(** The globals of the solver that [main] sets. *)
Record Config : Type := mkConfig {
  L0 : double;
  X0 : double;
  Y0 : double;
  grid_cells : Z;
  rho1 : double;
  mu1 : double;
  rho2 : double;
  mu2 : double;
  f_sigma : double
}.

(** The name under which [dump] writes a snapshot: the restart path, or
    [<dir>/intermediate/snapshot-<t>] with the time printed by [%5.4f]. *)
Inductive dump_name : Type :=
| RestartFile (path : string)
| ArchiveFile (dir : string) (t : double).

End Engine.

(** ** [geometry.h] *)

Module Geometry.
Import CDouble Params Engine.
Local Open Scope float_scope.

(** [drop_distance_squared(x, y, p)]. *)
Definition drop_distance_squared (x y : double) (p : SimulationParams)
  : double :=
  (x - drop_x p) * (x - drop_x p) + (y - drop_y p) * (y - drop_y p).

(** [is_inside_drop]. *)
Definition is_inside_drop (x y : double) (p : SimulationParams) : Z :=
  let r_sq := drop_distance_squared x y p in
  let radius_sq := drop_radius p * drop_radius p in
  if c_lt r_sq radius_sq then 1%Z else 0%Z.

(** The condition given to [refine]: inside the margin of 5% around the
    drop, and below the maximum level. *)
Definition refine_condition (p : SimulationParams) (c : Cell) : bool :=
  let margin := 1.05 in
  let refine_r_sq := margin * margin * drop_radius p * drop_radius p in
  c_lt (drop_distance_squared (cx c) (cy c) p) refine_r_sq
  && (clevel c <? MAXlevel p)%Z.

(** The function given to [fraction]: positive inside the circle of radius
    [drop_radius] about [(drop_x, drop_y)], negative outside. *)
Definition drop_level_set (p : SimulationParams) (x y : double) : double :=
  drop_radius p * drop_radius p - drop_distance_squared x y p.

(** The body of the [foreach()] that sets the velocity. *)
Definition set_impact_velocity_cell (p : SimulationParams) (c : Cell) : Cell :=
  {| cx := cx c; cy := cy c; cDelta := cDelta c; clevel := clevel c;
     cf := cf c;
     cux := impact_velocity p * cf c;
     cuy := 0.0 |}.

(** *** The squared distance to the centre of the drop *)

Lemma drop_distance_squared_not_negative (x y : double)
  (p : SimulationParams) :
  c_lt (drop_distance_squared x y p) 0 = false.
Proof.
  apply negb_true_iff.
  change (not_negative (drop_distance_squared x y p) = true).
  unfold drop_distance_squared.
  apply add_not_negative.
  - apply (sq_not_negative (x - drop_x p)).
  - apply (sq_not_negative (y - drop_y p)).
Qed.

(** X11. For a drop whose centre is finite, the squared distance is
    exactly zero at the centre and at no point is it below that, however
    the differences and the products round; and [is_inside_drop] takes the
    centre for a point of the drop exactly when the product
    [drop_radius * drop_radius] is above zero. *)
Theorem drop_centre_is_nearest (p : SimulationParams) :
  is_finite (drop_x p) = true -> is_finite (drop_y p) = true ->
  drop_distance_squared (drop_x p) (drop_y p) p = 0 /\
  (forall x y,
     c_lt (drop_distance_squared x y p)
          (drop_distance_squared (drop_x p) (drop_y p) p) = false) /\
  is_inside_drop (drop_x p) (drop_y p) p
  = if c_lt 0 (drop_radius p * drop_radius p) then 1%Z else 0%Z.
Proof.
  intros Hx Hy.
  assert (E : drop_distance_squared (drop_x p) (drop_y p) p = 0).
  { unfold drop_distance_squared.
    rewrite (sub_self_zero _ Hx), (sub_self_zero _ Hy). reflexivity. }
  split; [exact E|]. split.
  - intros x y. rewrite E. apply drop_distance_squared_not_negative.
  - unfold is_inside_drop. now rewrite E.
Qed.

Lemma drop_centre_is_nearest_witness :
  drop_distance_squared 1.5 1.0 default_params = 0 /\
  is_inside_drop 1.5 1.0 default_params = 1%Z.
Proof.
  destruct (drop_centre_is_nearest default_params eq_refl eq_refl)
    as (Hzero & _ & Hin).
  split; [exact Hzero|exact Hin].
Defined.

(** *** The level-set function and the points inside the drop *)

(** X12. The function [init] gives to [fraction] is above zero exactly at
    the points [is_inside_drop] takes for points of the drop, that is, where
    the squared distance to the centre is below [drop_radius * drop_radius]:
    in double arithmetic the subtraction may round, but it does not lose the
    sign, for any position, centre and radius (infinities and NaN
    included). *)
Theorem level_set_positive_inside (p : SimulationParams) (x y : double) :
  c_gt (drop_level_set p x y) 0
  = c_lt (drop_distance_squared x y p) (drop_radius p * drop_radius p)
  /\ is_inside_drop x y p
     = if c_gt (drop_level_set p x y) 0 then 1%Z else 0%Z.
Proof.
  unfold c_gt. fold (c_lt 0 (drop_level_set p x y)).
  unfold drop_level_set. rewrite sub_positive. split; reflexivity.
Qed.

End Geometry.

(** ** The state of the process *)

Module Process.
Import CDouble Params Engine.

(** What the program prints on [stderr]: the messages of [params.h], and
    those of [diagnostics.h], [geometry.h] and [dropImpact.c]. *)
Inductive line : Type :=
| FromParams (m : Params.msg)
| ErrCannotOpenLog (log_path : string)
| LogFileOpened (log_path : string)
| ErrLogNotOpen
| Monitor (iter : Z) (t dt ke : double)
| SnapshotSaved (t : double)
| LogFileClosed
| RefinementComplete (maxlevel : Z)
| DropSetupComplete (x y radius velocity : double)
| ErrParseFailed
| Usage (prog : string)
| ErrValidationFailed
| Initializing
| InitializationComplete
| RestoredFromRestart
| CompletedSuccessfully.

(** What the program writes in the log file: the header with the
    parameters, then one row per record. *)
Inductive log_row : Type :=
| Header (p : SimulationParams) (Re : double)
| Row (iter : Z) (dt t ke : double).

(** The stream [log_fp]: whether it is open (not NULL), what [fprintf] has
    put in its buffer, and what the file holds. *)
Record LogStream : Type := mkLog {
  log_open : bool;
  log_buffer : list log_row;
  log_disk : list log_row
}.

(** A signal that ends the process, and whether the process is still
    running or a signal has killed it. *)
Inductive signal : Type := SIGFPE.

Inductive fate : Type :=
| Alive
| Killed (s : signal).

(** How the process ends: [main] returns a code, or a signal kills it. *)
Inductive status : Type :=
| Returned (code : Z)
| Signalled (s : signal).

Record World : Type := mkWorld {
  w_params : SimulationParams;
  w_config : Config;
  w_field : FieldState;
  w_stderr : list line;
  w_log : LogStream;
  w_dumps : list (dump_name * FieldState);
  w_fate : fate
}.

Definition print (l : list line) (w : World) : World :=
  {| w_params := w_params w; w_config := w_config w; w_field := w_field w;
     w_stderr := w_stderr w ++ l; w_log := w_log w; w_dumps := w_dumps w;
     w_fate := w_fate w |}.

Definition with_log (lg : LogStream) (w : World) : World :=
  {| w_params := w_params w; w_config := w_config w; w_field := w_field w;
     w_stderr := w_stderr w; w_log := lg; w_dumps := w_dumps w;
     w_fate := w_fate w |}.

Definition with_field (fld : FieldState) (w : World) : World :=
  {| w_params := w_params w; w_config := w_config w; w_field := fld;
     w_stderr := w_stderr w; w_log := w_log w; w_dumps := w_dumps w;
     w_fate := w_fate w |}.

Definition with_params (p : SimulationParams) (w : World) : World :=
  {| w_params := p; w_config := w_config w; w_field := w_field w;
     w_stderr := w_stderr w; w_log := w_log w; w_dumps := w_dumps w;
     w_fate := w_fate w |}.

Definition with_config (c : Config) (w : World) : World :=
  {| w_params := w_params w; w_config := c; w_field := w_field w;
     w_stderr := w_stderr w; w_log := w_log w; w_dumps := w_dumps w;
     w_fate := w_fate w |}.

(** [dump(file = name)]: the snapshot written holds the fields of now. *)
Definition dump (name : dump_name) (w : World) : World :=
  {| w_params := w_params w; w_config := w_config w; w_field := w_field w;
     w_stderr := w_stderr w; w_log := w_log w;
     w_dumps := w_dumps w ++ [(name, w_field w)];
     w_fate := w_fate w |}.

(** The signal [s] kills the process: nothing of what it holds changes any
    more. *)
Definition kill (s : signal) (w : World) : World :=
  {| w_params := w_params w; w_config := w_config w; w_field := w_field w;
     w_stderr := w_stderr w; w_log := w_log w; w_dumps := w_dumps w;
     w_fate := Killed s |}.

(** The process when [main] starts: the globals are zero, [log_fp] is NULL,
    nothing is printed; [fld] is the mesh the engine starts with and [disk]
    what the log file holds from an earlier run. *)
Definition initial_world (fld : FieldState) (disk : list log_row) : World :=
  {| w_params := zero_params;
     w_config := mkConfig 0%float 0%float 0%float 0%Z 0%float 0%float
                   0%float 0%float 0%float;
     w_field := fld;
     w_stderr := [];
     w_log := mkLog false [] disk;
     w_dumps := [];
     w_fate := Alive |}.

End Process.

(** ** [diagnostics.h] *)

Module Diagnostics.
Import CDouble CStr Params Engine Process.

(** [M_PI] of [math.h]. *)
Definition M_PI : double := 3.14159265358979323846%float.

(** [open_log_files]: makes the directory of the snapshots, opens the log
    for writing and, when that succeeds, writes and flushes the header.
    Returns 0, or -1 when the log cannot be opened. *)
Definition open_log_files (fs : OS.filesystem) (p : SimulationParams)
  (w : World) : Z * World :=
  let intermediate_dir := snprintf2 512 (output_dir p) "/intermediate" in
  let '(_, out) := create_output_directory fs intermediate_dir in
  let w := print (map FromParams out) w in
  let log_path := snprintf2 512 (output_dir p) "/log" in
  if negb (OS.fopen_write_ok fs log_path) then
    let w := with_log (mkLog false (log_buffer (w_log w))
                         (log_disk (w_log w))) w in
    ((-1)%Z, print [ErrCannotOpenLog log_path] w)
  else
    let header := Header p (sqrt (We p) / Ohd p)%float in
    let w := with_log (mkLog true [] [header]) w in
    (0%Z, print [LogFileOpened log_path] w).

Section KineticEnergy.

(** [rho(f)] of the engine. *)
Variable rho : double -> double.

(** The body of the loop of [calculate_kinetic_energy], for one cell. *)
Definition ke_term (c : Cell) : double :=
  let rho_local := rho (cf c) in
  let u_mag_sq := (sq (cux c) + sq (cuy c))%float in
  (2.0 * M_PI * cy c * (0.5 * rho_local * u_mag_sq) * sq (cDelta c))%float.

(** [calculate_kinetic_energy]: [ke] starts at 0 and receives the term of
    each cell in turn. It reads the fields and writes none. *)
Definition calculate_kinetic_energy (fld : FieldState) : double :=
  fold_left (fun ke c => (ke + ke_term c)%float) fld 0%float.

(** [write_statistics]. *)
Definition write_statistics (iter : Z) (time timestep : double)
  (p : SimulationParams) (w : World) : World :=
  if negb (log_open (w_log w)) then print [ErrLogNotOpen] w
  else
    let ke := calculate_kinetic_energy (w_field w) in
    let lg := w_log w in
    (* fprintf puts the row in the buffer, fflush writes the buffer out *)
    let lg := mkLog true (log_buffer lg ++ [Row iter timestep time ke])
                (log_disk lg) in
    let lg := mkLog true [] (log_disk lg ++ log_buffer lg) in
    let w := with_log lg w in
    if (iter =? 0)%Z || (Z.rem iter 100 =? 0)%Z
    then print [Monitor iter time timestep ke] w
    else w.

End KineticEnergy.

(** [save_snapshot]. *)
Definition save_snapshot (time : double) (p : SimulationParams) (w : World)
  : World :=
  let w := dump (RestartFile (snprintf2 512 (output_dir p) "/restart")) w in
  let w := dump (ArchiveFile (output_dir p) time) w in
  print [SnapshotSaved time] w.

(** [close_log_files]: [fclose] writes out what the buffer holds. *)
Definition close_log_files (w : World) : World :=
  if log_open (w_log w) then
    let lg := w_log w in
    let w := with_log (mkLog false [] (log_disk lg ++ log_buffer lg)) w in
    print [LogFileClosed] w
  else w.

(** *** Recording *)

Section Recording.

Variable rho : double -> double.

(** C5. With the log open, [write_statistics] computes the kinetic energy,
    the sum over the cells, from 0 and in their order, of
    [2 pi y (0.5 rho(f) (u.x^2 + u.y^2)) Delta^2], and puts one row
    (iteration, timestep, time, that sum) at the end of the log file,
    flushed at once: nothing stays in the buffer. The row is mirrored on
    [stderr] exactly when the iteration is 0 or a multiple of 100; whether
    it is mirrored or not, it is in the file. The fields are left as they
    were. *)
Theorem write_statistics_appends_one_row (iter : Z) (time timestep : double)
  (p : SimulationParams) (w : World) :
  log_open (w_log w) = true ->
  let ke :=
    fold_left
      (fun ke c =>
         ke + 2.0 * M_PI * cy c
              * (0.5 * rho (cf c) * (cux c * cux c + cuy c * cuy c))
              * (cDelta c * cDelta c))%float
      (w_field w) 0%float in
  let w' := write_statistics rho iter time timestep p w in
  calculate_kinetic_energy rho (w_field w) = ke
  /\ log_disk (w_log w')
     = log_disk (w_log w) ++ log_buffer (w_log w)
       ++ [Row iter timestep time ke]
  /\ log_buffer (w_log w') = []
  /\ log_open (w_log w') = true
  /\ ((iter = 0 \/ (100 | iter))%Z ->
      w_stderr w' = w_stderr w ++ [Monitor iter time timestep ke])
  /\ (~ (iter = 0 \/ (100 | iter))%Z -> w_stderr w' = w_stderr w)
  /\ w_field w' = w_field w.
Proof.
  intros Hopen ke w'. subst ke w'. split; [reflexivity|].
  unfold write_statistics.
  rewrite Hopen. cbn [negb].
  change (calculate_kinetic_energy rho (w_field w))
    with (fold_left
            (fun ke c =>
               ke + 2.0 * M_PI * cy c
                    * (0.5 * rho (cf c) * (cux c * cux c + cuy c * cuy c))
                    * (cDelta c * cDelta c))%float
            (w_field w) 0%float).
  assert (Hmir : ((iter =? 0)%Z || (Z.rem iter 100 =? 0)%Z = true
                  <-> (iter = 0 \/ (100 | iter))%Z)).
  { rewrite orb_true_iff, !Z.eqb_eq, Z.rem_divide by lia. reflexivity. }
  destruct ((iter =? 0)%Z || (Z.rem iter 100 =? 0)%Z) eqn:E; cbn.
  - repeat split; try reflexivity.
    intros Hn. elim Hn. now apply Hmir.
  - repeat split; try reflexivity.
    intros Hy. apply Hmir in Hy. discriminate.
Qed.

(** Without an open log nothing is recorded: one error on [stderr]. *)
Lemma write_statistics_log_closed (iter : Z) (time timestep : double)
  (p : SimulationParams) (w : World) :
  log_open (w_log w) = false ->
  write_statistics rho iter time timestep p w = print [ErrLogNotOpen] w.
Proof. intros H. unfold write_statistics. now rewrite H. Qed.

End Recording.

(** A field of three cells of the initial drop, and a process that has
    the log open on it. *)
Definition sample_field : FieldState :=
  [ mkCell 0.0625 0.0625 0.125 6 1.0 (-1.0) 0.0;
    mkCell 0.0625 0.1875 0.125 6 1.0 (-1.0) 0.0;
    mkCell 0.0625 0.4375 0.125 6 0.75 (-0.75) 0.0 ]%float.

Definition sample_rho : double -> double :=
  two_phase_rho 1.0%float 1.0e-3%float.

Definition sample_world : World :=
  with_log (mkLog true [] [Header default_params 0%float])
    (initial_world sample_field []).

Lemma write_statistics_appends_one_row_witness :
  log_open (w_log sample_world) = true /\
  let w' := write_statistics sample_rho 200 0.5%float 0.001%float
              default_params sample_world in
  calculate_kinetic_energy sample_rho sample_field
  = 0.021334940356210849%float
  /\ log_disk (w_log w')
     = [Header default_params 0%float;
        Row 200 0.001%float 0.5%float 0.021334940356210849%float]
  /\ w_stderr w' = [Monitor 200 0.5%float 0.001%float
                      0.021334940356210849%float].
Proof.
  split; [reflexivity|].
  destruct (write_statistics_appends_one_row sample_rho 200 0.5%float
              0.001%float default_params sample_world eq_refl)
    as (Hke & Hdisk & _ & _ & Hmirror & _).
  split; [exact Hke|]. split.
  - exact Hdisk.
  - apply Hmirror. right. exists 2%Z. reflexivity.
Defined.

(** *** The kinetic energy and the order of the cells *)

(** The terms of the sum are not negative where neither [y] nor the density
    is. *)
Lemma ke_term_not_negative (rho : double -> double) (c : Cell) :
  not_negative (cy c) = true -> not_negative (rho (cf c)) = true ->
  not_negative (ke_term rho c) = true.
Proof.
  intros Hy Hrho. unfold ke_term.
  repeat first [ apply sq_not_negative | assumption
               | apply mul_not_negative | apply add_not_negative
               | reflexivity ].
Qed.

(** C7, as the source has it. The kinetic energy is a function of the
    fields, which it only reads: the record that computes it leaves them as
    they were, and for the same cells in the same order it is the same
    double, the sum from 0, cell after cell, of
    [2 pi y (0.5 rho(f) (u.x^2 + u.y^2)) Delta^2]. Between two orders of the
    same cells the sums agree within the tolerance of the additions. When
    no cell has a centre below the axis or a negative density, and neither
    sum has overflowed, each of the [n] additions has rounded by [2^-53] at
    most, relatively: counted in units of [2^-1074], each sum lies between
    [(1 - 2^-53)^n] and [(1 + 2^-53)^n] times the sum of the terms as
    numbers, which does not depend on the order, and so the two sums are
    within the factor [((1 + 2^-53) / (1 - 2^-53))^n] of one another. The
    inequalities are written without divisions. *)
Theorem kinetic_energy_order_tolerance (rho : double -> double)
  (fld fld' : FieldState) :
  Permutation fld fld' ->
  (forall c, In c fld ->
     c_lt (cy c) 0%float = false /\ c_lt (rho (cf c)) 0%float = false) ->
  is_finite (calculate_kinetic_energy rho fld) = true ->
  is_finite (calculate_kinetic_energy rho fld') = true ->
  let n := Z.of_nat (List.length fld) in
  let term := fun c : Cell =>
    (2.0 * M_PI * cy c
     * (0.5 * rho (cf c) * (cux c * cux c + cuy c * cuy c))
     * (cDelta c * cDelta c))%float in
  let total := fold_right (fun c s => (units (term c) + s)%Z) 0%Z in
  let ke := calculate_kinetic_energy rho fld in
  let ke' := calculate_kinetic_energy rho fld' in
  (forall (iter : Z) (time timestep : double) (p : SimulationParams)
          (w : World),
     w_field (write_statistics rho iter time timestep p w) = w_field w) /\
  ke = fold_left (fun s c => (s + term c)%float) fld 0%float /\
  ke' = fold_left (fun s c => (s + term c)%float) fld' 0%float /\
  total fld' = total fld /\
  ((2 ^ 53 - 1) ^ n * total fld <= (2 ^ 53) ^ n * units ke
   <= (2 ^ 53 + 1) ^ n * total fld)%Z /\
  ((2 ^ 53 - 1) ^ n * total fld <= (2 ^ 53) ^ n * units ke'
   <= (2 ^ 53 + 1) ^ n * total fld)%Z /\
  ((2 ^ 53 - 1) ^ n * units ke <= (2 ^ 53 + 1) ^ n * units ke')%Z /\
  ((2 ^ 53 - 1) ^ n * units ke' <= (2 ^ 53 + 1) ^ n * units ke)%Z.
Proof.
  intros Hperm Hcells Hfin Hfin' n term total ke ke'.
  assert (Hterms : forall c, In c fld ->
                     not_negative (ke_term rho c) = true).
  { intros c Hc. destruct (Hcells c Hc) as [Hy Hr].
    apply ke_term_not_negative; unfold not_negative;
      apply negb_true_iff; assumption. }
  assert (Hterms' : forall c, In c fld' ->
                      not_negative (ke_term rho c) = true).
  { intros c Hc. apply Hterms. apply Permutation_in with fld'; [|exact Hc].
    now apply Permutation_sym. }
  destruct (sum_from_zero_permutation Cell (ke_term rho) fld fld'
              Hperm Hterms Hfin Hfin') as [B Hlr].
  destruct (sum_from_zero_permutation Cell (ke_term rho) fld' fld
              (Permutation_sym Hperm) Hterms' Hfin' Hfin) as [B' Hrl].
  cbn zeta in B, B', Hlr, Hrl.
  rewrite <- (Permutation_length Hperm) in B', Hrl.
  rewrite <- (exact_sum_permutation Cell (ke_term rho) fld fld' Hperm) in B'.
  split.
  { intros iter time timestep p w. unfold write_statistics.
    destruct (negb (log_open (w_log w))); [reflexivity|].
    destruct ((iter =? 0)%Z || (Z.rem iter 100 =? 0)%Z); reflexivity. }
  split; [reflexivity|]. split; [reflexivity|]. split.
  { symmetry. exact (exact_sum_permutation Cell (ke_term rho) fld fld' Hperm). }
  split; [exact B|]. split; [exact B'|]. split; [exact Hlr|exact Hrl].
Qed.

Lemma kinetic_energy_order_tolerance_witness :
  calculate_kinetic_energy sample_rho sample_field
  = 0.021334940356210849%float /\
  calculate_kinetic_energy sample_rho (rev sample_field)
  = 0.021334940356210846%float /\
  ((2 ^ 53 - 1) ^ 3 * units 0.021334940356210849%float
   <= (2 ^ 53 + 1) ^ 3 * units 0.021334940356210846%float)%Z /\
  ((2 ^ 53 - 1) ^ 3 * units 0.021334940356210846%float
   <= (2 ^ 53 + 1) ^ 3 * units 0.021334940356210849%float)%Z.
Proof.
  assert (H : forall c, In c sample_field ->
                c_lt (cy c) 0%float = false /\
                c_lt (sample_rho (cf c)) 0%float = false).
  { intros c [<-|[<-|[<-|[]]]]; split; reflexivity. }
  destruct (kinetic_energy_order_tolerance sample_rho sample_field
              (rev sample_field) (Permutation_rev sample_field) H
              eq_refl eq_refl)
    as (_ & Hke & Hke' & _ & _ & _ & Hlr & Hrl).
  split; [reflexivity|]. split; [reflexivity|].
  split; [exact Hlr|exact Hrl].
Defined.

(** Three cells of a flow about to overflow: one whose term of the sum is
    the largest double, and two whose term is a little more than a quarter
    of the last place of that double. *)
Definition fast_cell : Cell :=
  (mkCell 0.5 0.75 1.0 0 1.0 8.734784844909122e+153 0.0)%float.

Definition slow_cell : Cell :=
  (mkCell 1.5 0.75 1.0 0 1.0 5e+145 0.0)%float.

(** C7, as the specification words it, fails in the arithmetic of the
    doubles, and by more than a tolerance. Visited with the fast cell first,
    the three cells give the largest double: each slow cell adds less than
    half a unit of the last place and is rounded away. Visited with the fast
    cell last, the two slow cells add up first, and the sum overflows: the
    kinetic energy is an infinity. On three cells of the initial drop the
    two orders differ in the last place. *)
Lemma kinetic_energy_order_counterexample :
  Permutation [fast_cell; slow_cell; slow_cell]
    [slow_cell; slow_cell; fast_cell] /\
  calculate_kinetic_energy sample_rho [fast_cell; slow_cell; slow_cell]
  = 1.7976931348623157e+308%float /\
  calculate_kinetic_energy sample_rho [slow_cell; slow_cell; fast_cell]
  = infinity /\
  calculate_kinetic_energy sample_rho sample_field
  = 0.021334940356210849%float /\
  calculate_kinetic_energy sample_rho (rev sample_field)
  = 0.021334940356210846%float /\
  ~ (forall (rho : double -> double) (fld fld' : FieldState),
       Permutation fld fld' ->
       calculate_kinetic_energy rho fld = calculate_kinetic_energy rho fld').
Proof.
  assert (Hperm : Permutation [fast_cell; slow_cell; slow_cell]
                    [slow_cell; slow_cell; fast_cell]).
  { apply Permutation_trans with [slow_cell; fast_cell; slow_cell].
    - apply perm_swap.
    - apply perm_skip. apply perm_swap. }
  split; [exact Hperm|].
  split; [reflexivity|]. split; [reflexivity|].
  split; [reflexivity|]. split; [reflexivity|].
  intros H. specialize (H sample_rho _ _ Hperm).
  apply (f_equal is_finite) in H. vm_compute in H. discriminate H.
Qed.

(** *** The log stream: opening and closing *)

(** X13. [open_log_files] returns 0 exactly when the log can be opened for
    writing and -1 otherwise; whether the directory of the snapshots could
    be made has no part in it. On success the stream is open with an empty
    buffer and the file holds the header and nothing else, whatever it held
    before: the log of an earlier run is not kept. On failure [log_fp] is
    NULL and the file is left as it was. Either way one line on [stderr]
    tells the outcome, and the fields and the snapshots are not touched. *)
Theorem open_log_files_outcome (fs : OS.filesystem) (p : SimulationParams)
  (w : World) :
  let log_path := snprintf2 512 (output_dir p) "/log" in
  let r := open_log_files fs p w in
  (fst r = 0%Z <-> OS.fopen_write_ok fs log_path = true) /\
  (fst r = (-1)%Z <-> OS.fopen_write_ok fs log_path = false) /\
  (fst r = 0%Z ->
   w_log (snd r) = mkLog true [] [Header p (sqrt (We p) / Ohd p)%float] /\
   last (w_stderr (snd r)) ErrLogNotOpen = LogFileOpened log_path) /\
  (fst r = (-1)%Z ->
   log_open (w_log (snd r)) = false /\
   log_disk (w_log (snd r)) = log_disk (w_log w) /\
   last (w_stderr (snd r)) ErrLogNotOpen = ErrCannotOpenLog log_path) /\
  w_field (snd r) = w_field w /\ w_dumps (snd r) = w_dumps w /\
  w_params (snd r) = w_params w /\ w_config (snd r) = w_config w.
Proof.
  intros log_path r. subst r log_path. unfold open_log_files.
  destruct (create_output_directory fs _) as [rc out].
  destruct (OS.fopen_write_ok fs _); cbn;
    repeat split; intros; try reflexivity; try discriminate;
    apply last_last.
Qed.

(** X14. [close_log_files] writes out what the buffer holds and sets
    [log_fp] to NULL; closing again does nothing, and a record asked for
    after the log is closed leaves the file as it is. *)
Theorem close_log_files_final (rho : double -> double) (iter : Z)
  (time timestep : double) (p : SimulationParams) (w : World) :
  let w' := close_log_files w in
  close_log_files w' = w' /\
  log_open (w_log w') = false /\
  log_disk (w_log w')
  = (log_disk (w_log w)
       ++ if log_open (w_log w) then log_buffer (w_log w) else [])%list /\
  w_log (write_statistics rho iter time timestep p w') = w_log w'.
Proof.
  intros w'. subst w'. unfold close_log_files, write_statistics.
  destruct (log_open (w_log w)) eqn:E; cbn.
  - repeat split.
  - rewrite E. cbn. rewrite app_nil_r. repeat split.
Qed.

(** *** The sign of the kinetic energy *)

Section Sign.

Variable rho : double -> double.

(** X15. The kinetic energy is never negative: when no cell has a centre
    below the axis ([y < 0]) or a negative density, the test [ke < 0] is
    false of the sum [calculate_kinetic_energy] returns, whatever the
    velocities and the sizes of the cells are and however the products
    round, overflow or underflow. *)
Theorem kinetic_energy_not_negative (fld : FieldState) :
  (forall c, In c fld ->
     c_lt (cy c) 0%float = false /\ c_lt (rho (cf c)) 0%float = false) ->
  c_lt (calculate_kinetic_energy rho fld) 0%float = false.
Proof.
  intros H. apply negb_true_iff.
  change (not_negative (calculate_kinetic_energy rho fld) = true).
  unfold calculate_kinetic_energy.
  assert (H0 : not_negative 0%float = true) by reflexivity.
  revert H0. generalize 0%float.
  induction fld as [|c r IH]; intros acc Hacc; simpl; [assumption|].
  apply IH.
  - intros c' Hc'. apply H. now right.
  - destruct (H c (or_introl eq_refl)) as [Hy Hrho].
    apply add_not_negative; [assumption|].
    apply ke_term_not_negative; unfold not_negative;
      apply negb_true_iff; assumption.
Qed.

End Sign.

Lemma kinetic_energy_not_negative_witness :
  (forall c, In c sample_field ->
     c_lt (cy c) 0%float = false /\
     c_lt (sample_rho (cf c)) 0%float = false) /\
  c_lt (calculate_kinetic_energy sample_rho sample_field) 0%float = false.
Proof.
  assert (H : forall c, In c sample_field ->
                c_lt (cy c) 0%float = false /\
                c_lt (sample_rho (cf c)) 0%float = false).
  { intros c [<-|[<-|[<-|[]]]]; split; reflexivity. }
  split; [exact H|].
  apply (kinetic_energy_not_negative sample_rho sample_field H).
Defined.

(** *** The spreading radius *)

(** [calculate_spreading_radius], compiled with
    [ENABLE_ADVANCED_DIAGNOSTICS]: [r_max] starts at 0. *)
Definition calculate_spreading_radius (fld : FieldState) : double :=
  fold_left (fun r_max c =>
               if c_gt (cf c) 0.5%float
               then if c_gt (cx c) r_max then cx c else r_max
               else r_max) fld 0.0%float.

(** The radial position a cell offers to the maximum: that of a cell
    inside the drop. *)
Definition inside_x (c : Cell) : option double :=
  if c_gt (cf c) 0.5%float then Some (cx c) else None.

Lemma calculate_spreading_radius_take (fld : FieldState) :
  calculate_spreading_radius fld = fold_left (take inside_x) fld 0.0%float.
Proof.
  unfold calculate_spreading_radius. generalize 0.0%float.
  induction fld as [|c r IH]; intros acc; simpl; [reflexivity|].
  rewrite IH. f_equal. unfold take, inside_x.
  destruct (c_gt (cf c) 0.5%float); reflexivity.
Qed.

(** X16. [calculate_spreading_radius] returns the largest radial position
    of the cells inside the drop ([f > 0.5]): it is at least the position of
    every such cell (when that position is a number), it is the position of
    one of them unless it is the 0 it starts from, and it is never below
    0. *)
Theorem spreading_radius_is_maximum (fld : FieldState) :
  let r := calculate_spreading_radius fld in
  c_le 0%float r = true /\
  (forall c, In c fld -> c_gt (cf c) 0.5%float = true ->
     is_num (cx c) = true -> c_le (cx c) r = true) /\
  (r = 0.0%float \/
   exists c, In c fld /\ c_gt (cf c) 0.5%float = true /\ cx c = r).
Proof.
  intros r. subst r. rewrite calculate_spreading_radius_take.
  repeat apply conj.
  - apply fold_take_ge. reflexivity.
  - intros c Hin Hf Hx.
    apply (fold_take_upper Cell inside_x fld c); auto.
    unfold inside_x. now rewrite Hf.
  - destruct (fold_take_attained Cell inside_x fld 0.0%float)
      as [E|(c & Hin & Hv)]; [now left|].
    right. exists c. unfold inside_x in Hv.
    destruct (c_gt (cf c) 0.5%float); [|discriminate].
    injection Hv as Hv. auto.
Qed.

End Diagnostics.

(** ** [dropImpact.c]: the controller *)

Module DropImpact.
Import CDouble CStr Params Engine Geometry Process Diagnostics.

(** [#define TSNAP (0.01)]. *)
Definition TSNAP : double := 0.01%float.

(** A file system in which the parameter file [case.params] exists and is
    empty, every directory exists, and no file can be opened for writing:
    the log cannot be opened. *)
Definition log_unwritable_fs : OS.filesystem :=
  {| OS.access_ok := fun f => String.eqb f "case.params";
     OS.fopen_read :=
       fun f => if String.eqb f "case.params" then Some EmptyString else None;
     OS.stat_ok := fun _ => true;
     OS.mkdir_ok := fun _ => true;
     OS.fopen_write_ok := fun _ => false |}.

Section Controller.

(** libc. *)
Variable atoi : string -> Z.
Variable atof : string -> double.

(** The engine: the mesh [init_grid] makes; the fields a snapshot file
    restores, when there is such a file; [refine] and [unrefine] for a
    condition on the cell; [fraction] for a level-set function;
    [adapt_wavelet] on [f], the curvature and the two components of the
    velocity, for the tolerances and the two levels; and whether a time is
    one of those the event [snapshots] is scheduled at (0, TSNAP, 2 TSNAP
    and so on). *)
Variable init_grid : Z -> FieldState.
Variable restore : string -> option FieldState.
Variable refine : (Cell -> bool) -> FieldState -> FieldState.
Variable unrefine : (Cell -> bool) -> FieldState -> FieldState.
Variable fraction : (double -> double -> double) -> FieldState -> FieldState.
Variable adapt_wavelet : list double -> Z -> Z -> FieldState -> FieldState.
Variable snapshot_time : double -> bool.

(** *** [main], up to the call of [run()] *)

(** How [main] ends before [run()], or that it reaches [run()]. *)
Inductive startup_result : Type :=
| Exit (code : Z) (w : World)
| Launch (w : World).

(** The choice of the parser and its outcome: the parameters to go on
    with, or the exit. *)
Definition select_parser (fs : OS.filesystem) (argv : list string)
  (w : World) : startup_result :=
  let argc := Z.of_nat (List.length argv) in
  if (argc =? 2)%Z && OS.access_ok fs (nth 1%nat argv EmptyString) then
    let '(rc, p, out) :=
      parse_params_from_file atoi atof fs (nth 1%nat argv EmptyString)
        (w_params w) in
    let w := print (map FromParams out) (with_params p w) in
    if negb (rc =? 0)%Z then Exit 1 (print [ErrParseFailed] w) else Launch w
  else if (argc >=? 7)%Z then
    let '(rc, p, out) := parse_params_from_cli atoi atof argv (w_params w) in
    let w := print (map FromParams out) (with_params p w) in
    if negb (rc =? 0)%Z then Exit 1 w else Launch w
  else Exit 1 (print [Usage (nth 0%nat argv EmptyString)] w).

(** The set-up of the domain and of the material properties. The number
    of cells a side is the [int] [1 << params.init_grid_level]. *)
Definition configure (w : World) : World :=
  let p := w_params w in
  let cfg :=
    {| L0 := Ldomain p; X0 := 0.0; Y0 := 0.0;
       grid_cells := CInt.shl 1 (init_grid_level p);
       rho1 := 1.0;
       mu1 := Ohd p / sqrt (We p);
       rho2 := rho_ratio p;
       mu2 := Ohs p / sqrt (We p);
       f_sigma := 1.0 / We p |}%float in
  with_field (init_grid (grid_cells cfg)) (with_config cfg w).

Definition startup (fs : OS.filesystem) (argv : list string) (w : World)
  : startup_result :=
  match select_parser fs argv w with
  | Exit code w => Exit code w
  | Launch w =>
      let '(valid, out) := validate_params (w_params w) in
      let w := print (map FromParams out) w in
      if negb valid then Exit 1 (print [ErrValidationFailed] w)
      else
        let w := configure w in
        (* the two return values are not looked at *)
        let '(_, out) := create_output_directory fs (output_dir (w_params w)) in
        let w := print (map FromParams out) w in
        let '(_, w) := open_log_files fs (w_params w) w in
        let w := print (map FromParams (print_params (w_params w))) w in
        Launch w
  end.

(** *** The events *)

(** [event init (t = 0)]. *)
Definition init (w : World) : World :=
  let p := w_params w in
  let restart_path := snprintf2 512 (output_dir p) "/restart" in
  match restore restart_path with
  | None =>
      let w := print [Initializing] w in
      let w := with_field (refine (refine_condition p) (w_field w)) w in
      let w := print [RefinementComplete (MAXlevel p)] w in
      let w := with_field (fraction (drop_level_set p) (w_field w)) w in
      let w := with_field (map (set_impact_velocity_cell p) (w_field w)) w in
      let w := print [DropSetupComplete (drop_x p) (drop_y p)
                        (drop_radius p) (impact_velocity p)] w in
      print [InitializationComplete] w
  | Some restored =>
      print [RestoredFromRestart] (with_field restored w)
  end.

(** The two macros of [geometry.h], which hold the same statements as the
    fresh branch of [init]. *)
Definition REFINE_INITIAL_GRID (p : SimulationParams) (w : World) : World :=
  let w := with_field (refine (refine_condition p) (w_field w)) w in
  print [RefinementComplete (MAXlevel p)] w.

Definition SETUP_INITIAL_DROP (p : SimulationParams) (w : World) : World :=
  let w := with_field (fraction (drop_level_set p) (w_field w)) w in
  let w := with_field (map (set_impact_velocity_cell p) (w_field w)) w in
  print [DropSetupComplete (drop_x p) (drop_y p)
           (drop_radius p) (impact_velocity p)] w.

(** [event adapt (i++)]. *)
Definition adapt (w : World) : World :=
  let p := w_params w in
  let fld := adapt_wavelet [fErr p; KErr p; VelErr p; VelErr p]
               (MAXlevel p) (MINlevel p) (w_field w) in
  let fld := unrefine (fun c =>
                 c_gt (cx c) (outflow_x_frac p * Ldomain p)%float
                 || c_gt (cy c) (outflow_y_max p)) fld in
  with_field fld w.

(** [event statistics (i++)]. The test is [i % params.log_interval == 0]
    on [int]: where the remainder traps (a zero [log_interval], which no
    check excludes) the process is killed by SIGFPE; elsewhere the
    remainder of C is [Z.rem]. *)
Definition statistics (i : Z) (t dt : double) (w : World) : World :=
  let p := w_params w in
  let rho := two_phase_rho (rho1 (w_config w)) (rho2 (w_config w)) in
  if CInt.rem_traps i (log_interval p) then kill SIGFPE w
  else if (Z.rem i (log_interval p) =? 0)%Z
  then write_statistics rho i t dt p w
  else w.

(** [event snapshots (t = 0; t += TSNAP; t <= params.tmax)]. *)
Definition snapshots (t : double) (w : World) : World :=
  save_snapshot t (w_params w) w.

(** [event cleanup (t = end)]. *)
Definition cleanup (w : World) : World :=
  print [CompletedSuccessfully] (close_log_files w).

(** *** The scheduler *)

(** The loop of [run()] is the engine's, not code of this repository. What
    follows models the part of it that this file's events see: the engine
    makes passes, and at each pass calls the events that are due, in the
    order in which the file declares them, until the process ends. The
    events of the solver, which advance the fields from one pass to the
    next, are not modelled: in this model the fields change only by the
    events of this file. *)

(** A pass of the loop of [run()]: the iteration, the time, the timestep,
    and whether the run ends with this pass. *)
Record tick : Type := mkTick {
  tk_i : Z;
  tk_t : double;
  tk_dt : double;
  tk_end : bool
}.

Inductive event_name : Type :=
| EvInit | EvAdapt | EvStatistics | EvSnapshots | EvCleanup.

(** The events, in the order of the file. *)
Definition events : list event_name :=
  [EvInit; EvAdapt; EvStatistics; EvSnapshots; EvCleanup].

(** When an event is due. *)
Definition due (p : SimulationParams) (e : event_name) (k : tick) : bool :=
  match e with
  | EvInit => c_eq (tk_t k) 0%float
  | EvAdapt => true
  | EvStatistics => true
  | EvSnapshots => snapshot_time (tk_t k) && c_le (tk_t k) (tmax p)
  | EvCleanup => tk_end k
  end.

Definition action (e : event_name) (k : tick) (w : World) : World :=
  match e with
  | EvInit => init w
  | EvAdapt => adapt w
  | EvStatistics => statistics (tk_i k) (tk_t k) (tk_dt k) w
  | EvSnapshots => snapshots (tk_t k) w
  | EvCleanup => cleanup w
  end.

(** One event of a pass: it runs when it is due and the process has not
    been killed. The second component lists what has fired. *)
Definition fire (k : tick) (st : World * list (Z * event_name))
  (e : event_name) : World * list (Z * event_name) :=
  match w_fate (fst st) with
  | Killed _ => st
  | Alive =>
      if due (w_params (fst st)) e k
      then (action e k (fst st), snd st ++ [(tk_i k, e)])
      else st
  end.

(** One pass: the events that are due, in order. *)
Definition pass (st : World * list (Z * event_name)) (k : tick)
  : World * list (Z * event_name) :=
  fold_left (fire k) events st.

(** [run()] over the passes the engine makes. *)
Definition run (timeline : list tick) (w : World)
  : World * list (Z * event_name) :=
  fold_left pass timeline (w, []).

(** [main]: how the process ends (the code [main] returns: 1 before
    [run()], 0 after it; or the signal that has killed it during [run()]),
    the final state, and what has fired. *)
Definition main (fs : OS.filesystem) (timeline : list tick)
  (argv : list string) (w : World)
  : status * World * list (Z * event_name) :=
  match startup fs argv w with
  | Exit code w => (Returned code, w, [])
  | Launch w =>
      let '(w, fired) := run timeline w in
      match w_fate w with
      | Alive => (Returned 0%Z, w, fired)
      | Killed s => (Signalled s, w, fired)
      end
  end.

(** *** Start-up *)

(** [main] leaves before [run()] only when the parsing or the validation
    fails: whether the directories can be made and the log opened has no
    part in it. *)
Lemma startup_launch (fs : OS.filesystem) (argv : list string) (w w1 : World) :
  select_parser fs argv w = Launch w1 ->
  fst (validate_params (w_params w1)) = true ->
  exists w2, startup fs argv w = Launch w2.
Proof.
  intros Hparse Hvalid. unfold startup. rewrite Hparse.
  destruct (validate_params (w_params w1)) as [valid out].
  simpl in Hvalid. subst valid. cbn [negb].
  destruct (create_output_directory fs _) as [rc out'].
  destruct (open_log_files fs _ _) as [rc' w'].
  eexists. reflexivity.
Qed.

(** *** The statistics event *)

(** Where the remainder does not trap, the event hands the step to
    [write_statistics] when the iteration is a multiple of [log_interval]:
    at every step for the default interval 1. *)
Lemma statistics_samples (i : Z) (t dt : double) (w : World) :
  CInt.rem_traps i (log_interval (w_params w)) = false ->
  ((log_interval (w_params w) | i)%Z ->
   statistics i t dt w
   = write_statistics (two_phase_rho (rho1 (w_config w)) (rho2 (w_config w)))
       i t dt (w_params w) w) /\
  (~ (log_interval (w_params w) | i)%Z -> statistics i t dt w = w).
Proof.
  intros Hn. unfold statistics. rewrite Hn.
  apply CInt.rem_traps_false in Hn. destruct Hn as [Hn _].
  destruct (Z.eqb_spec (Z.rem i (log_interval (w_params w))) 0) as [E|E];
    rewrite Z.rem_divide in E by assumption; split; intros H;
    try reflexivity; contradiction.
Qed.

Lemma statistics_every_step (i : Z) (t dt : double) (w : World) :
  log_interval (w_params w) = 1%Z ->
  statistics i t dt w
  = write_statistics (two_phase_rho (rho1 (w_config w)) (rho2 (w_config w)))
      i t dt (w_params w) w.
Proof.
  intros H. unfold statistics.
  now rewrite H, CInt.rem_traps_one, Z.rem_1_r.
Qed.

(** Where it traps, the process is killed and nothing is recorded. *)
Lemma statistics_trap (i : Z) (t dt : double) (w : World) :
  CInt.rem_traps i (log_interval (w_params w)) = true ->
  statistics i t dt w = kill SIGFPE w.
Proof. intros H. unfold statistics. now rewrite H. Qed.

(** *** The configuration during the run *)

Lemma action_keeps_configuration (e : event_name) (k : tick) (w : World) :
  let w' := action e k w in
  w_params w' = w_params w /\ w_config w' = w_config w.
Proof.
  destruct e; cbn [action].
  - unfold init. destruct (restore _); split; reflexivity.
  - split; reflexivity.
  - unfold statistics, write_statistics.
    destruct (CInt.rem_traps _ _); [split; reflexivity|].
    destruct (Z.rem _ _ =? 0)%Z; [|split; reflexivity].
    destruct (negb _); [split; reflexivity|].
    destruct (_ || _); split; reflexivity.
  - split; reflexivity.
  - unfold cleanup, close_log_files.
    destruct (log_open _); split; reflexivity.
Qed.

Lemma fire_keeps_configuration (k : tick) (st : World * list (Z * event_name))
  (e : event_name) :
  w_params (fst (fire k st e)) = w_params (fst st)
  /\ w_config (fst (fire k st e)) = w_config (fst st).
Proof.
  unfold fire. destruct (w_fate (fst st)); [|split; reflexivity].
  destruct (due _ _ _); [|split; reflexivity].
  apply action_keeps_configuration.
Qed.

Lemma fold_fire_keeps_configuration (k : tick) (l : list event_name) :
  forall st : World * list (Z * event_name),
    w_params (fst (fold_left (fire k) l st)) = w_params (fst st)
    /\ w_config (fst (fold_left (fire k) l st)) = w_config (fst st).
Proof.
  induction l as [|e r IH]; intros st; cbn [fold_left]; [split; reflexivity|].
  destruct (IH (fire k st e)) as [Hp Hc]. rewrite Hp, Hc.
  apply fire_keeps_configuration.
Qed.

Lemma pass_keeps_configuration (k : tick) (st : World * list (Z * event_name)) :
  let st' := pass st k in
  w_params (fst st') = w_params (fst st)
  /\ w_config (fst st') = w_config (fst st).
Proof. apply fold_fire_keeps_configuration. Qed.

Lemma fold_pass_keeps_configuration (timeline : list tick) :
  forall st : World * list (Z * event_name),
    let st' := fold_left pass timeline st in
    w_params (fst st') = w_params (fst st)
    /\ w_config (fst st') = w_config (fst st).
Proof.
  induction timeline as [|k tl IH]; intros st; cbn [fold_left];
    [split; reflexivity|].
  destruct (IH (pass st k)) as [Hp Hc].
  cbn zeta in Hp, Hc. cbn zeta. rewrite Hp, Hc.
  apply pass_keeps_configuration.
Qed.

(** *** The signal *)

(** Once the process is killed nothing runs any more. *)
Lemma fold_fire_killed (k : tick) (l : list event_name) (s : signal) :
  forall st : World * list (Z * event_name),
    w_fate (fst st) = Killed s -> fold_left (fire k) l st = st.
Proof.
  induction l as [|e r IH]; intros st H; cbn [fold_left]; [reflexivity|].
  assert (E : fire k st e = st) by (unfold fire; now rewrite H).
  rewrite E. now apply IH.
Qed.

Lemma fold_pass_killed (timeline : list tick) (s : signal) :
  forall st : World * list (Z * event_name),
    w_fate (fst st) = Killed s -> fold_left pass timeline st = st.
Proof.
  induction timeline as [|k tl IH]; intros st H; cbn [fold_left];
    [reflexivity|].
  assert (E : pass st k = st) by (unfold pass; now apply fold_fire_killed with s).
  rewrite E. now apply IH.
Qed.

(** No event but [statistics] touches the fate of the process. *)
Lemma action_fate (e : event_name) (k : tick) (w : World) :
  w_fate (action e k w)
  = match e with
    | EvStatistics =>
        if CInt.rem_traps (tk_i k) (log_interval (w_params w))
        then Killed SIGFPE else w_fate w
    | _ => w_fate w
    end.
Proof.
  destruct e; cbn [action].
  - unfold init. destruct (restore _); reflexivity.
  - reflexivity.
  - unfold statistics, write_statistics.
    destruct (CInt.rem_traps _ _); [reflexivity|].
    destruct (Z.rem _ _ =? 0)%Z; [|reflexivity].
    destruct (negb _); [reflexivity|].
    destruct (_ || _); reflexivity.
  - reflexivity.
  - unfold cleanup, close_log_files.
    destruct (log_open _); reflexivity.
Qed.

Lemma fire_alive (k : tick) (st : World * list (Z * event_name))
  (e : event_name) :
  w_fate (fst st) = Alive ->
  e <> EvStatistics ->
  w_fate (fst (fire k st e)) = Alive.
Proof.
  intros H He. unfold fire. rewrite H.
  destruct (due _ _ _); [|exact H].
  cbn [fst]. rewrite action_fate. destruct e; congruence.
Qed.

(** A pass of a process that runs: it is killed in the event [statistics]
    when the remainder traps, and passes otherwise. *)
Lemma pass_fate (k : tick) (st : World * list (Z * event_name)) :
  w_fate (fst st) = Alive ->
  w_fate (fst (pass st k))
  = if CInt.rem_traps (tk_i k) (log_interval (w_params (fst st)))
    then Killed SIGFPE else Alive.
Proof.
  intros H. unfold pass, events. cbn [fold_left].
  set (s1 := fire k st EvInit).
  set (s2 := fire k s1 EvAdapt).
  assert (H1 : w_fate (fst s1) = Alive) by (apply fire_alive; congruence).
  assert (H2 : w_fate (fst s2) = Alive) by (apply fire_alive; congruence).
  assert (Hp : w_params (fst s2) = w_params (fst st)).
  { unfold s2, s1.
    rewrite (proj1 (fire_keeps_configuration k _ EvAdapt)).
    apply fire_keeps_configuration. }
  set (s3 := fire k s2 EvStatistics).
  assert (H3 : w_fate (fst s3)
               = if CInt.rem_traps (tk_i k) (log_interval (w_params (fst st)))
                 then Killed SIGFPE else Alive).
  { unfold s3, fire. rewrite H2. cbn [due fst].
    rewrite action_fate, Hp, H2. reflexivity. }
  revert H3.
  destruct (CInt.rem_traps (tk_i k) (log_interval (w_params (fst st))));
    intros H3.
  - change (fire k (fire k s3 EvSnapshots) EvCleanup)
      with (fold_left (fire k) [EvSnapshots; EvCleanup] s3).
    rewrite (fold_fire_killed k [EvSnapshots; EvCleanup] SIGFPE s3 H3).
    exact H3.
  - apply fire_alive; [|congruence].
    apply fire_alive; [exact H3|congruence].
Qed.

(** A run is killed exactly when the remainder traps at one of its
    passes. *)
Lemma fold_pass_fate (timeline : list tick) :
  forall st : World * list (Z * event_name),
    w_fate (fst st) = Alive ->
    w_fate (fst (fold_left pass timeline st))
    = if existsb (fun k => CInt.rem_traps (tk_i k)
                             (log_interval (w_params (fst st)))) timeline
      then Killed SIGFPE else Alive.
Proof.
  induction timeline as [|k tl IH]; intros st H; cbn [fold_left existsb];
    [exact H|].
  pose proof (pass_fate k st H) as Hk. revert Hk.
  destruct (CInt.rem_traps (tk_i k) (log_interval (w_params (fst st))));
    intros Hk.
  - rewrite (fold_pass_killed tl SIGFPE _ Hk). exact Hk.
  - cbn [orb]. rewrite (IH _ Hk).
    now rewrite (proj1 (pass_keeps_configuration k st)).
Qed.

Lemma run_alive (timeline : list tick) (w : World) :
  w_fate w = Alive ->
  (forall k, In k timeline ->
             CInt.rem_traps (tk_i k) (log_interval (w_params w)) = false) ->
  w_fate (fst (run timeline w)) = Alive.
Proof.
  intros H Hno. unfold run. rewrite fold_pass_fate by exact H. cbn [fst].
  destruct (existsb _ timeline) eqn:E; [|reflexivity].
  apply existsb_exists in E. destruct E as (k & Hin & Hk).
  rewrite (Hno k Hin) in Hk. discriminate Hk.
Qed.

(** *** The calls of the event [statistics] during a run *)

(** The event [statistics] called at one pass after the other, each time
    on the fields of that moment. *)
Definition record_steps (steps : list (tick * FieldState)) (w : World)
  : World :=
  fold_left (fun w s =>
               statistics (tk_i (fst s)) (tk_t (fst s)) (tk_dt (fst s))
                 (with_field (snd s) w)) steps w.

(** The fields the event [statistics] finds at a pass of the scheduler:
    the event [init], where it is due, and the event [adapt] have run
    before it. *)
Definition fields_at_statistics (k : tick) (w : World) : FieldState :=
  w_field (adapt (if c_eq (tk_t k) 0%float then init w else w)).

(** The passes of a run, each with the fields the event [statistics]
    finds. *)
Fixpoint passes_seen (timeline : list tick) (w : World)
  : list (tick * FieldState) :=
  match timeline with
  | [] => []
  | k :: tl =>
      let fld := fields_at_statistics k w in
      (k, fld) :: passes_seen tl (with_field fld w)
  end.

(** Two states of the process that differ in what was printed and in the
    snapshots written, at most. *)
Definition same_record (w w' : World) : Prop :=
  w_params w = w_params w' /\ w_config w = w_config w' /\
  w_field w = w_field w' /\ w_log w = w_log w' /\ w_fate w = w_fate w'.

Lemma same_record_refl (w : World) : same_record w w.
Proof. repeat split. Qed.

Lemma fields_at_statistics_ext (k : tick) (w w' : World) :
  w_params w = w_params w' -> w_field w = w_field w' ->
  fields_at_statistics k w = fields_at_statistics k w'.
Proof.
  destruct w as [p c f e l d ft], w' as [p' c' f' e' l' d' ft'].
  cbn [w_params w_field]. intros <- <-.
  unfold fields_at_statistics, adapt, init.
  destruct (c_eq (tk_t k) 0%float); cbn [w_field w_params with_field print];
    [destruct (restore _)|]; reflexivity.
Qed.

Lemma passes_seen_ext (timeline : list tick) :
  forall w w' : World,
    w_params w = w_params w' -> w_field w = w_field w' ->
    passes_seen timeline w = passes_seen timeline w'.
Proof.
  induction timeline as [|k tl IH]; intros w w' Hp Hf; cbn [passes_seen];
    [reflexivity|].
  rewrite (fields_at_statistics_ext k w w' Hp Hf). f_equal.
  apply IH; [exact Hp|reflexivity].
Qed.

Lemma statistics_same_record (i : Z) (t dt : double) (w w' : World) :
  same_record w w' ->
  same_record (statistics i t dt w) (statistics i t dt w').
Proof.
  intros (Hp & Hc & Hf & Hl & Ht). unfold statistics, write_statistics.
  rewrite Hp, Hc, Hl, Hf.
  destruct (CInt.rem_traps _ _); [repeat split; assumption|].
  destruct (Z.rem _ _ =? 0)%Z; [|repeat split; assumption].
  destruct (negb _); [repeat split; assumption|].
  destruct (_ || _); repeat split; assumption.
Qed.

Lemma record_steps_same_record (steps : list (tick * FieldState)) :
  forall w w' : World,
    same_record w w' ->
    same_record (record_steps steps w) (record_steps steps w').
Proof.
  unfold record_steps.
  induction steps as [|s r IH]; intros w w' H; cbn [fold_left]; [exact H|].
  apply IH. apply statistics_same_record.
  destruct H as (Hp & Hc & Hf & Hl & Ht). repeat split; assumption.
Qed.

(** A pass that does not end the run, on a process that runs: up to what
    is printed and the snapshots, it is the event [statistics] on the
    fields that [init] and [adapt] have left. *)
Lemma pass_same_record (k : tick) (st : World * list (Z * event_name)) :
  w_fate (fst st) = Alive -> tk_end k = false ->
  same_record (fst (pass st k))
    (statistics (tk_i k) (tk_t k) (tk_dt k)
       (with_field (fields_at_statistics k (fst st)) (fst st))).
Proof.
  intros Ha Hend. destruct st as [w fired]. cbn [fst] in *.
  unfold pass, events, fields_at_statistics. cbn [fold_left].
  (* init *)
  assert (H1 : exists f1,
             fire k (w, fired) EvInit
             = (if c_eq (tk_t k) 0%float then init w else w, f1)).
  { unfold fire. cbn [fst snd due action]. rewrite Ha.
    destruct (c_eq (tk_t k) 0%float); eexists; reflexivity. }
  destruct H1 as [f1 ->].
  set (w1 := if c_eq (tk_t k) 0%float then init w else w).
  assert (Ha1 : w_fate w1 = Alive).
  { unfold w1. destruct (c_eq (tk_t k) 0%float); [|exact Ha].
    pose proof (action_fate EvInit k w) as E. cbn [action] in E.
    now rewrite E. }
  assert (Hw1 : w_params w1 = w_params w /\ w_config w1 = w_config w
                /\ w_log w1 = w_log w).
  { unfold w1. destruct (c_eq (tk_t k) 0%float); [|repeat split].
    unfold init. destruct (restore _); repeat split. }
  destruct Hw1 as (Hp1 & Hc1 & Hl1).
  (* adapt *)
  assert (H2 : fire k (w1, f1) EvAdapt = (adapt w1, f1 ++ [(tk_i k, EvAdapt)]))
    by (unfold fire; cbn [fst snd due action]; now rewrite Ha1).
  rewrite H2.
  set (w2 := adapt w1).
  assert (Hw2 : same_record w2 (with_field (w_field w2) w)).
  { unfold w2, adapt. repeat split; cbn;
      first [assumption | reflexivity | congruence]. }
  (* statistics *)
  assert (H3 : fire k (w2, f1 ++ [(tk_i k, EvAdapt)]) EvStatistics
               = (statistics (tk_i k) (tk_t k) (tk_dt k) w2,
                  (f1 ++ [(tk_i k, EvAdapt)]) ++ [(tk_i k, EvStatistics)])).
  { unfold fire. cbn [fst snd due action].
    assert (E : w_fate w2 = Alive) by (destruct Hw2 as (_ & _ & _ & _ & E);
                                       rewrite E; exact Ha).
    now rewrite E. }
  rewrite H3.
  set (w3 := statistics (tk_i k) (tk_t k) (tk_dt k) w2).
  set (f3 := (f1 ++ [(tk_i k, EvAdapt)]) ++ [(tk_i k, EvStatistics)]).
  assert (Hw3 : same_record w3
                  (statistics (tk_i k) (tk_t k) (tk_dt k)
                     (with_field (w_field w2) w)))
    by now apply statistics_same_record.
  (* snapshots, and no cleanup *)
  assert (H4 : same_record (fst (fire k (w3, f3) EvSnapshots)) w3).
  { unfold fire. cbn [fst snd due action].
    destruct (w_fate w3); [|apply same_record_refl].
    destruct (_ && _); [|apply same_record_refl].
    cbn [fst]. repeat split. }
  assert (H5 : fire k (fire k (w3, f3) EvSnapshots) EvCleanup
               = fire k (w3, f3) EvSnapshots).
  { unfold fire at 1. cbn [due]. rewrite Hend.
    destruct (w_fate (fst (fire k (w3, f3) EvSnapshots))); reflexivity. }
  rewrite H5.
  destruct H4 as (A1 & A2 & A3 & A4 & A5).
  destruct Hw3 as (B1 & B2 & B3 & B4 & B5).
  repeat split; congruence.
Qed.

(** Over the passes of a run before the one that ends it, on a process
    that runs and a [log_interval] on which the remainder does not trap,
    the log and the fields are those that the event [statistics] leaves
    when it is called pass after pass on the fields of each pass. *)
Lemma run_same_record (timeline : list tick) (w : World) :
  w_fate w = Alive ->
  (forall k, In k timeline ->
     tk_end k = false /\
     CInt.rem_traps (tk_i k) (log_interval (w_params w)) = false) ->
  same_record (fst (run timeline w))
    (record_steps (passes_seen timeline w) w).
Proof.
  unfold run. generalize (@nil (Z * event_name)). revert w.
  induction timeline as [|k tl IH]; intros w fired Ha Hk;
    cbn [fold_left passes_seen record_steps].
  - apply same_record_refl.
  - destruct (Hk k (or_introl eq_refl)) as [Hend Hno].
    pose proof (pass_same_record k (w, fired) Ha Hend) as Hpass.
    cbn [fst] in Hpass.
    set (F := fields_at_statistics k w) in *.
    set (ws := statistics (tk_i k) (tk_t k) (tk_dt k) (with_field F w)) in *.
    destruct (pass (w, fired) k) as [w' fired'] eqn:Ep. cbn [fst] in Hpass.
    assert (Hws : w_params ws = w_params w /\ w_field ws = F
                  /\ w_fate ws = Alive).
    { unfold ws, statistics, write_statistics.
      cbn [with_field w_params w_config w_field w_log w_fate]. rewrite Hno.
      destruct (Z.rem _ _ =? 0)%Z; [|repeat split; assumption].
      destruct (negb _); [repeat split; assumption|].
      destruct (_ || _); repeat split; assumption. }
    destruct Hws as (Hps & Hfs & Has).
    destruct Hpass as (Hp & Hc & Hf & Hl & Ht).
    assert (Ha' : w_fate w' = Alive) by congruence.
    assert (Hk' : forall k', In k' tl ->
                    tk_end k' = false /\
                    CInt.rem_traps (tk_i k') (log_interval (w_params w'))
                    = false).
    { intros k' Hin. rewrite Hp, Hps. apply Hk. now right. }
    specialize (IH w' fired' Ha' Hk').
    unfold record_steps in *. cbn [fold_left fst snd tk_i].
    fold ws.
    rewrite (passes_seen_ext tl (with_field F w) w')
      by (cbn [with_field w_params w_field]; congruence).
    destruct IH as (I1 & I2 & I3 & I4 & I5).
    pose proof (record_steps_same_record (passes_seen tl w') w' ws
                  ltac:(repeat split; assumption)) as R.
    unfold record_steps in R.
    destruct R as (R1 & R2 & R3 & R4 & R5).
    repeat split; congruence.
Qed.

(** *** The initialization event *)

(** With a restart snapshot, the fields are the restored ones, whatever
    [refine] and [fraction] would do. *)
Lemma init_restored (w : World) (restored : FieldState) :
  restore (snprintf2 512 (output_dir (w_params w)) "/restart") = Some restored ->
  init w = print [RestoredFromRestart] (with_field restored w).
Proof. intros H. unfold init. now rewrite H. Qed.

(** Without one, the mesh is refined, the volume fraction set and the
    velocity written in every cell. *)
Lemma init_fresh (w : World) :
  restore (snprintf2 512 (output_dir (w_params w)) "/restart") = None ->
  let p := w_params w in
  w_field (init w)
  = map (set_impact_velocity_cell p)
      (fraction (drop_level_set p) (refine (refine_condition p) (w_field w)))
  /\ w_stderr (init w)
     = w_stderr w
       ++ [Initializing; RefinementComplete (MAXlevel p);
           DropSetupComplete (drop_x p) (drop_y p) (drop_radius p)
             (impact_velocity p);
           InitializationComplete].
Proof.
  intros H p. subst p. unfold init. rewrite H. cbn.
  split; [reflexivity|]. now rewrite <- !app_assoc.
Qed.

Lemma init_fresh_macros (w : World) :
  restore (snprintf2 512 (output_dir (w_params w)) "/restart") = None ->
  init w
  = print [InitializationComplete]
      (SETUP_INITIAL_DROP (w_params w)
         (REFINE_INITIAL_GRID (w_params w) (print [Initializing] w))).
Proof. intros H. unfold init. now rewrite H. Qed.

(** C1. When the log cannot be opened, [main] goes on all the same: it
    reaches [run()] with [log_fp] NULL, the scheduler makes its passes, and
    the exit code is 0. The input: [dropImpact case.params], with an empty
    parameter file (the defaults, which are valid) in a file system where no
    file can be opened for writing. *)
Theorem main_runs_without_log (timeline : list tick) (fld : FieldState) :
  let argv := ["dropImpact"; "case.params"]%string in
  let w0 := initial_world fld [] in
  exists w,
    startup log_unwritable_fs argv w0 = Launch w /\
    log_open (w_log w) = false /\
    In (ErrCannotOpenLog "results/log") (w_stderr w) /\
    main log_unwritable_fs timeline argv w0
    = (Returned 0%Z, fst (run timeline w), snd (run timeline w)).
Proof.
  intros argv w0.
  destruct (startup log_unwritable_fs argv w0) as [code w|w] eqn:E.
  - vm_compute in E. discriminate E.
  - exists w. split; [reflexivity|].
    assert (Hmain : w_fate w = Alive -> log_interval (w_params w) = 1%Z ->
                    main log_unwritable_fs timeline argv w0
                    = (Returned 0%Z, fst (run timeline w),
                       snd (run timeline w))).
    { intros Ha Hl. unfold main. rewrite E.
      pose proof (run_alive timeline w Ha) as Hr. revert Hr.
      destruct (run timeline w) as [w' fired]. cbn [fst snd]. intros Hr.
      rewrite Hr; [reflexivity|].
      intros k _. rewrite Hl. apply CInt.rem_traps_one. }
    vm_compute in E. injection E as <-.
    split; [reflexivity|]. split; [|apply Hmain; reflexivity].
    cbn. tauto.
Qed.


(** X18. The parameter [tsnap] has no effect on a run, and neither has
    [CaseNo]: no event reads them. Whatever they hold, every event is due
    at the same passes and does the same to the fields, the log, the
    snapshots, [stderr] and the fate of the process. *)
Theorem events_ignore_tsnap (v : double) (n : Z) (e : event_name) (k : tick)
  (w : World) :
  let p' := set_CaseNo n (set_tsnap v (w_params w)) in
  due p' e k = due (w_params w) e k /\
  action e k (with_params p' w) = with_params p' (action e k w).
Proof.
  destruct w as [p cfg fld err lg dumps ft]. destruct p.
  split; [destruct e; reflexivity|].
  destruct e; cbn [action].
  - unfold init. cbn. destruct (restore _); reflexivity.
  - reflexivity.
  - unfold statistics, write_statistics. cbn.
    destruct (CInt.rem_traps _ _); [reflexivity|].
    destruct (Z.rem _ _ =? 0)%Z; [|reflexivity].
    destruct (negb _); [reflexivity|].
    destruct (_ || _); reflexivity.
  - reflexivity.
  - unfold cleanup, close_log_files. cbn.
    destruct (log_open _); reflexivity.
Qed.

(** *** How [main] ends *)

(** What [main] may have done to the process before [run()]: changed
    [params] and printed. *)
Definition only_printed (w w' : World) (out : list line) : Prop :=
  w_log w' = w_log w /\ w_field w' = w_field w /\
  w_config w' = w_config w /\ w_dumps w' = w_dumps w /\
  w_fate w' = w_fate w /\
  w_stderr w' = (w_stderr w ++ out)%list.

Lemma select_parser_exit (fs : OS.filesystem) (argv : list string)
  (w w' : World) (code : Z) :
  select_parser fs argv w = Exit code w' ->
  code = 1%Z /\ exists out, out <> [] /\ only_printed w w' out.
Proof.
  unfold select_parser, only_printed.
  destruct (_ && _).
  - unfold parse_params_from_file.
    destruct (OS.fopen_read fs _); cbn; [discriminate|].
    intros H. injection H as <- <-. split; [reflexivity|].
    eexists. split; [|repeat split; cbn; rewrite <- app_assoc; reflexivity].
    discriminate.
  - destruct (Z.of_nat (List.length argv) >=? 7)%Z eqn:E.
    + unfold parse_params_from_cli.
      destruct (Z.of_nat (List.length argv) <? 7)%Z eqn:F; [lia|].
      cbn. discriminate.
    + intros H. injection H as <- <-. split; [reflexivity|].
      eexists. split; [|repeat split; reflexivity]. discriminate.
Qed.

Lemma select_parser_launch (fs : OS.filesystem) (argv : list string)
  (w w' : World) :
  select_parser fs argv w = Launch w' ->
  exists out, only_printed w w' out.
Proof.
  unfold select_parser, only_printed.
  destruct (_ && _).
  - destruct (parse_params_from_file atoi atof fs _ _) as [[rc p] out].
    destruct (negb _); [discriminate|].
    intros H. injection H as <-. eexists. repeat split.
  - destruct (Z.of_nat (List.length argv) >=? 7)%Z; [|discriminate].
    destruct (parse_params_from_cli atoi atof argv _) as [[rc p] out].
    destruct (negb _); [discriminate|].
    intros H. injection H as <-. eexists. repeat split.
Qed.

(** What [main] has done when it reaches [run()]. *)
Lemma startup_launch_inversion (fs : OS.filesystem) (argv : list string)
  (w w' : World) :
  startup fs argv w = Launch w' ->
  exists w1,
    select_parser fs argv w = Launch w1 /\
    fst (validate_params (w_params w1)) = true /\
    w_params w' = w_params w1 /\
    w_config w'
    = mkConfig (Ldomain (w_params w1)) 0.0%float 0.0%float
        (CInt.shl 1 (init_grid_level (w_params w1)))
        1.0%float (Ohd (w_params w1) / sqrt (We (w_params w1)))%float
        (rho_ratio (w_params w1))
        (Ohs (w_params w1) / sqrt (We (w_params w1)))%float
        (1.0 / We (w_params w1))%float /\
    w_field w' = init_grid (CInt.shl 1 (init_grid_level (w_params w1))) /\
    last (w_stderr w') ErrLogNotOpen = FromParams (ParamsSummary (w_params w1)) /\
    (log_open (w_log w') = true ->
     w_log w'
     = mkLog true []
         [Header (w_params w1)
            (sqrt (We (w_params w1)) / Ohd (w_params w1))%float]) /\
    w_fate w' = w_fate w1.
Proof.
  unfold startup.
  destruct (select_parser fs argv w) as [code w1|w1];
    [discriminate|].
  destruct (validate_params (w_params w1)) as [valid out] eqn:Hv.
  destruct valid; cbn [negb]; [|discriminate].
  destruct (create_output_directory fs _) as [rc out3].
  unfold open_log_files.
  destruct (create_output_directory fs _) as [rc' out4].
  destruct (OS.fopen_write_ok fs _); cbn;
    intros H; injection H as <-; exists w1; cbn; rewrite Hv;
    (repeat split; try reflexivity; try apply last_last; discriminate).
Qed.

(** X19. [main] returns 0 or 1, or the process is killed by SIGFPE. When
    it returns 1 it has not reached [run()]: no event has fired, the log
    has not been opened, no snapshot has been written, the fields and the
    globals of the solver are as they were, and at least one line on
    [stderr] tells why. It is killed exactly when it reaches [run()] and at
    one of the passes the remainder [i % log_interval] of the event
    [statistics] traps: at the first pass when [log_interval] is 0, a
    configuration that [validate_params] lets through. The calls of the
    engine are taken to return. *)
Theorem main_failure_explained (fs : OS.filesystem) (timeline : list tick)
  (argv : list string) (w : World) :
  let r := main fs timeline argv w in
  let p := w_params (snd (fst r)) in
  (fst (fst r) = Returned 0%Z \/ fst (fst r) = Returned 1%Z
   \/ fst (fst r) = Signalled SIGFPE) /\
  (fst (fst r) = Returned 1%Z ->
   snd r = [] /\
   exists out, out <> [] /\ only_printed w (snd (fst r)) out) /\
  (w_fate w = Alive ->
   (fst (fst r) = Signalled SIGFPE <->
    (exists w', startup fs argv w = Launch w') /\
    exists k, In k timeline /\
              CInt.rem_traps (tk_i k) (log_interval p) = true)).
Proof.
  intros r p. subst r p. unfold main.
  destruct (startup fs argv w) as [code w1|w1] eqn:E.
  - cbn [fst snd]. unfold startup in E.
    destruct (select_parser fs argv w) as [code' w2|w2] eqn:F.
    + injection E as <- <-.
      destruct (select_parser_exit fs argv w w2 code' F)
        as (-> & out & Hne & H).
      split; [right; now left|]. split.
      * intros _. split; [reflexivity|]. now exists out.
      * intros _. split; [discriminate|].
        intros [[w' Hw'] _]. discriminate Hw'.
    + destruct (select_parser_launch fs argv w w2 F)
        as (out1 & Hl & Hf & Hc & Hd & Hft & He).
      destruct (validate_params (w_params w2)) as [valid out2].
      destruct valid; cbn [negb] in E.
      * destruct (create_output_directory fs _) as [rc out3].
        destruct (open_log_files fs _ _) as [rc' w3].
        discriminate E.
      * injection E as <- <-.
        split; [right; now left|]. split.
        -- intros _. split; [reflexivity|].
           exists (out1 ++ map FromParams out2 ++ [ErrValidationFailed])%list.
           split; [destruct out1; [destruct (map FromParams out2)|];
                   discriminate|].
           unfold only_printed. cbn. rewrite He, <- !app_assoc.
           repeat split; assumption.
        -- intros _. split; [discriminate|].
           intros [[w' Hw'] _]. discriminate Hw'.
  - destruct (startup_launch_inversion fs argv w w1 E)
      as (w2 & Hsel & _ & _ & _ & _ & _ & _ & Hft).
    destruct (select_parser_launch fs argv w w2 Hsel)
      as (out1 & _ & _ & _ & _ & Hft2 & _).
    pose proof (fold_pass_keeps_configuration timeline (w1, [])) as Hp.
    change (fold_left pass timeline (w1, [])) with (run timeline w1) in Hp.
    cbn zeta in Hp. cbn [fst] in Hp. destruct Hp as [Hp _].
    pose proof (fold_pass_fate timeline (w1, [])) as Hfate.
    change (fold_left pass timeline (w1, [])) with (run timeline w1) in Hfate.
    cbn [fst] in Hfate. revert Hp Hfate.
    destruct (run timeline w1) as [w3 fired]. cbn [fst snd].
    intros Hp Hfate.
    destruct (w_fate w3) as [|s] eqn:Hw3; cbn [fst snd].
    + split; [now left|]. split; [discriminate|].
      intros Ha. split; [discriminate|].
      intros [_ (k & Hin & Hk)].
      assert (Hw1 : w_fate w1 = Alive) by congruence.
      specialize (Hfate Hw1).
      assert (Hex : existsb (fun k => CInt.rem_traps (tk_i k)
                                        (log_interval (w_params w1)))
                      timeline = true).
      { apply existsb_exists. exists k. split; [exact Hin|].
        now rewrite <- Hp. }
      rewrite Hex in Hfate. discriminate Hfate.
    + destruct s. split; [right; now right|]. split; [discriminate|].
      intros Ha. split; [|reflexivity]. intros _.
      split; [now exists w1|].
      assert (Hw1 : w_fate w1 = Alive) by congruence.
      specialize (Hfate Hw1).
      destruct (existsb _ timeline) eqn:Hex; [|discriminate Hfate].
      apply existsb_exists in Hex. destruct Hex as (k & Hin & Hk).
      exists k. split; [exact Hin|]. now rewrite Hp.
Qed.

(** With seven tokens or more the parameters are those of the legacy
    parser. *)
Lemma select_parser_cli (fs : OS.filesystem) (argv : list string)
  (w w1 : World) :
  (7 <= List.length argv)%nat ->
  select_parser fs argv w = Launch w1 ->
  w_params w1
  = snd (fst (parse_params_from_cli atoi atof argv (w_params w))).
Proof.
  intros Hlen. unfold select_parser.
  destruct (Z.eqb_spec (Z.of_nat (List.length argv)) 2) as [E|_]; [lia|].
  cbn [andb].
  destruct (Z.of_nat (List.length argv) >=? 7)%Z; [|discriminate].
  destruct (parse_params_from_cli atoi atof argv (w_params w))
    as [[rc p] out].
  destruct (negb _); [discriminate|].
  intros H. injection H as <-. reflexivity.
Qed.

(** X20. [main] reaches [run()] only with a configuration that
    [validate_params] has reported valid, and then the globals of the solver
    are set from it: [L0] is [Ldomain], the origin is (0, 0), [rho1 = 1],
    [rho2 = rho_ratio], [mu1 = Ohd/sqrt(We)], [mu2 = Ohs/sqrt(We)] and
    [f.sigma = 1/We]. The grid is made with the [int]
    [1 << init_grid_level] cells a side: [2^init_grid_level] for the levels
    0 to 30, and for the level 31, which no check excludes, the negative
    number -2147483648 that the shift leaves in an [int] of 32 bits. The
    last text printed is the summary of the parameters, and the log, when it
    is open, holds the header and nothing else. *)
Theorem startup_launch_configured (fs : OS.filesystem) (argv : list string)
  (w w' : World) :
  startup fs argv w = Launch w' ->
  let p := w_params w' in
  fst (validate_params p) = true /\
  w_config w'
  = mkConfig (Ldomain p) 0.0%float 0.0%float
      (CInt.shl 1 (init_grid_level p))
      1.0%float (Ohd p / sqrt (We p))%float (rho_ratio p)
      (Ohs p / sqrt (We p))%float (1.0 / We p)%float /\
  w_field w' = init_grid (CInt.shl 1 (init_grid_level p)) /\
  ((0 <= init_grid_level p <= 30)%Z ->
   grid_cells (w_config w') = (2 ^ init_grid_level p)%Z) /\
  (init_grid_level p = 31%Z ->
   grid_cells (w_config w') = (-2147483648)%Z) /\
  last (w_stderr w') ErrLogNotOpen = FromParams (ParamsSummary p) /\
  (log_open (w_log w') = true ->
   w_log w' = mkLog true [] [Header p (sqrt (We p) / Ohd p)%float]).
Proof.
  intros H p. subst p.
  destruct (startup_launch_inversion fs argv w w' H)
    as (w1 & _ & Hv & -> & Hc & Hf & He & Hl & _).
  rewrite Hc. cbn [grid_cells].
  repeat split; try assumption.
  - intros Hlvl. now apply CInt.shl_one.
  - intros ->. reflexivity.
Qed.

End Controller.

(** An engine to run the controller on: a mesh of two cells, one at the
    centre of the default drop and one far from it; no snapshot to restore;
    a mesh that [refine], [unrefine] and [adapt_wavelet] leave as it is; a
    volume fraction that is 1 where the level-set function is positive at
    the centre of the cell and 0 elsewhere. *)
Definition two_cells : FieldState :=
  [ mkCell 1.5 1.0 0.125 6 0.0 0.0 0.0;
    mkCell 3.5 3.5 0.125 6 0.0 0.0 0.0 ]%float.

Definition no_snapshot (_ : string) : option FieldState := None.

Definition keep_mesh (_ : Cell -> bool) (fld : FieldState) : FieldState := fld.

Definition keep_levels (_ : list double) (_ _ : Z) (fld : FieldState)
  : FieldState := fld.

Definition sharp_fraction (phi : double -> double -> double)
  (fld : FieldState) : FieldState :=
  map (fun c =>
         {| cx := cx c; cy := cy c; cDelta := cDelta c; clevel := clevel c;
            cf := if c_gt (phi (cx c) (cy c)) 0%float
                  then 1.0%float else 0.0%float;
            cux := cux c; cuy := cuy c |}) fld.

(** The run of C1 on this engine, over two passes of the scheduler: the
    events fire, both records are refused for want of a log, and the exit
    code is 0. *)
Example run_without_log :
  let timeline := [mkTick 0 0.0 0.001 false; mkTick 1 0.001 0.001 true]%float in
  let r := main (fun _ => 0%Z) (fun _ => 0%float) (fun _ => two_cells)
             no_snapshot keep_mesh keep_mesh sharp_fraction keep_levels
             (fun t => c_eq t 0%float)
             log_unwritable_fs timeline
             ["dropImpact"; "case.params"]%string (initial_world [] []) in
  fst (fst r) = Returned 0%Z /\
  snd r = [(0, EvInit); (0, EvAdapt); (0, EvStatistics); (0, EvSnapshots);
           (1, EvAdapt); (1, EvStatistics); (1, EvCleanup)]%Z /\
  filter (fun l => match l with ErrLogNotOpen => true | _ => false end)
    (w_stderr (snd (fst r))) = [ErrLogNotOpen; ErrLogNotOpen] /\
  log_disk (w_log (snd (fst r))) = [].
Proof. vm_compute. repeat split. Qed.

(** A run with the parameter file [log_interval=0], over the same two
    passes: the configuration is reported valid, the log is opened, and at
    the first pass the process is killed in the event [statistics]; no row
    is written, no snapshot is saved and the log is not closed. *)
Example run_killed_by_zero_log_interval :
  let timeline := [mkTick 0 0.0 0.001 false; mkTick 1 0.001 0.001 true]%float in
  let file := ("log_interval=0" ++ String newline "")%string in
  let r := main (fun _ => 0%Z) (fun _ => 0%float) (fun _ => two_cells)
             no_snapshot keep_mesh keep_mesh sharp_fraction keep_levels
             (fun t => c_eq t 0%float)
             (OS.fs_with_file "case.params" file) timeline
             ["dropImpact"; "case.params"]%string (initial_world [] []) in
  fst (fst r) = Signalled SIGFPE /\
  snd r = [(0, EvInit); (0, EvAdapt); (0, EvStatistics)]%Z /\
  fst (validate_params (w_params (snd (fst r)))) = true /\
  log_open (w_log (snd (fst r))) = true /\
  List.length (log_disk (w_log (snd (fst r)))) = 1%nat /\
  w_dumps (snd (fst r)) = [].
Proof. vm_compute. repeat split. Qed.

(** C4. The velocity the event [init] writes is not zero outside the drop
    for every configuration the program accepts. The input: the parameter
    file [impact_velocity=inf], which [atof] converts to an infinity.
    [validate_params] has no test on [impact_velocity] and reports the
    configuration valid; [init], with no restart snapshot, writes
    [u.x = impact_velocity * f] in every cell, and where [f] is 0 that
    product is a NaN, against the words of [geometry.h] (impact velocity
    inside the drop, zero outside). On the mesh of two cells: an infinity
    in the cell of the drop, a NaN in the cell outside it. *)
Theorem init_velocity_nan_outside_drop :
  let p := set_impact_velocity infinity default_params in
  let file := ("impact_velocity=inf" ++ String newline "")%string in
  (forall (atoi : string -> Z) (atof : string -> double),
     atof "inf"%string = infinity ->
     parse_params_from_file atoi atof (OS.fs_with_file "case.params" file)
       "case.params" zero_params
     = (0%Z, p, [])) /\
  validate_params p = (true, []) /\
  (forall (restore : string -> option FieldState)
          (refine : (Cell -> bool) -> FieldState -> FieldState)
          (fraction : (double -> double -> double) -> FieldState -> FieldState)
          (w : World) (c : Cell),
     w_params w = p ->
     restore (snprintf2 512 (output_dir p) "/restart") = None ->
     In c (w_field (init restore refine fraction w)) ->
     c_eq (cf c) 0%float = true ->
     is_nan (cux c) = true /\ c_eq (cux c) 0%float = false) /\
  w_field (init no_snapshot keep_mesh sharp_fraction
             (with_params p (initial_world two_cells [])))
  = [ mkCell 1.5 1.0 0.125 6 1.0 infinity 0.0;
      mkCell 3.5 3.5 0.125 6 0.0 nan 0.0 ]%float.
Proof.
  intros p file. split; [|split; [|split]].
  - intros atoi atof H.
    assert (E : parse_params_from_file atoi atof
                  (OS.fs_with_file "case.params" file) "case.params"
                  zero_params
                = (0%Z, set_impact_velocity (atof "inf"%string) default_params,
                   []))
      by reflexivity.
    rewrite E, H. reflexivity.
  - reflexivity.
  - intros restore refine fraction w c Hp Hnone Hin Hzero.
    assert (Hnone' : restore (snprintf2 512 (output_dir (w_params w))
                                "/restart") = None) by now rewrite Hp.
    destruct (init_fresh restore refine fraction w Hnone') as [Hfield _].
    cbn zeta in Hfield. rewrite Hfield in Hin.
    apply in_map_iff in Hin. destruct Hin as (c0 & <- & _).
    cbn [set_impact_velocity_cell cux cf] in *. rewrite Hp.
    change (impact_velocity p) with infinity.
    now apply mul_infinity_zero.
  - reflexivity.
Qed.

Lemma startup_launch_configured_witness :
  let atoi := fun _ : string => 0%Z in
  let atof := fun _ : string => 0%float in
  let init_grid := fun _ : Z => two_cells in
  exists w',
    startup atoi atof init_grid (OS.fs_with_file "case.params" "")
      ["dropImpact"; "case.params"]%string (initial_world [] []) = Launch w' /\
    fst (validate_params (w_params w')) = true /\
    grid_cells (w_config w') = 64%Z /\ L0 (w_config w') = 8.0%float.
Proof.
  intros atoi atof init_grid.
  destruct (startup atoi atof init_grid (OS.fs_with_file "case.params" "")
              ["dropImpact"; "case.params"]%string (initial_world [] []))
    as [code w'|w'] eqn:E.
  - vm_compute in E. discriminate E.
  - exists w'. split; [reflexivity|].
    destruct (startup_launch_configured atoi atof init_grid
                (OS.fs_with_file "case.params" "")
                ["dropImpact"; "case.params"]%string (initial_world [] [])
                w' E) as (Hvalid & Hcfg & _ & Hgrid & _).
    split; [exact Hvalid|]. split.
    + rewrite Hgrid.
      * vm_compute in E. injection E as <-. reflexivity.
      * vm_compute in E. injection E as <-. cbn. lia.
    + rewrite Hcfg. vm_compute in E. injection E as <-. reflexivity.
Defined.

(** The level 31 comes from a parameter file and passes the validation:
    the grid is then asked for with a negative number of cells. *)
Example startup_negative_grid :
  let atoi := fun s : string => if String.eqb s "31" then 31%Z else 0%Z in
  let file := ("init_grid_level=31" ++ String newline "")%string in
  exists w',
    startup atoi (fun _ => 0%float) (fun _ => two_cells)
      (OS.fs_with_file "case.params" file)
      ["dropImpact"; "case.params"]%string (initial_world [] []) = Launch w' /\
    grid_cells (w_config w') = (-2147483648)%Z.
Proof. eexists. split; vm_compute; reflexivity. Qed.

(** *** Checkpoint and restart *)

(** An engine whose [restore] reads what [dump] has written: the last
    snapshot written under the path, when there is one. *)
Definition holds_restart (path : string) (d : dump_name * FieldState) : bool :=
  match fst d with
  | RestartFile q => String.eqb q path
  | ArchiveFile _ _ => false
  end.

Definition restore_from (dumps : list (dump_name * FieldState))
  (path : string) : option FieldState :=
  match filter (holds_restart path) (rev dumps) with
  | [] => None
  | d :: _ => Some (snd d)
  end.

(** X21. The restart snapshot that the event [snapshots] writes is the one
    the event [init] restores: a run started with the same output directory
    on what [snapshots] has left takes the restored branch, and its fields
    are those of the moment of the snapshot; the numbered snapshot written
    after it does not stand in the way. *)
Theorem snapshot_then_init_restores
  (refine : (Cell -> bool) -> FieldState -> FieldState)
  (fraction : (double -> double -> double) -> FieldState -> FieldState)
  (t : double) (w w2 : World) :
  output_dir (w_params w2) = output_dir (w_params w) ->
  init (restore_from (w_dumps (snapshots t w))) refine fraction w2
  = print [RestoredFromRestart] (with_field (w_field w) w2).
Proof.
  intros H. unfold init. rewrite H.
  unfold snapshots, save_snapshot, restore_from.
  set (path := snprintf2 512 (output_dir (w_params w)) "/restart").
  cbn [w_dumps dump print w_field].
  rewrite !rev_app_distr. cbn [rev app filter holds_restart fst].
  rewrite String.eqb_refl. reflexivity.
Qed.

Lemma snapshot_then_init_restores_witness :
  let w := with_params default_params (initial_world two_cells []) in
  let w2 := with_params default_params (initial_world [] []) in
  w_field (init (restore_from (w_dumps (snapshots 0.01%float w)))
             keep_mesh sharp_fraction w2) = two_cells.
Proof.
  intros w w2.
  rewrite (snapshot_then_init_restores keep_mesh sharp_fraction 0.01%float
             w w2 eq_refl).
  reflexivity.
Defined.

(** *** The log over the calls of the event [statistics] *)

(** In the model of the scheduler, the passes of a run call the event in
    this way ([run_same_record]). *)

Lemma statistics_step (i : Z) (t dt : double) (w : World) :
  log_open (w_log w) = true -> log_buffer (w_log w) = [] ->
  CInt.rem_traps i (log_interval (w_params w)) = false ->
  let w' := statistics i t dt w in
  w_params w' = w_params w /\ w_config w' = w_config w /\
  w_fate w' = w_fate w /\
  log_open (w_log w') = true /\ log_buffer (w_log w') = [] /\
  log_disk (w_log w')
  = (log_disk (w_log w)
       ++ if (Z.rem i (log_interval (w_params w)) =? 0)%Z
          then [Row i dt t
                  (calculate_kinetic_energy
                     (two_phase_rho (rho1 (w_config w)) (rho2 (w_config w)))
                     (w_field w))]
          else [])%list.
Proof.
  intros Hopen Hbuf Hno. unfold statistics, write_statistics. rewrite Hno.
  destruct (Z.rem _ _ =? 0)%Z; cbn zeta.
  - rewrite Hopen, Hbuf. cbn [negb].
    destruct (_ || _); cbn; repeat split.
  - rewrite app_nil_r. repeat split; assumption.
Qed.

(** Where the divisor is not zero, the remainder of C is zero exactly when
    the remainder of the floored division is. *)
Lemma rem_zero_mod_zero (i n : Z) :
  n <> 0%Z -> (Z.rem i n =? 0)%Z = (i mod n =? 0)%Z.
Proof.
  intros Hn.
  destruct (Z.eqb_spec (Z.rem i n) 0) as [E|E],
    (Z.eqb_spec (i mod n) 0) as [F|F]; try reflexivity.
  - elim F. apply Z.mod_divide; [exact Hn|]. now apply Z.rem_divide.
  - elim E. apply Z.rem_divide; [exact Hn|]. now apply Z.mod_divide.
Qed.

Lemma record_steps_log (steps : list (tick * FieldState)) :
  forall w : World,
    log_open (w_log w) = true -> log_buffer (w_log w) = [] ->
    (forall s, In s steps ->
       CInt.rem_traps (tk_i (fst s)) (log_interval (w_params w)) = false) ->
    let w' := record_steps steps w in
    w_params w' = w_params w /\ w_config w' = w_config w /\
    w_fate w' = w_fate w /\
    log_open (w_log w') = true /\ log_buffer (w_log w') = [] /\
    log_disk (w_log w')
    = (log_disk (w_log w)
         ++ map (fun s =>
                   Row (tk_i (fst s)) (tk_dt (fst s)) (tk_t (fst s))
                     (calculate_kinetic_energy
                        (two_phase_rho (rho1 (w_config w)) (rho2 (w_config w)))
                        (snd s)))
              (filter (fun s => (tk_i (fst s) mod log_interval (w_params w)
                                 =? 0)%Z) steps))%list.
Proof.
  unfold record_steps.
  induction steps as [|s r IH]; intros w Hopen Hbuf Hno;
    cbn [fold_left filter].
  - cbn. rewrite app_nil_r. repeat split; assumption.
  - assert (Hs : CInt.rem_traps (tk_i (fst s)) (log_interval (w_params w))
                 = false) by (apply Hno; now left).
    destruct (statistics_step (tk_i (fst s)) (tk_t (fst s)) (tk_dt (fst s))
                (with_field (snd s) w) Hopen Hbuf Hs)
      as (Hp & Hc & Hf & Ho & Hb & Hd).
    cbn zeta in *.
    cbn [with_field w_params w_config w_log w_field w_fate] in Hp, Hc, Hf, Hd.
    destruct (IH _ Ho Hb) as (Hp' & Hc' & Hf' & Hopen' & Hbuf' & Hdisk).
    { intros s' Hin. rewrite Hp. apply Hno. now right. }
    cbn zeta in *.
    rewrite Hp', Hc', Hf', Hopen', Hbuf', Hdisk, Hd, Hp, Hc, Hf.
    apply CInt.rem_traps_false in Hs. destruct Hs as [Hn _].
    rewrite (rem_zero_mod_zero _ _ Hn).
    destruct (_ mod _ =? 0)%Z; cbn [map];
      rewrite <- app_assoc; repeat split.
Qed.

(** X22. The event [statistics], called pass after pass with the log open
    and a [log_interval] on which the remainder does not trap, makes the
    log file grow by one row for each pass whose iteration is a multiple of
    [log_interval], in the order of the passes. Each row holds the
    iteration, the timestep, the time and the kinetic energy of the fields
    of that pass: the sum over the cells, from 0 and in their order, of
    [2 pi y (0.5 rho(f) (u.x^2 + u.y^2)) Delta^2] with the density of the
    two phases of the run. What the file held is kept in front, nothing
    stays in the buffer, and the log stays open. *)
Theorem statistics_log_in_order (steps : list (tick * FieldState))
  (w : World) :
  log_open (w_log w) = true -> log_buffer (w_log w) = [] ->
  (forall s, In s steps ->
     CInt.rem_traps (tk_i (fst s)) (log_interval (w_params w)) = false) ->
  let rho := two_phase_rho (rho1 (w_config w)) (rho2 (w_config w)) in
  let row := fun s : tick * FieldState =>
    Row (tk_i (fst s)) (tk_dt (fst s)) (tk_t (fst s))
      (fold_left
         (fun ke c =>
            ke + 2.0 * M_PI * cy c
                 * (0.5 * rho (cf c) * (cux c * cux c + cuy c * cuy c))
                 * (cDelta c * cDelta c))%float
         (snd s) 0%float) in
  let w' := record_steps steps w in
  log_disk (w_log w')
  = (log_disk (w_log w)
       ++ map row
            (filter (fun s => (tk_i (fst s) mod log_interval (w_params w)
                               =? 0)%Z) steps))%list
  /\ log_buffer (w_log w') = [] /\ log_open (w_log w') = true
  /\ w_fate w' = w_fate w.
Proof.
  intros Hopen Hbuf Hno rho row w'. subst rho row w'.
  destruct (record_steps_log steps w Hopen Hbuf Hno)
    as (_ & _ & Hf & Ho & Hb & Hd).
  cbn zeta in *. repeat split; try assumption.
Qed.

(** The globals of the solver for a drop of density 1 in a gas of density
    0.001. *)
Definition sample_config : Config :=
  mkConfig 8.0%float 0.0%float 0.0%float 64%Z 1.0%float 0.001%float
    1.0e-3%float 0.00001%float 0.1%float.

Lemma statistics_log_in_order_witness :
  let w := with_config sample_config
             (with_params (set_log_interval 2 default_params) sample_world) in
  let steps :=
    [ (mkTick 0 0.0 0.001 false, sample_field);
      (mkTick 1 0.001 0.001 false, sample_field);
      (mkTick 2 0.002 0.001 false,
       [mkCell 0.0625 0.0625 0.125 6 1.0 (-0.5) 0.25]) ]%float in
  (forall s, In s steps -> CInt.rem_traps (tk_i (fst s)) 2 = false) /\
  log_disk (w_log (record_steps steps w))
  = [ Header default_params 0%float;
      Row 0 0.001%float 0.0%float 0.021334940356210849%float;
      Row 2 0.001%float 0.002%float 0.00095873799242852573%float ].
Proof.
  intros w steps.
  assert (Hno : forall s, In s steps ->
                  CInt.rem_traps (tk_i (fst s)) 2 = false).
  { intros s [<-|[<-|[<-|[]]]]; reflexivity. }
  split; [exact Hno|].
  destruct (statistics_log_in_order steps w eq_refl eq_refl Hno) as (H & _).
  exact H.
Defined.

(** In the model of the scheduler, the same over the passes of a run
    before the one that ends it: the log file grows by the rows of the
    passes, each with the kinetic energy of the fields that [init] and
    [adapt] have left at that pass. *)
Lemma run_log_in_order (restore : string -> option FieldState)
  (refine unrefine : (Cell -> bool) -> FieldState -> FieldState)
  (fraction : (double -> double -> double) -> FieldState -> FieldState)
  (adapt_wavelet : list double -> Z -> Z -> FieldState -> FieldState)
  (snapshot_time : double -> bool) (timeline : list tick) (w : World) :
  w_fate w = Alive ->
  log_open (w_log w) = true -> log_buffer (w_log w) = [] ->
  (forall k, In k timeline ->
     tk_end k = false /\
     CInt.rem_traps (tk_i k) (log_interval (w_params w)) = false) ->
  let w' := fst (run restore refine unrefine fraction adapt_wavelet
                   snapshot_time timeline w) in
  let steps := passes_seen restore refine unrefine fraction adapt_wavelet
                 timeline w in
  map fst steps = timeline /\
  log_disk (w_log w')
  = (log_disk (w_log w)
       ++ map (fun s =>
                 Row (tk_i (fst s)) (tk_dt (fst s)) (tk_t (fst s))
                   (calculate_kinetic_energy
                      (two_phase_rho (rho1 (w_config w)) (rho2 (w_config w)))
                      (snd s)))
            (filter (fun s => (tk_i (fst s) mod log_interval (w_params w)
                               =? 0)%Z) steps))%list
  /\ log_buffer (w_log w') = [] /\ log_open (w_log w') = true.
Proof.
  intros Ha Hopen Hbuf Hk w' steps.
  assert (Hfst : forall tl w0,
            map fst (passes_seen restore refine unrefine fraction
                       adapt_wavelet tl w0) = tl).
  { induction tl as [|k tl IH]; intros w0; cbn [passes_seen map fst];
      [reflexivity|]. now rewrite IH. }
  split; [apply Hfst|].
  destruct (run_same_record restore refine unrefine fraction adapt_wavelet
              snapshot_time timeline w Ha Hk) as (_ & _ & _ & Hl & _).
  fold w' in Hl. fold steps in Hl. rewrite Hl.
  assert (Hno : forall s, In s steps ->
                  CInt.rem_traps (tk_i (fst s)) (log_interval (w_params w))
                  = false).
  { intros s Hs. apply Hk. rewrite <- (Hfst timeline w).
    fold steps. now apply in_map. }
  destruct (record_steps_log steps w Hopen Hbuf Hno)
    as (_ & _ & _ & Ho & Hb & Hd).
  cbn zeta in *. repeat split; assumption.
Qed.

End DropImpact.

(** ** [dropImpact_legacy.c]: the case as it was before the configuration
    structure *)

Module Legacy.
Import CDouble CStr Engine.

(** The constants of the file. *)
Definition fErr : double := 1e-3%float.
Definition KErr : double := 1e-6%float.
Definition VelErr : double := 1e-2%float.
Definition Rho21 : double := 1e-3%float.
Definition Xdist : double := 1.02%float.
Definition MINlevel : Z := 4.
Definition tsnap : double := 0.01%float.

(** [R2Drop(x, y)]. *)
Definition R2Drop (x y : double) : double := (sq (x - Xdist) + sq y)%float.

(** The globals [main] sets from the command line; nothing sets [Bo]. *)
Record globals : Type := mkGlobals {
  MAXlevel : Z;
  tmax : double;
  We : double;
  Ohd : double;
  Ohs : double;
  Bo : double;
  Ldomain : double
}.

(** What the program prints on [ferr], and the lines of the file [log]. *)
Inductive line : Type :=
| LackOfArguments (missing : Z)
| Levels (g : globals)
| ColumnsEcho
| RowEcho (i : Z) (dt t ke : double).

Inductive log_line : Type :=
| LogLevels (maxlevel : Z) (tmax We Ohd Ohs : double)
| LogColumns
| LogRow (i : Z) (dt t ke : double).

(** The files [dump] writes: [restart], and
    [intermediate/snapshot-<t>] with the time printed by [%5.4f]. *)
Inductive dump_file : Type :=
| Restart
| Snapshot (t : double).

Record World : Type := mkWorld {
  l_globals : globals;
  l_config : Config;
  l_field : FieldState;
  l_ferr : list line;
  l_log : list log_line;
  l_dumps : list (dump_file * FieldState);
  l_commands : list string
}.

Definition print (l : list line) (w : World) : World :=
  {| l_globals := l_globals w; l_config := l_config w; l_field := l_field w;
     l_ferr := l_ferr w ++ l; l_log := l_log w; l_dumps := l_dumps w;
     l_commands := l_commands w |}.

Definition with_field (fld : FieldState) (w : World) : World :=
  {| l_globals := l_globals w; l_config := l_config w; l_field := fld;
     l_ferr := l_ferr w; l_log := l_log w; l_dumps := l_dumps w;
     l_commands := l_commands w |}.

Definition with_log (lg : list log_line) (w : World) : World :=
  {| l_globals := l_globals w; l_config := l_config w; l_field := l_field w;
     l_ferr := l_ferr w; l_log := lg; l_dumps := l_dumps w;
     l_commands := l_commands w |}.

Definition dump (name : dump_file) (w : World) : World :=
  {| l_globals := l_globals w; l_config := l_config w; l_field := l_field w;
     l_ferr := l_ferr w; l_log := l_log w;
     l_dumps := l_dumps w ++ [(name, l_field w)];
     l_commands := l_commands w |}.

Section Case.

(** libc, and the engine. [pi] is the constant of that name of the
    engine. *)
Variable atoi : string -> Z.
Variable atof : string -> double.
Variable init_grid : Z -> FieldState.
Variable restore : string -> option FieldState.
Variable refine : (Cell -> bool) -> FieldState -> FieldState.
Variable unrefine : (Cell -> bool) -> FieldState -> FieldState.
Variable fraction : (double -> double -> double) -> FieldState -> FieldState.
Variable adapt_wavelet : list double -> Z -> Z -> FieldState -> FieldState.
Variable rho : double -> double.
Variable pi : double.

(** [main], up to the call of [run()]. *)
Inductive startup_result : Type :=
| Exit (code : Z) (w : World)
| Launch (w : World).

Definition startup (argv : list string) (w : World) : startup_result :=
  let argc := Z.of_nat (List.length argv) in
  let arg (i : nat) := nth i argv EmptyString in
  if (argc <? 7)%Z then Exit 1 (print [LackOfArguments (8 - argc)] w)
  else
    let g := {| MAXlevel := atoi (arg 1%nat);
                tmax := atof (arg 2%nat);
                We := atof (arg 3%nat);
                Ohd := atof (arg 4%nat);
                Ohs := atof (arg 5%nat);
                Bo := Bo (l_globals w);
                Ldomain := atof (arg 6%nat) |} in
    let cfg := {| L0 := Ldomain g; X0 := 0.0; Y0 := 0.0;
                  grid_cells := Z.shiftl 1 6;
                  rho1 := 1.0;
                  mu1 := Ohd g / sqrt (We g);
                  rho2 := Rho21;
                  mu2 := Ohs g / sqrt (We g);
                  f_sigma := 1.0 / We g |}%float in
    Launch
      {| l_globals := g; l_config := cfg;
         l_field := init_grid (Z.shiftl 1 6);
         l_ferr := l_ferr w ++ [Levels g];
         l_log := l_log w; l_dumps := l_dumps w;
         l_commands := l_commands w ++ ["mkdir -p intermediate"%string] |}.

(** The condition given to [refine], the function given to [fraction] and
    the body of the loop that sets the velocity, in [event init]. *)
Definition refine_condition (maxlevel : Z) (c : Cell) : bool :=
  c_lt (R2Drop (cx c) (cy c)) 1.05%float && (clevel c <? maxlevel)%Z.

Definition level_set (x y : double) : double := (1.0 - R2Drop x y)%float.

Definition set_velocity_cell (c : Cell) : Cell :=
  {| cx := cx c; cy := cy c; cDelta := cDelta c; clevel := clevel c;
     cf := cf c;
     cux := (-1.0 * cf c)%float;
     cuy := 0.0%float |}.

(** [event init (t = 0)]. *)
Definition init (w : World) : World :=
  match restore "restart" with
  | None =>
      let fld := refine (refine_condition (MAXlevel (l_globals w)))
                   (l_field w) in
      let fld := fraction level_set fld in
      with_field (map set_velocity_cell fld) w
  | Some restored => with_field restored w
  end.

(** [event adapt (i++)]. *)
Definition adapt (w : World) : World :=
  let g := l_globals w in
  let fld := adapt_wavelet [fErr; KErr; VelErr; VelErr] (MAXlevel g) MINlevel
               (l_field w) in
  let fld := unrefine (fun c =>
                 c_gt (cx c) (0.95 * Ldomain g)%float
                 || c_gt (cy c) 4e0%float) fld in
  with_field fld w.

(** [event writingFiles (t = 0, t += tsnap; t <= tmax)]. *)
Definition writingFiles (t : double) (w : World) : World :=
  dump (Snapshot t) (dump Restart w).

(** The sum of [event logWriting]. *)
Definition ke_term (c : Cell) : double :=
  (2.0 * pi * cy c * (0.5 * rho (cf c) * (sq (cux c) + sq (cuy c)))
   * sq (cDelta c))%float.

Definition kinetic_energy (fld : FieldState) : double :=
  fold_left (fun ke c => (ke + ke_term c)%float) fld 0.0%float.

(** [event logWriting (i++)]. The file is opened anew at every call, for
    writing at iteration 0 and for appending afterwards, and what [fopen]
    returns is not looked at: where the file cannot be opened the program
    has no defined behaviour, which [None] stands for. *)
Definition logWriting (writable : bool) (i : Z) (dt t : double) (w : World)
  : option World :=
  let ke := kinetic_energy (l_field w) in
  let g := l_globals w in
  if (i =? 0)%Z then
    let w := print [ColumnsEcho] w in
    if writable then
      let w := with_log [LogLevels (MAXlevel g) (tmax g) (We g) (Ohd g) (Ohs g);
                         LogColumns; LogRow i dt t ke] w in
      Some (print [RowEcho i dt t ke] w)
    else None
  else
    if writable then
      let w := with_log (l_log w ++ [LogRow i dt t ke]) w in
      Some (print [RowEcho i dt t ke] w)
    else None.

(** *** The legacy command line, then and now *)

(** X28. Backward compatibility of the legacy command line. Whenever the
    refactored [main] reaches [run()] on seven tokens or more, the legacy
    [main] reaches it too on the same tokens, with the same globals of the
    solver (domain, origin, densities, viscosities, surface tension), the
    same initial grid and the same six parameters, and from then on the
    event [adapt] of the two programs does the same to any fields. *)
Theorem legacy_command_line_same_solver (fs : OS.filesystem)
  (argv : list string) (w w' : Process.World) (lw : World) :
  DropImpact.startup atoi atof init_grid fs argv w = DropImpact.Launch w' ->
  (7 <= List.length argv)%nat ->
  exists lw',
    startup argv lw = Launch lw' /\
    l_config lw' = Process.w_config w' /\
    l_field lw' = Process.w_field w' /\
    MAXlevel (l_globals lw') = Params.MAXlevel (Process.w_params w') /\
    tmax (l_globals lw') = Params.tmax (Process.w_params w') /\
    We (l_globals lw') = Params.We (Process.w_params w') /\
    Ohd (l_globals lw') = Params.Ohd (Process.w_params w') /\
    Ohs (l_globals lw') = Params.Ohs (Process.w_params w') /\
    Ldomain (l_globals lw') = Params.Ldomain (Process.w_params w') /\
    forall fld,
      l_field (adapt (with_field fld lw'))
      = Process.w_field
          (DropImpact.adapt unrefine adapt_wavelet (Process.with_field fld w')).
Proof.
  intros Hstart Hlen.
  destruct (DropImpact.startup_launch_inversion atoi atof init_grid fs argv
              w w' Hstart) as (w1 & Hsel & _ & Hp & Hc & Hf & _).
  pose proof (DropImpact.select_parser_cli atoi atof fs argv w w1 Hlen Hsel)
    as Hcli.
  destruct (Params.parse_params_from_cli_fields atoi atof argv
              (Process.w_params w) Hlen)
    as (Hmax & Htmax & HWe & HOhd & HOhs & HL & Hrho & Hmin & Hlvl
        & HfErr & HKErr & HVelErr & Hox & Hoy).
  cbn zeta in *. rewrite <- Hcli, <- Hp in *. clear Hcli Hsel Hp w1.
  unfold startup.
  destruct (Z.ltb_spec (Z.of_nat (List.length argv)) 7) as [E|_]; [lia|].
  eexists. split; [reflexivity|].
  cbn [l_config l_field l_globals MAXlevel tmax We Ohd Ohs Ldomain].
  rewrite Hc, Hf, Hmax, Htmax, HWe, HOhd, HOhs, HL, Hrho, Hlvl.
  repeat split.
  intros fld. unfold adapt, DropImpact.adapt.
  cbn [with_field l_field l_globals MAXlevel Ldomain
       Process.with_field Process.w_field Process.w_params].
  rewrite Hmax, HL, Hmin, HfErr, HKErr, HVelErr, Hox, Hoy.
  reflexivity.
Qed.

(** X29. The initial condition, then and now. For a configuration with
    the drop of the legacy case (centre (1.02, 0), radius 1), the function
    the refactored [init] gives to [fraction] takes the same value as the
    legacy one at every point, and every cell the legacy [init] asks
    [refine] to refine, the refactored one asks for too: the legacy test is
    [R2Drop < 1.05], the refactored one compares the same squared distance
    with [1.05 * 1.05]. *)
Theorem legacy_initial_condition (p : Params.SimulationParams) :
  Params.drop_x p = Xdist -> Params.drop_y p = 0.0%float ->
  Params.drop_radius p = 1.0%float ->
  (forall x y, Geometry.drop_distance_squared x y p = R2Drop x y) /\
  (forall x y, Geometry.drop_level_set p x y = level_set x y) /\
  (forall c, refine_condition (Params.MAXlevel p) c = true ->
             Geometry.refine_condition p c = true).
Proof.
  intros Hx Hy Hr.
  assert (Hd : forall x y, Geometry.drop_distance_squared x y p = R2Drop x y).
  { intros x y. unfold Geometry.drop_distance_squared, R2Drop, sq.
    now rewrite Hx, Hy, sub_zero_r. }
  split; [exact Hd|]. split.
  - intros x y. unfold Geometry.drop_level_set, level_set.
    now rewrite Hd, Hr.
  - intros c H. unfold refine_condition in H.
    apply andb_true_iff in H. destruct H as [Hin Hlevel].
    unfold Geometry.refine_condition. rewrite Hd, Hr, Hlevel, andb_true_r.
    apply c_lt_trans with 1.05%float; [assumption|reflexivity].
Qed.

(** *** The legacy log *)

(** A pass as [logWriting] meets it: the iteration, the timestep, the
    time and the fields. *)
Definition log_steps (steps : list (Z * double * double * FieldState))
  (w : World) : option World :=
  fold_left
    (fun (ow : option World) s =>
       match ow with
       | Some w =>
           let '(i, dt, t, fld) := s in
           logWriting true i dt t (with_field fld w)
       | None => None
       end) steps (Some w).

Definition log_row_of (s : Z * double * double * FieldState) : log_line :=
  let '(i, dt, t, fld) := s in LogRow i dt t (kinetic_energy fld).

Definition echo_of (s : Z * double * double * FieldState) : line :=
  let '(i, dt, t, fld) := s in RowEcho i dt t (kinetic_energy fld).

Lemma log_steps_append (steps : list (Z * double * double * FieldState)) :
  forall w,
    (forall s, In s steps -> fst (fst (fst s)) <> 0%Z) ->
    exists w',
      log_steps steps w = Some w' /\
      l_log w' = (l_log w ++ map log_row_of steps)%list /\
      l_ferr w' = (l_ferr w ++ map echo_of steps)%list /\
      l_globals w' = l_globals w.
Proof.
  unfold log_steps.
  induction steps as [|s r IH]; intros w H.
  - exists w. cbn. rewrite !app_nil_r. repeat split.
  - destruct s as [[[i dt] t] fld]. cbn [fold_left].
    assert (Hi : i <> 0%Z) by (apply (H (i, dt, t, fld)); now left).
    unfold logWriting. destruct (Z.eqb_spec i 0) as [->|_]; [congruence|].
    destruct (IH (print [RowEcho i dt t (kinetic_energy fld)]
                    (with_log (l_log w ++ [LogRow i dt t (kinetic_energy fld)])
                       (with_field fld w))))
      as (w' & Hrun & Hlog & Herr & Hg).
    { intros s Hs. apply H. now right. }
    exists w'. split; [exact Hrun|].
    rewrite Hlog, Herr, Hg. cbn. rewrite <- !app_assoc. repeat split.
Qed.

(** X30. The legacy log. At iteration 0 [logWriting] starts the file anew
    with the two lines of the header and the row of the iteration; at any
    later iteration it adds one row at the end and keeps what the file held.
    So a run from iteration 0 leaves the header and one row for each pass,
    in order, and every row is also printed on [ferr], after the line of
    the column names. *)
Theorem legacy_log_rows (i0 : Z) (dt0 t0 : double) (fld0 : FieldState)
  (rest : list (Z * double * double * FieldState)) (w : World) :
  i0 = 0%Z ->
  (forall s, In s rest -> fst (fst (fst s)) <> 0%Z) ->
  let g := l_globals w in
  let steps := (i0, dt0, t0, fld0) :: rest in
  exists w',
    log_steps steps w = Some w' /\
    l_log w'
    = (LogLevels (MAXlevel g) (tmax g) (We g) (Ohd g) (Ohs g) :: LogColumns
         :: map log_row_of steps) /\
    l_ferr w' = (l_ferr w ++ ColumnsEcho :: map echo_of steps)%list.
Proof.
  intros -> Hrest g steps. subst g steps.
  unfold log_steps. cbn [fold_left]. unfold logWriting at 1. cbn [Z.eqb].
  destruct (log_steps_append rest
              (print [RowEcho 0 dt0 t0 (kinetic_energy fld0)]
                 (with_log
                    [LogLevels (MAXlevel (l_globals w)) (tmax (l_globals w))
                       (We (l_globals w)) (Ohd (l_globals w))
                       (Ohs (l_globals w));
                     LogColumns; LogRow 0 dt0 t0 (kinetic_energy fld0)]
                    (print [ColumnsEcho] (with_field fld0 w)))) Hrest)
    as (w' & Hrun & Hlog & Herr & _).
  exists w'. split; [exact Hrun|].
  rewrite Hlog, Herr. cbn. rewrite <- !app_assoc. split; reflexivity.
Qed.

End Case.

(** The process when the legacy [main] starts. *)
Definition initial_world (fld : FieldState) (log : list log_line) : World :=
  {| l_globals := mkGlobals 0%Z 0%float 0%float 0%float 0%float 0%float
                    0%float;
     l_config := mkConfig 0%float 0%float 0%float 0%Z 0%float 0%float
                   0%float 0%float 0%float;
     l_field := fld; l_ferr := []; l_log := log; l_dumps := [];
     l_commands := [] |}.

Lemma legacy_command_line_same_solver_witness :
  let atoi := fun _ : string => 10%Z in
  let atof := fun _ : string => 4.0%float in
  let init_grid := fun _ : Z => DropImpact.two_cells in
  exists lw',
    startup atoi atof init_grid Params.legacy_tokens (initial_world [] [])
    = Launch lw' /\
    L0 (l_config lw') = 4.0%float /\ grid_cells (l_config lw') = 64%Z.
Proof.
  intros atoi atof init_grid.
  destruct (DropImpact.startup atoi atof init_grid
              (OS.fs_with_file "case.params" "") Params.legacy_tokens
              (Process.initial_world [] [])) as [code w'|w'] eqn:E.
  - vm_compute in E. discriminate E.
  - destruct (legacy_command_line_same_solver atoi atof init_grid
                DropImpact.keep_mesh DropImpact.keep_levels
                (OS.fs_with_file "case.params" "") Params.legacy_tokens
                (Process.initial_world [] []) w' (initial_world [] []) E)
      as (lw' & Hstart & Hcfg & _).
    + cbn. lia.
    + exists lw'. split; [exact Hstart|]. rewrite Hcfg.
      vm_compute in E. injection E as <-. split; reflexivity.
Defined.

Lemma legacy_initial_condition_witness :
  let p := Params.set_drop_x Xdist
             (Params.set_drop_y 0.0%float Params.default_params) in
  let c := (mkCell 1.5 0.5 0.125 6 0.0 0.0 0.0)%float in
  refine_condition 10 c = true /\ Geometry.refine_condition p c = true.
Proof.
  intros p c. split; [reflexivity|].
  destruct (legacy_initial_condition p eq_refl eq_refl eq_refl)
    as (_ & _ & H).
  apply H. reflexivity.
Defined.

Lemma legacy_log_rows_witness :
  let rho := fun _ : double => 1.0%float in
  let pi := 3.14159265358979%float in
  let w := initial_world [] [LogColumns] in
  exists w',
    log_steps rho pi [(0%Z, 0.001, 0.0, []); (1%Z, 0.001, 0.001, [])]%float w
    = Some w' /\
    l_log w'
    = [ LogLevels 0 0 0 0 0; LogColumns;
        LogRow 0 0.001 0.0 0.0; LogRow 1 0.001 0.001 0.0 ]%float.
Proof.
  intros rho pi w.
  destruct (legacy_log_rows rho pi 0%Z 0.001%float 0.0%float []
              [(1%Z, 0.001, 0.001, [])]%float w eq_refl)
    as (w' & Hrun & Hlog & _).
  - intros s [<-|[]]. discriminate.
  - exists w'. split; [exact Hrun|exact Hlog].
Defined.

End Legacy.

(** ** [getFootPrint.c]: the footprint probe *)

Module FootPrint.
Import CDouble CStr Engine.
Local Open Scope float_scope.

(** [coord] of Basilisk, in two dimensions. *)
Record coord : Type := mkCoord {
  coord_x : double;
  coord_y : double
}.

(** [footprint_config]. *)
Record footprint_config : Type := mkFootprint {
  snapshot : string;
  x_cutoff : double
}.

(** What the probe prints on [stderr]. *)
Inductive msg : Type :=
| ErrExpectedTwoArguments
| UsageLine (prog : string)
| ErrCutoffNotPositive
| Csv (timestamp y_max : double).

(** [interface_cell]. *)
Definition interface_cell (vof_value : double) : bool :=
  let eps := 1e-6 in
  c_gt vof_value eps && c_lt vof_value (1.0 - eps).

(** [segment_midpoint]. *)
Definition segment_midpoint (cell_center delta end0 end1 : double) : double :=
  cell_center + 0.5 * delta * (end0 + end1).

Section Probe.

(** [atof] of libc. *)
Variable atof : string -> double.

(** The reconstruction of the engine: the normal of the interface in a
    cell (from the volume fraction in the cell and around it, with the
    boundary condition on the axis), the offset [plane_alpha], and [facets],
    which returns the number of end points and the segment. *)
Variable facet_normal : FieldState -> Cell -> coord.
Variable plane_alpha : double -> coord -> double.
Variable facets : coord -> double -> Z * (coord * coord).

(** The snapshot a file restores: the fields and the time [t]. *)
Variable restore : string -> option (FieldState * double).

(** [parse_arguments]: the value returned (1 or 0), the configuration and
    the text printed. *)
Definition parse_arguments (argv : list string) (cfg : footprint_config)
  : Z * footprint_config * list msg :=
  let argc := Z.of_nat (List.length argv) in
  if negb (argc =? 3)%Z then
    (0%Z, cfg, [ErrExpectedTwoArguments; UsageLine (nth 0%nat argv EmptyString)])
  else
    let cfg := mkFootprint (strncpy 255 (nth 1%nat argv EmptyString))
                 (atof (nth 2%nat argv EmptyString)) in
    if c_le (x_cutoff cfg) 0.0 then (0%Z, cfg, [ErrCutoffNotPositive])
    else (1%Z, cfg, []).

(** The body of the loop of [compute_maximum_interface_height]. *)
Definition visit (fld : FieldState) (x_cutoff : double) (y_max : double)
  (c : Cell) : double :=
  if c_ge (cx c) x_cutoff || negb (interface_cell (cf c)) then y_max
  else
    let n := facet_normal fld c in
    let alpha := plane_alpha (cf c) n in
    let '(npoints, (end0, end1)) := facets n alpha in
    if negb (npoints =? 2)%Z then y_max
    else
      let y_mid := segment_midpoint (cy c) (cDelta c)
                     (coord_y end0) (coord_y end1) in
      if c_gt y_mid y_max then y_mid else y_max.

(** [compute_maximum_interface_height]: [y_max] starts at 0. *)
Definition compute_maximum_interface_height (fld : FieldState)
  (x_cutoff : double) : double :=
  fold_left (visit fld x_cutoff) fld 0.0.

(** [main]: the exit code and the text printed. Without a snapshot to
    restore, the fields are those of the mesh the engine starts with, at
    time 0. *)
Definition main (initial : FieldState) (argv : list string)
  : Z * list msg :=
  let '(ok, cfg, out) := parse_arguments argv (mkFootprint EmptyString 0.0) in
  if (ok =? 0)%Z then (1%Z, out)
  else
    let '(fld, t) :=
      match restore (snapshot cfg) with
      | Some st => st
      | None => (initial, 0.0)
      end in
    let y_max := compute_maximum_interface_height fld (x_cutoff cfg) in
    (0%Z, out ++ [Csv t y_max]).

(** *** The maximum and the window *)

(** The height a cell contributes when it is visited inside the window:
    the midpoint of its segment, for an interface cell with a two-point
    reconstruction. *)
Definition candidate (fld : FieldState) (c : Cell) : option double :=
  if interface_cell (cf c) then
    let n := facet_normal fld c in
    let alpha := plane_alpha (cf c) n in
    let '(npoints, (end0, end1)) := facets n alpha in
    if (npoints =? 2)%Z
    then Some (segment_midpoint (cy c) (cDelta c)
                 (coord_y end0) (coord_y end1))
    else None
  else None.

(** The running maximum, as the loop takes it. *)
Definition raise (y_max y_mid : double) : double :=
  if c_gt y_mid y_max then y_mid else y_max.

Lemma visit_candidate (fld : FieldState) (x_cutoff y_max : double) (c : Cell) :
  visit fld x_cutoff y_max c
  = if c_ge (cx c) x_cutoff then y_max
    else match candidate fld c with
         | Some y_mid => raise y_max y_mid
         | None => y_max
         end.
Proof.
  unfold visit, candidate, raise.
  destruct (c_ge (cx c) x_cutoff); [reflexivity|]. cbn [orb].
  destruct (interface_cell (cf c)); [|reflexivity]. cbn [negb].
  destruct (facets _ _) as [npoints [end0 end1]].
  destruct (npoints =? 2)%Z; reflexivity.
Qed.

Lemma raise_ge (y_max y_mid : double) :
  is_num y_max = true -> c_le y_max (raise y_max y_mid) = true.
Proof.
  intros H. unfold raise, c_gt. fold (c_lt y_max y_mid).
  destruct (c_lt y_max y_mid) eqn:E.
  - now apply c_lt_le.
  - now apply c_le_refl.
Qed.

Lemma raise_mono (a b y : double) :
  c_le a b = true -> c_le (raise a y) (raise b y) = true.
Proof.
  intros Hab. unfold raise, c_gt. fold (c_lt a y) (c_lt b y).
  pose proof (c_le_num_l a b Hab) as Ha.
  pose proof (c_le_num_r a b Hab) as Hb.
  destruct (c_lt a y) eqn:Ea, (c_lt b y) eqn:Eb.
  - apply c_le_refl. now apply c_lt_num_r in Ea.
  - apply c_lt_false_le; [|assumption|assumption].
    now apply c_lt_num_r in Ea.
  - apply c_le_trans with b; [assumption|]. now apply c_lt_le.
  - assumption.
Qed.

Lemma visit_ge (fld : FieldState) (x_cutoff y_max : double) (c : Cell) :
  is_num y_max = true -> c_le y_max (visit fld x_cutoff y_max c) = true.
Proof.
  intros H. rewrite visit_candidate.
  destruct (c_ge (cx c) x_cutoff); [now apply c_le_refl|].
  destruct (candidate fld c); [now apply raise_ge|now apply c_le_refl].
Qed.

Lemma fold_visit_ge (fld cells : FieldState) (x_cutoff : double) :
  forall y_max, is_num y_max = true ->
    c_le y_max (fold_left (visit fld x_cutoff) cells y_max) = true.
Proof.
  induction cells as [|c r IH]; intros y_max H; simpl.
  - now apply c_le_refl.
  - pose proof (visit_ge fld x_cutoff y_max c H) as Hv.
    apply c_le_trans with (visit fld x_cutoff y_max c); [assumption|].
    apply IH. now apply c_le_num_r in Hv.
Qed.

(** A wider window skips no cell a narrower one visits. *)
Lemma window_widens (c1 c2 x : double) :
  c_le c1 c2 = true -> c_ge x c2 = true -> c_ge x c1 = true.
Proof. unfold c_ge. fold (c_le c2 x) (c_le c1 x). apply c_le_trans. Qed.

Lemma visit_mono (fld : FieldState) (c1 c2 a b : double) (c : Cell) :
  c_le c1 c2 = true -> c_le a b = true ->
  c_le (visit fld c1 a c) (visit fld c2 b c) = true.
Proof.
  intros Hc Hab. rewrite !visit_candidate.
  pose proof (c_le_num_r a b Hab) as Hb.
  destruct (c_ge (cx c) c2) eqn:E2.
  - rewrite (window_widens c1 c2 (cx c) Hc E2). assumption.
  - destruct (candidate fld c) as [y|].
    + destruct (c_ge (cx c) c1).
      * apply c_le_trans with b; [assumption|]. now apply raise_ge.
      * now apply raise_mono.
    + destruct (c_ge (cx c) c1); assumption.
Qed.

Lemma fold_visit_mono (fld cells : FieldState) (c1 c2 : double) :
  c_le c1 c2 = true ->
  forall a b, c_le a b = true ->
    c_le (fold_left (visit fld c1) cells a)
         (fold_left (visit fld c2) cells b) = true.
Proof.
  intros Hc. induction cells as [|c r IH]; intros a b Hab; simpl.
  - assumption.
  - apply IH. now apply visit_mono.
Qed.

(** C6. For the same fields, the maximum found below a cutoff [c1] is at
    most the maximum found below a cutoff [c2 >= c1]. *)
Theorem maximum_height_monotone_in_cutoff (fld : FieldState) (c1 c2 : double) :
  c_le c1 c2 = true ->
  c_le (compute_maximum_interface_height fld c1)
       (compute_maximum_interface_height fld c2) = true.
Proof.
  intros Hc. unfold compute_maximum_interface_height.
  apply fold_visit_mono; [assumption|]. apply c_le_refl. reflexivity.
Qed.

(** The maximum is never below 0. *)
Lemma maximum_height_nonnegative (fld : FieldState) (x_cutoff : double) :
  c_le 0 (compute_maximum_interface_height fld x_cutoff) = true.
Proof.
  unfold compute_maximum_interface_height.
  apply fold_visit_ge. reflexivity.
Qed.

Lemma fold_visit_unchanged (fld cells : FieldState) (x_cutoff : double) :
  (forall c, In c cells ->
     c_ge (cx c) x_cutoff = true \/ candidate fld c = None) ->
  forall y_max, fold_left (visit fld x_cutoff) cells y_max = y_max.
Proof.
  induction cells as [|c r IH]; intros H y_max; simpl; [reflexivity|].
  rewrite visit_candidate.
  assert (Hr : forall c', In c' r ->
                 c_ge (cx c') x_cutoff = true \/ candidate fld c' = None)
    by (intros; apply H; now right).
  destruct (H c (or_introl eq_refl)) as [Hskip|Hnone].
  - rewrite Hskip. now apply IH.
  - rewrite Hnone. destruct (c_ge (cx c) x_cutoff); now apply IH.
Qed.

(** When the loop skips every cell, or finds no two-point segment in the
    cells it does not skip, the maximum is the 0 it starts from. *)
Lemma maximum_height_zero (fld : FieldState) (x_cutoff : double) :
  (forall c, In c fld ->
     c_ge (cx c) x_cutoff = true \/ candidate fld c = None) ->
  compute_maximum_interface_height fld x_cutoff = 0.0.
Proof.
  intros H. unfold compute_maximum_interface_height.
  now apply fold_visit_unchanged.
Qed.

(** X26. For a cutoff and radial positions that are numbers, the maximum is 0
    when no cell strictly below the cutoff is an interface cell with a
    two-point segment. *)
Lemma maximum_height_zero_below_cutoff (fld : FieldState) (x_cutoff : double) :
  is_num x_cutoff = true ->
  (forall c, In c fld -> is_num (cx c) = true) ->
  (forall c, In c fld -> c_lt (cx c) x_cutoff = true -> candidate fld c = None) ->
  compute_maximum_interface_height fld x_cutoff = 0.0.
Proof.
  intros Hcut Hnum Hnone. apply maximum_height_zero.
  intros c Hc. destruct (c_lt (cx c) x_cutoff) eqn:E.
  - right. now apply Hnone.
  - left. unfold c_ge. apply c_lt_false_le; auto.
Qed.

End Probe.

(** A reconstruction to run the probe on: in every cell a horizontal
    segment, a quarter of the cell above its centre. *)
Definition level_normal (_ : FieldState) (_ : Cell) : coord := mkCoord 0.0 1.0.
Definition level_alpha (_ : double) (_ : coord) : double := 0.25.
Definition level_facets (_ : coord) (_ : double) : Z * (coord * coord) :=
  (2%Z, (mkCoord (-0.5) 0.25, mkCoord 0.5 0.25)).

(** Three cells of size 1/8 on a row: full, cut by the interface, empty. *)
Definition sample_row : FieldState :=
  [ mkCell 0.0625 0.5625 0.125 3 1.0 0.0 0.0;
    mkCell 0.1875 0.5625 0.125 3 0.5 0.0 0.0;
    mkCell 0.3125 0.5625 0.125 3 0.0 0.0 0.0 ].

Example maximum_height_sample :
  compute_maximum_interface_height level_normal level_alpha level_facets
    sample_row 0.25 = 0.59375
  /\ compute_maximum_interface_height level_normal level_alpha level_facets
       sample_row 0.125 = 0.0.
Proof. split; reflexivity. Qed.

Lemma maximum_height_monotone_in_cutoff_witness :
  c_le 0.125 0.25 = true /\
  c_le (compute_maximum_interface_height level_normal level_alpha
          level_facets sample_row 0.125)
       (compute_maximum_interface_height level_normal level_alpha
          level_facets sample_row 0.25) = true.
Proof.
  split; [reflexivity|].
  apply (maximum_height_monotone_in_cutoff level_normal level_alpha
           level_facets sample_row 0.125 0.25).
  reflexivity.
Defined.

(** The test of [parse_arguments] on the cutoff is [x_cutoff <= 0], false of
    a NaN: a NaN cutoff is accepted. *)
Lemma parse_arguments_accepts_nan (atof : string -> double) (prog file : string)
  (cfg : footprint_config) :
  atof "nan"%string = nan ->
  parse_arguments atof [prog; file; "nan"%string] cfg
  = (1%Z, mkFootprint (strncpy 255 file) nan, []).
Proof.
  intros H. unfold parse_arguments. cbn [List.length nth Z.of_nat].
  rewrite H. reflexivity.
Qed.

(** C10. The maximum is never below 0, and it is 0 when the loop visits no
    interface cell with a two-point segment. The loop skips a cell on
    [x >= x_cutoff], which is false of every cell when the cutoff is a NaN:
    then no cell lies strictly below the cutoff, and yet the result is the
    maximum over all the cells, not 0. *)
Theorem maximum_height_nan_cutoff :
  (forall c, In c sample_row -> c_lt (cx c) nan = false) /\
  compute_maximum_interface_height level_normal level_alpha level_facets
    sample_row nan = 0.59375 /\
  c_eq (compute_maximum_interface_height level_normal level_alpha level_facets
          sample_row nan) 0.0 = false.
Proof.
  split; [|split; reflexivity].
  intros c Hc. apply c_lt_nan_r. reflexivity.
Qed.

(** *** The arguments, the window and the record printed *)

Section Outcome.

Variable atof : string -> double.
Variable facet_normal : FieldState -> Cell -> coord.
Variable plane_alpha : double -> coord -> double.
Variable facets : coord -> double -> Z * (coord * coord).
Variable restore : string -> option (FieldState * double).

(** X23. [parse_arguments] returns 1 exactly when there are three tokens
    (the program name, the snapshot and the cutoff) and the test
    [x_cutoff <= 0] is false of the converted cutoff; it returns 0
    otherwise, and then has printed why. When it accepts, the configuration
    holds the name of the snapshot, cut to 255 bytes, and the cutoff, which
    is above 0 if it is a number, and nothing is printed. With another
    number of tokens the configuration is not written to. *)
Theorem parse_arguments_outcome (argv : list string) (cfg : footprint_config) :
  let r := parse_arguments atof argv cfg in
  let cutoff := atof (nth 2%nat argv EmptyString) in
  (fst (fst r) = 1%Z \/ fst (fst r) = 0%Z) /\
  (fst (fst r) = 1%Z <->
   List.length argv = 3%nat /\ c_le cutoff 0.0 = false) /\
  (fst (fst r) = 1%Z ->
   snd (fst r) = mkFootprint (strncpy 255 (nth 1%nat argv EmptyString)) cutoff
   /\ snd r = []
   /\ (is_num cutoff = true -> c_lt 0.0 cutoff = true)) /\
  (fst (fst r) = 0%Z -> snd r <> []) /\
  (List.length argv <> 3%nat -> snd (fst r) = cfg).
Proof.
  intros r cutoff. subst r cutoff. unfold parse_arguments.
  destruct (Z.eqb_spec (Z.of_nat (List.length argv)) 3) as [E|E]; cbn [negb].
  - cbn [x_cutoff].
    destruct (c_le (atof (nth 2%nat argv EmptyString)) 0.0) eqn:F; cbn.
    + split; [now right|].
      split; [split; [discriminate|intros [_ H]; discriminate H]|].
      split; [discriminate|]. split; [discriminate|]. lia.
    + split; [now left|].
      split; [split; [intros _; split; [lia|reflexivity]|reflexivity]|].
      split; [|split; [discriminate|lia]].
      intros _. repeat split. intros Hn.
      apply c_le_false_lt; [assumption|reflexivity|assumption].
  - cbn. split; [now right|].
    split; [split; [discriminate|intros [H _]; lia]|].
    split; [discriminate|]. split; [discriminate|reflexivity].
Qed.

(** X24. A cell that [interface_cell] takes for an interface cell has a
    volume fraction that is a number strictly between 0 and 1. *)
Theorem interface_cell_strictly_between (vof_value : double) :
  interface_cell vof_value = true ->
  c_lt 0.0 vof_value = true /\ c_lt vof_value 1.0 = true.
Proof.
  unfold interface_cell, c_gt. fold (c_lt 1e-6 vof_value).
  intros H. apply andb_true_iff in H. destruct H as [Hlo Hhi]. split.
  - apply c_lt_trans with 1e-6; [reflexivity|assumption].
  - apply c_lt_trans with (1.0 - 1e-6); [assumption|reflexivity].
Qed.

(** What a cell offers to the maximum: its candidate, when the loop does
    not skip it for its radial position. *)
Definition offer (fld : FieldState) (x_cutoff : double) (c : Cell)
  : option double :=
  if c_ge (cx c) x_cutoff then None
  else candidate facet_normal plane_alpha facets fld c.

Lemma compute_maximum_interface_height_take (fld : FieldState)
  (x_cutoff : double) :
  compute_maximum_interface_height facet_normal plane_alpha facets fld x_cutoff
  = fold_left (take (offer fld x_cutoff)) fld 0.0.
Proof.
  unfold compute_maximum_interface_height.
  generalize fld at 2 4. generalize 0.0.
  intros acc cells. revert acc.
  induction cells as [|c r IH]; intros acc; simpl; [reflexivity|].
  rewrite IH. f_equal. rewrite visit_candidate. unfold take, offer, raise.
  destruct (c_ge (cx c) x_cutoff); reflexivity.
Qed.

(** X25. [compute_maximum_interface_height] returns the largest midpoint
    of the cells it visits: the result is at least the midpoint of every
    interface cell with a two-point segment that the test [x >= x_cutoff]
    does not skip (when that midpoint is a number), it is the midpoint of
    one of those cells unless it is the 0 it starts from, and it is never
    below 0. *)
Theorem maximum_height_is_maximum (fld : FieldState) (x_cutoff : double) :
  let y_max := compute_maximum_interface_height facet_normal plane_alpha
                 facets fld x_cutoff in
  c_le 0.0 y_max = true /\
  (forall c y_mid, In c fld -> c_ge (cx c) x_cutoff = false ->
     candidate facet_normal plane_alpha facets fld c = Some y_mid ->
     is_num y_mid = true -> c_le y_mid y_max = true) /\
  (y_max = 0.0 \/
   exists c, In c fld /\ c_ge (cx c) x_cutoff = false /\
             candidate facet_normal plane_alpha facets fld c = Some y_max).
Proof.
  intros y_max. subst y_max. rewrite compute_maximum_interface_height_take.
  repeat apply conj.
  - apply fold_take_ge. reflexivity.
  - intros c y_mid Hin Hx Hc Hy.
    apply (fold_take_upper Cell (offer fld x_cutoff) fld c); auto.
    unfold offer. now rewrite Hx.
  - destruct (fold_take_attained Cell (offer fld x_cutoff) fld 0.0)
      as [E|(c & Hin & Hv)]; [now left|].
    right. exists c. unfold offer in Hv.
    destruct (c_ge (cx c) x_cutoff); [discriminate|]. auto.
Qed.

(** X27. [main] returns 1 when [parse_arguments] refuses the arguments,
    and then prints no record; it returns 0 otherwise, and then prints one
    record and nothing else: the time of the snapshot and the maximum over
    its fields for the cutoff given, which is never below 0. *)
Theorem main_prints_one_record (initial : FieldState) (argv : list string) :
  let r := main atof facet_normal plane_alpha facets restore initial argv in
  let cutoff := atof (nth 2%nat argv EmptyString) in
  (fst r = 0%Z \/ fst r = 1%Z) /\
  (fst r = 0%Z <-> List.length argv = 3%nat /\ c_le cutoff 0.0 = false) /\
  (fst r = 0%Z ->
   exists fld t,
     (restore (strncpy 255 (nth 1%nat argv EmptyString)) = Some (fld, t)
      \/ (restore (strncpy 255 (nth 1%nat argv EmptyString)) = None
          /\ fld = initial /\ t = 0.0)) /\
     let y_max := compute_maximum_interface_height facet_normal plane_alpha
                    facets fld cutoff in
     snd r = [Csv t y_max] /\ c_le 0.0 y_max = true) /\
  (fst r = 1%Z -> forall t y, ~ In (Csv t y) (snd r)).
Proof.
  intros r cutoff. subst r cutoff. unfold main, parse_arguments.
  destruct (Z.eqb_spec (Z.of_nat (List.length argv)) 3) as [E|E]; cbn [negb].
  - cbn [x_cutoff].
    destruct (c_le (atof (nth 2%nat argv EmptyString)) 0.0) eqn:F; cbn.
    + split; [now right|].
      split; [split; [discriminate|intros [_ H]; discriminate H]|].
      split; [discriminate|].
      intros _ t y [H|[]]. discriminate H.
    + destruct (restore _) as [[fld t]|] eqn:R; cbn.
      * split; [now left|].
        split; [split; [intros _; split; [lia|reflexivity]|reflexivity]|].
        split; [|discriminate].
        intros _. exists fld, t. split; [now left|].
        split; [reflexivity|apply maximum_height_nonnegative].
      * split; [now left|].
        split; [split; [intros _; split; [lia|reflexivity]|reflexivity]|].
        split; [|discriminate].
        intros _. exists initial, 0.0. split; [right; repeat split|].
        split; [reflexivity|apply maximum_height_nonnegative].
  - cbn. split; [now right|].
    split; [split; [discriminate|intros [H _]; lia]|].
    split; [discriminate|].
    intros _ t y [H|[H|[]]]; discriminate H.
Qed.

End Outcome.

Lemma interface_cell_strictly_between_witness :
  interface_cell 0.5 = true /\ c_lt 0.0 0.5 = true /\ c_lt 0.5 1.0 = true.
Proof.
  split; [reflexivity|].
  apply (interface_cell_strictly_between 0.5). reflexivity.
Defined.

Lemma maximum_height_zero_below_cutoff_witness :
  is_num 0.125 = true /\
  compute_maximum_interface_height level_normal level_alpha level_facets
    sample_row 0.125 = 0.0.
Proof.
  split; [reflexivity|].
  apply (maximum_height_zero_below_cutoff level_normal level_alpha
           level_facets sample_row 0.125).
  - reflexivity.
  - intros c [<-|[<-|[<-|[]]]]; reflexivity.
  - intros c [<-|[<-|[<-|[]]]] H; try reflexivity; discriminate H.
Defined.

End FootPrint.
